(** * valhalla_run_route: the route-search orchestration of the command line tool

    A shallow embedding of [src/valhalla_run_route.cc]: the statistics
    record ([PathStatistics]), the multi-pass search driver ([PathTest]),
    the costing resolution ([get_costing]) and the part of [main] that
    resolves the locations, checks connectivity, chooses the path
    algorithm of each leg and classifies the outcome.

    Conventions.
    - [uint32_t] values are [N] with the wrap-around written out ([wrap32]).
    - [float] values are IEEE 754 binary32 numbers ([spec_float] with 24
      bits of precision), and their sums, products and literals are
      rounded as the hardware rounds them (to nearest, ties to even).
    - The libraries the tool calls (graph reader, path algorithms, costing,
      location search, directions) are the fields of the classes
      [DynamicCost] and [Externals]; every theorem holds for all of them.
    - Calls into the path algorithm and the costing are recorded, in order,
      in an event list, together with the statistics lines written.
    - [LOG_INFO], [LOG_ERROR] and narrative output is not modelled, except
      the average written by the multi-run loop.
    - A call into the path algorithm or the trip path builder may throw
      instead of returning; [main] catches a [std::runtime_error] that
      leaves [PathTest] and goes on with the trip path it had.  A null
      pointer (a costing the factory did not make, a tile the reader does
      not have) has no defined behaviour where the code dereferences it.
    - The lines [DirectionsTest] logs are modelled on their own
      ([narrative]), as are the texts of a location and of a time and the
      front of [main] that reads the command line ([command_line]);
      [to_json], which only a disabled debug block calls, is left out. *)

From Stdlib Require Import ZArith NArith List String Ascii Bool Lia.
From Stdlib Require DecimalString DecimalN.
From Stdlib Require Floats.SpecFloat.
Import ListNotations.

Open Scope string_scope.
Open Scope list_scope.

Set Warnings "-register-all".

(** ** boost::property_tree *)

Module Ptree.

(** A property tree: the node's own data and the ordered sequence of
    (key, child) pairs; keys may repeat. *)
Inductive ptree : Type :=
| Node (data : string) (children : list (string * ptree)).

Definition data (t : ptree) : string := match t with Node d _ => d end.
Definition children (t : ptree) : list (string * ptree) :=
  match t with Node _ cs => cs end.

Definition empty_ptree : ptree := Node "" [].

(** The fragments of a [string_path]: the text between separators. *)
Fixpoint split_on (sep : ascii) (s : string) : list string :=
  match s with
  | EmptyString => [EmptyString]
  | String c rest =>
      if Ascii.eqb c sep then EmptyString :: split_on sep rest
      else match split_on sep rest with
           | [] => [String c EmptyString]
           | f :: fs => String c f :: fs
           end
  end.

Definition separator : ascii := "."%char.

Definition fragments (path : string) : list string := split_on separator path.

(** [find(key)]: the first child with that key, in sequence order. *)
Fixpoint find (key : string) (cs : list (string * ptree)) : option ptree :=
  match cs with
  | [] => None
  | (k, c) :: rest => if String.eqb k key then Some c else find key rest
  end.

(** [el->second = value] at the child [find] returns. *)
Fixpoint replace_first (key : string) (v : ptree) (cs : list (string * ptree))
  : list (string * ptree) :=
  match cs with
  | [] => []
  | (k, c) :: rest =>
      if String.eqb k key then (k, v) :: rest
      else (k, c) :: replace_first key v rest
  end.

(** [walk_path]: once the rest of the path is empty the current node is
    the answer; otherwise descend into the child the next fragment names. *)
Fixpoint walk_path (fs : list string) (t : ptree) : option ptree :=
  match fs with
  | [] => Some t
  | f :: rest =>
      match rest, f with
      | [], EmptyString => Some t
      | _, _ =>
          match find f (children t) with
          | None => None
          | Some c => walk_path rest c
          end
      end
  end.

Definition get_child_optional (t : ptree) (path : string) : option ptree :=
  walk_path (fragments path) t.

(** [put_child] on the fragments of the path: [force_path] descends,
    creating the missing parents, down to the parent of the last fragment;
    there an existing child is replaced and a new one is pushed back.
    [None] is the failed [BOOST_ASSERT] on a path with nothing left (a
    build without assertions goes on with an empty key instead; nothing
    below depends on that case). *)
Fixpoint put_fragments (fs : list string) (v : ptree) (t : ptree) : option ptree :=
  match fs with
  | [] => None
  | f :: rest =>
      match rest with
      | [] =>
          match f with
          | EmptyString => None
          | _ =>
              match find f (children t) with
              | Some _ => Some (Node (data t) (replace_first f v (children t)))
              | None => Some (Node (data t) (children t ++ [(f, v)]))
              end
          end
      | _ :: _ =>
          match find f (children t) with
          | Some c =>
              match put_fragments rest v c with
              | Some c' => Some (Node (data t) (replace_first f c' (children t)))
              | None => None
              end
          | None =>
              match put_fragments rest v empty_ptree with
              | Some c' => Some (Node (data t) (children t ++ [(f, c')]))
              | None => None
              end
          end
      end
  end.

Definition put_child (t : ptree) (path : string) (v : ptree) : option ptree :=
  put_fragments (fragments path) v t.

(** Writing through the reference [get_child_optional] returned: the node
    reached by the path is replaced, everything else stays. *)
Fixpoint assign_at (fs : list string) (v : ptree) (t : ptree) : ptree :=
  match fs with
  | [] => v
  | f :: rest =>
      match rest, f with
      | [], EmptyString => v
      | _, _ =>
          match find f (children t) with
          | None => t
          | Some c => Node (data t) (replace_first f (assign_at rest v c) (children t))
          end
      end
  end.

End Ptree.
Export Ptree.

(** ** Costing resolution *)

(** What is thrown: a [std::runtime_error] (or an object of a class
    derived from it) with its message, or an object of any other type. *)
Inductive exception : Type :=
| runtime_error (what : string)
| other_exception.

(** What a call of [get_costing] does: it throws its own error, it runs
    into the assertion of [put_child], or it returns what the factory
    made of the merged options. *)
Inductive costing_result (R : Type) : Type :=
| NoCostingMethod (e : exception)
| PathAssertion
| Created (r : R).
Arguments NoCostingMethod {R} e.
Arguments PathAssertion {R}.
Arguments Created {R} r.

(** The loop [for (const auto& r : *request_costing)
    config_costing->put_child(r.first, r.second)]. *)
Fixpoint merge_options (request_costing : list (string * ptree)) (config_costing : ptree)
  : option ptree :=
  match request_costing with
  | [] => Some config_costing
  | (k, v) :: rest =>
      match put_child config_costing k v with
      | None => None
      | Some config_costing' => merge_options rest config_costing'
      end
  end.

Section GetCosting.
Context {R : Type}.
(** [factory.Create(costing, options)] *)
Variable Create : string -> ptree -> R.

(** [get_costing]; the second component is the configuration afterwards,
    which the merge writes into. *)
Definition get_costing (config request : ptree) (costing : string)
  : costing_result R * ptree :=
  let method_options := ("costing_options." ++ costing)%string in
  match get_child_optional config method_options with
  | None =>
      (NoCostingMethod
         (runtime_error ("No costing method found for '" ++ costing ++ "'")%string),
       config)
  | Some config_costing =>
      match get_child_optional request method_options with
      | None => (Created (Create costing config_costing), config)
      | Some request_costing =>
          match merge_options (children request_costing) config_costing with
          | None => (PathAssertion, config)
          | Some merged =>
              (Created (Create costing merged),
               assign_at (fragments method_options) merged config)
          end
      end
  end.
End GetCosting.

(** ** Data of the tool *)

(** [float]: IEEE 754 binary32, with 24 bits of precision and the
    exponents up to 128.  The operations round to nearest, ties to even. *)
Definition float : Type := SpecFloat.spec_float.

Definition prec : Z := 24.
Definition emax : Z := 128.

(** The conversion of an integer to [float]. *)
Definition float_of_Z (z : Z) : float := SpecFloat.binary_normalize prec emax z 0 false.

Definition float_add : float -> float -> float := SpecFloat.SFadd prec emax.
Definition float_mul : float -> float -> float := SpecFloat.SFmul prec emax.
Definition float_div : float -> float -> float := SpecFloat.SFdiv prec emax.

(** A decimal literal [digits / scale] with the suffix [f], for [digits]
    and [scale] that [float] holds exactly: the nearest [float]. *)
Definition float_literal (digits scale : Z) : float :=
  float_div (float_of_Z digits) (float_of_Z scale).

Declare Scope binary32_scope.
Delimit Scope binary32_scope with f32.
Infix "+" := float_add : binary32_scope.
Infix "*" := float_mul : binary32_scope.

Definition wrap32 (n : N) : N := (n mod 2 ^ 32)%N.

(** Conversion of a signed 64-bit count to [uint32_t]. *)
Definition to_uint32 (z : Z) : N := Z.to_N (z mod 2 ^ 32)%Z.

Definition GraphId : Type := N.

Record PointLL : Type := { lat : float; lng : float }.

Record Location : Type := { latlng_ : PointLL; name_ : string }.

Record PathEdge : Type := { id : GraphId; dist : float }.

Record PathLocation : Type := { location : Location; edges : list PathEdge }.

Record PathInfo : Type := { elapsed_time : N; edgeid : GraphId }.

Record TripPath_Node : Type := { node_edge : GraphId }.

(** The trip path message; [TripPath()] has no node. *)
Record TripPath : Type := { node : list TripPath_Node }.

Definition TripPath_default : TripPath := {| node := [] |}.

Record Maneuver : Type := { text_instruction : string; maneuver_length : float }.

Record TripDirections : Type :=
  { summary_time : N; summary_length : float; maneuver : list Maneuver }.

Inductive Units : Type := kMiles | kKilometers.

Record DirectionsOptions : Type := { units : Units; language : string }.

Inductive TravelMode : Type := kDrive | kPedestrian | kBicycle | kPublicTransit.

Definition TravelMode_eqb (a b : TravelMode) : bool :=
  match a, b with
  | kDrive, kDrive | kPedestrian, kPedestrian
  | kBicycle, kBicycle | kPublicTransit, kPublicTransit => true
  | _, _ => false
  end.

(** The three path algorithm objects of [main]: [astar], [bd], [mm]. *)
Inductive PathAlgorithm : Type := astar | bd | mm.

Definition PathAlgorithm_eqb (a b : PathAlgorithm) : bool :=
  match a, b with
  | astar, astar | bd, bd | mm, mm => true
  | _, _ => false
  end.

(** *** PathStatistics *)

Record PathStatistics : Type := {
  origin : float * float;
  destination : float * float;
  success : string;
  passes : N;
  runtime : N;
  trip_time : N;
  trip_dist : float;
  arc_dist : float;
  manuevers : N
}.

Definition PathStatistics_new (p1 p2 : float * float) : PathStatistics :=
  {| origin := p1; destination := p2; success := "false";
     passes := 0; runtime := 0; trip_time := 0;
     trip_dist := float_of_Z 0; arc_dist := float_of_Z 0; manuevers := 0 |}.

Definition setSuccess (s : string) (d : PathStatistics) : PathStatistics :=
  {| origin := origin d; destination := destination d; success := s;
     passes := passes d; runtime := runtime d; trip_time := trip_time d;
     trip_dist := trip_dist d; arc_dist := arc_dist d; manuevers := manuevers d |}.

Definition incPasses (d : PathStatistics) : PathStatistics :=
  {| origin := origin d; destination := destination d; success := success d;
     passes := wrap32 (passes d + 1); runtime := runtime d; trip_time := trip_time d;
     trip_dist := trip_dist d; arc_dist := arc_dist d; manuevers := manuevers d |}.

Definition addRuntime (msec : N) (d : PathStatistics) : PathStatistics :=
  {| origin := origin d; destination := destination d; success := success d;
     passes := passes d; runtime := wrap32 (runtime d + msec); trip_time := trip_time d;
     trip_dist := trip_dist d; arc_dist := arc_dist d; manuevers := manuevers d |}.

Definition setTripTime (t : N) (d : PathStatistics) : PathStatistics :=
  {| origin := origin d; destination := destination d; success := success d;
     passes := passes d; runtime := runtime d; trip_time := t;
     trip_dist := trip_dist d; arc_dist := arc_dist d; manuevers := manuevers d |}.

Definition setTripDist (x : float) (d : PathStatistics) : PathStatistics :=
  {| origin := origin d; destination := destination d; success := success d;
     passes := passes d; runtime := runtime d; trip_time := trip_time d;
     trip_dist := x; arc_dist := arc_dist d; manuevers := manuevers d |}.

Definition setArcDist (x : float) (d : PathStatistics) : PathStatistics :=
  {| origin := origin d; destination := destination d; success := success d;
     passes := passes d; runtime := runtime d; trip_time := trip_time d;
     trip_dist := trip_dist d; arc_dist := x; manuevers := manuevers d |}.

Definition setManuevers (n : N) (d : PathStatistics) : PathStatistics :=
  {| origin := origin d; destination := destination d; success := success d;
     passes := passes d; runtime := runtime d; trip_time := trip_time d;
     trip_dist := trip_dist d; arc_dist := arc_dist d; manuevers := n |}.

(** An argument fed to [boost::format]. *)
Inductive FormatArg : Type :=
| ArgFloat (x : float)
| ArgString (s : string)
| ArgUInt (n : N).

Definition statistics_format : string := "%f,%f,%f,%f,%s,%d,%d,%d,%f,%f,%d".

(** The arguments of the format in [log], in the order they are fed. *)
Definition log_args (d : PathStatistics) : list FormatArg :=
  [ ArgFloat (fst (origin d)); ArgFloat (snd (origin d));
    ArgFloat (fst (destination d)); ArgFloat (snd (destination d));
    ArgString (success d); ArgUInt (passes d); ArgUInt (runtime d);
    ArgUInt (trip_time d); ArgFloat (trip_dist d); ArgFloat (arc_dist d);
    ArgUInt (manuevers d) ].

(** The comma separated directives of a format string. *)
Definition directives (fmt : string) : list string := split_on ","%char fmt.

(** Whether a directive takes the argument. *)
Definition directive_takes (dir : string) (a : FormatArg) : bool :=
  match a with
  | ArgFloat _ => String.eqb dir "%f"
  | ArgString _ => String.eqb dir "%s"
  | ArgUInt _ => String.eqb dir "%d"
  end.

Fixpoint well_formatted (dirs : list string) (args : list FormatArg) : bool :=
  match dirs, args with
  | [], [] => true
  | dir :: dirs', a :: args' => directive_takes dir a && well_formatted dirs' args'
  | _, _ => false
  end.

(** What the run leaves behind, in order. *)
Inductive Event : Type :=
| CallGetBestPath (alg : PathAlgorithm)
| CallClear (alg : PathAlgorithm)
| CallRelaxHierarchyLimits (mode : TravelMode) (using_astar : bool)
    (expansion_within_factor : float)
| CallDisableHighwayTransitions (mode : TravelMode)
| CallBuild
| LogAverage (msecs : N)
| LogStatistics (fmt : string) (args : list FormatArg).

(** *** The libraries *)

(** [sif::DynamicCost]: a costing object and the methods the tool calls.
    [RelaxHierarchyLimits] takes what [PathTest] passes: [using_astar]
    and the expansion factor. *)
Class DynamicCost : Type := {
  cost_t : Type;
  travelmode : cost_t -> TravelMode;
  AllowMultiPass : cost_t -> bool;
  RelaxHierarchyLimits : bool -> float -> cost_t -> cost_t;
  DisableHighwayTransitions : cost_t -> cost_t
}.

(** Everything else the tool calls.  [world] is the state behind those
    calls: the graph reader with its tile cache, the working state of the
    three path algorithms and the clock.

    A call of [GetBestPath], [Clear] or [Build] returns what the function
    of that name gives, unless the function with the suffix [_throws]
    gives an exception for it: then the call throws that exception and
    leaves the state given with it.

    The tiles are the data of the graph, which no call changes:
    [GetGraphTile] gives the tile of an edge, [None] being the null
    pointer the reader returns for a tile it does not have;
    [directededge] and [unreachable] are the methods of that name of the
    tile and of a directed edge.

    [Create] is the factory: it throws, or returns a pointer to a costing
    object, [None] being the null pointer. *)
Class Externals `{DynamicCost} : Type := {
  world : Type;
  GraphReader : ptree -> world;
  now : world -> Z;
  GetBestPath : PathAlgorithm -> PathLocation -> PathLocation ->
                (TravelMode -> option cost_t) -> TravelMode ->
                world -> list PathInfo * world;
  GetBestPath_throws : PathAlgorithm -> PathLocation -> PathLocation ->
                       (TravelMode -> option cost_t) -> TravelMode ->
                       world -> option (exception * world);
  Clear : PathAlgorithm -> world -> world;
  Clear_throws : PathAlgorithm -> world -> option (exception * world);
  Build : list PathInfo -> PathLocation -> PathLocation -> world -> TripPath * world;
  Build_throws : list PathInfo -> PathLocation -> PathLocation -> world ->
                 option (exception * world);
  DirectionsBuild : DirectionsOptions -> TripPath -> TripDirections;
  loki_Search : Location -> cost_t -> world -> option PathLocation * world;
  get_colors : PathLocation -> world -> list N;
  GraphTile : Type;
  DirectedEdge : Type;
  GetGraphTile : GraphId -> option GraphTile;
  directededge : GraphTile -> GraphId -> DirectedEdge;
  unreachable : DirectedEdge -> bool;
  Distance : PointLL -> PointLL -> float;
  Create : string -> ptree -> exception + option cost_t
}.

(** ** The tool *)

(** A step yields a value, has no defined behaviour (a null pointer, an
    index out of range, a division by zero), or is left by an exception. *)
Inductive Result (A : Type) : Type :=
| Value (a : A)
| Undefined
| Thrown (e : exception).
Arguments Value {A} a.
Arguments Undefined {A}.
Arguments Thrown {A} e.

Section Tool.
Context {DC : DynamicCost} {E : Externals}.

(** What the code has in hand while the legs are routed: the reader and
    the path algorithms, the [mode_costing] array (a null pointer is
    [None]), the statistics, the variable [trip_path] that [main]
    declares before the loop over the legs, and what was called and
    written so far. *)
Record State : Type := {
  reader : world;
  mode_costing : TravelMode -> option cost_t;
  data : PathStatistics;
  trip_path : TripPath;
  events : list Event
}.

Definition set_reader (w : world) (s : State) : State :=
  {| reader := w; mode_costing := mode_costing s; data := data s;
     trip_path := trip_path s; events := events s |}.

Definition set_mode_costing (mc : TravelMode -> option cost_t) (s : State) : State :=
  {| reader := reader s; mode_costing := mc; data := data s;
     trip_path := trip_path s; events := events s |}.

Definition set_data (d : PathStatistics) (s : State) : State :=
  {| reader := reader s; mode_costing := mode_costing s; data := d;
     trip_path := trip_path s; events := events s |}.

Definition set_trip_path (t : TripPath) (s : State) : State :=
  {| reader := reader s; mode_costing := mode_costing s; data := data s;
     trip_path := t; events := events s |}.

Definition emit (ev : Event) (s : State) : State :=
  {| reader := reader s; mode_costing := mode_costing s; data := data s;
     trip_path := trip_path s; events := events s ++ [ev] |}.

Definition M (A : Type) : Type := State -> Result A * State.

Definition ret {A : Type} (a : A) : M A := fun s => (Value a, s).

Definition bind {A B : Type} (m : M A) (f : A -> M B) : M B :=
  fun s =>
    match m s with
    | (Value a, s') => f a s'
    | (Undefined, s') => (Undefined, s')
    | (Thrown e, s') => (Thrown e, s')
    end.

Definition undefined {A : Type} : M A := fun s => (Undefined, s).

Notation "x <- m ;; k" := (bind m (fun x => k))
  (at level 61, m at next level, right associativity).
Notation "m ;;; k" := (bind m (fun _ => k))
  (at level 61, right associativity).

(** [try { body } catch (std::runtime_error&) { handler }]: an exception
    of another type is thrown on. *)
Definition try_catch (body handler : M unit) : M unit :=
  fun s =>
    match body s with
    | (Thrown (runtime_error _), s') => handler s'
    | run => run
    end.

Definition on_data (f : PathStatistics -> PathStatistics) : M unit :=
  fun s => (Value tt, set_data (f (data s)) s).

Definition write (ev : Event) : M unit := fun s => (Value tt, emit ev s).

Definition clock : M Z := fun s => (Value (now (reader s)), s).

(** The calls into the path algorithm and the trip path builder, when
    they return. *)
Definition do_GetBestPath (pathalgorithm : PathAlgorithm) (origin dest : PathLocation)
  (mode : TravelMode) : M (list PathInfo) :=
  fun s =>
    let (pathedges, w) :=
      GetBestPath pathalgorithm origin dest (mode_costing s) mode (reader s) in
    (Value pathedges, emit (CallGetBestPath pathalgorithm) (set_reader w s)).

Definition do_Clear (pathalgorithm : PathAlgorithm) : M unit :=
  fun s => (Value tt,
            emit (CallClear pathalgorithm) (set_reader (Clear pathalgorithm (reader s)) s)).

Definition do_Build (pathedges : list PathInfo) (origin dest : PathLocation) : M TripPath :=
  fun s =>
    let (trip_path, w) := Build pathedges origin dest (reader s) in
    (Value trip_path, emit CallBuild (set_reader w s)).

(** The same calls, when they may throw. *)
Definition try_GetBestPath (pathalgorithm : PathAlgorithm) (origin dest : PathLocation)
  (mode : TravelMode) : M (list PathInfo) :=
  fun s =>
    match GetBestPath_throws pathalgorithm origin dest (mode_costing s) mode (reader s)
    with
    | Some (e, w) => (Thrown e, emit (CallGetBestPath pathalgorithm) (set_reader w s))
    | None => do_GetBestPath pathalgorithm origin dest mode s
    end.

Definition try_Clear (pathalgorithm : PathAlgorithm) : M unit :=
  fun s =>
    match Clear_throws pathalgorithm (reader s) with
    | Some (e, w) => (Thrown e, emit (CallClear pathalgorithm) (set_reader w s))
    | None => do_Clear pathalgorithm s
    end.

Definition try_Build (pathedges : list PathInfo) (origin dest : PathLocation)
  : M TripPath :=
  fun s =>
    match Build_throws pathedges origin dest (reader s) with
    | Some (e, w) => (Thrown e, emit CallBuild (set_reader w s))
    | None => do_Build pathedges origin dest s
    end.

(** [cost->q()] on the object [mode_costing[mode]] points to. *)
Definition cost_query {A : Type} (mode : TravelMode) (q : cost_t -> A) : M A :=
  fun s =>
    match mode_costing s mode with
    | Some cost => (Value (q cost), s)
    | None => (Undefined, s)
    end.

(** [cost->f()] changing that object in place. *)
Definition cost_update (mode : TravelMode) (f : cost_t -> cost_t) (ev : Event) : M unit :=
  fun s =>
    match mode_costing s mode with
    | Some cost =>
        (Value tt,
         emit ev (set_mode_costing
                    (fun m => if TravelMode_eqb m mode then Some (f cost)
                              else mode_costing s m) s))
    | None => (Undefined, s)
    end.

Definition empty {A : Type} (l : list A) : bool :=
  match l with [] => true | _ :: _ => false end.

(** [totalms / iterations] *)
Definition average (totalms iterations : N) : M N :=
  if N.eqb iterations 0 then undefined else ret (totalms / iterations)%N.

Section Calls.
(** [PathTest] over the three calls it makes into the path algorithm and
    the trip path builder. *)
Variable call_GetBestPath :
  PathAlgorithm -> PathLocation -> PathLocation -> TravelMode -> M (list PathInfo).
Variable call_Clear : PathAlgorithm -> M unit.
Variable call_Build : list PathInfo -> PathLocation -> PathLocation -> M TripPath.

(** The body of the multi-run loop, [n] more rounds to go. *)
Fixpoint rerun_with (pathalgorithm : PathAlgorithm) (origin dest : PathLocation)
  (mode : TravelMode) (n : nat) (totalms : N) : M N :=
  match n with
  | O => ret totalms
  | S n' =>
      t1 <- clock ;;
      _ <- call_GetBestPath pathalgorithm origin dest mode ;;
      t2 <- clock ;;
      let totalms' := to_uint32 (Z.of_N totalms + (t2 - t1)) in
      call_Clear pathalgorithm ;;;
      rerun_with pathalgorithm origin dest mode n' totalms'
  end.

(** From "Form trip path" to the end of [PathTest]. *)
Definition form_trip_path_with (pathalgorithm : PathAlgorithm)
  (origin dest : PathLocation) (mode : TravelMode) (multi_run : bool) (iterations : N)
  (pathedges : list PathInfo) : M TripPath :=
  trip_path <- call_Build pathedges origin dest ;;
  call_Clear pathalgorithm ;;;
  (if multi_run then
     totalms <- rerun_with pathalgorithm origin dest mode (N.to_nat iterations) 0%N ;;
     msecs <- average totalms iterations ;;
     write (LogAverage msecs)
   else ret tt) ;;;
  ret trip_path.

(** [PathTest]; [mode_costing] and [data] are those of the state. *)
Definition PathTest_with (origin dest : PathLocation) (pathalgorithm : PathAlgorithm)
  (mode : TravelMode) (multi_run : bool) (iterations : N) (using_astar : bool)
  : M TripPath :=
  pathedges <- call_GetBestPath pathalgorithm origin dest mode ;;
  on_data incPasses ;;;
  pathedges <-
    (if empty pathedges then
       allow <- cost_query mode AllowMultiPass ;;
       if allow then
         call_Clear pathalgorithm ;;;
         let relax_factor := if using_astar then float_of_Z 16 else float_of_Z 8 in
         let expansion_within_factor :=
           if using_astar then float_of_Z 4 else float_of_Z 2 in
         cost_update mode
           (RelaxHierarchyLimits using_astar expansion_within_factor)
           (CallRelaxHierarchyLimits mode using_astar expansion_within_factor) ;;;
         pathedges' <- call_GetBestPath pathalgorithm origin dest mode ;;
         on_data incPasses ;;;
         ret pathedges'
       else ret pathedges
     else ret pathedges) ;;
  if empty pathedges then
    if negb using_astar then ret TripPath_default
    else
      cost_update mode DisableHighwayTransitions (CallDisableHighwayTransitions mode) ;;;
      call_Clear pathalgorithm ;;;
      pathedges' <- call_GetBestPath pathalgorithm origin dest mode ;;
      on_data incPasses ;;;
      if empty pathedges' then ret TripPath_default
      else form_trip_path_with pathalgorithm origin dest mode multi_run iterations
             pathedges'
  else form_trip_path_with pathalgorithm origin dest mode multi_run iterations pathedges.

(** The search attempts of [PathTest] taken on their own (the function up
    to "Form trip path"): the path edges the last attempt returned, empty
    where [PathTest] returns the empty trip path. *)
Definition attempts_with (origin dest : PathLocation) (pathalgorithm : PathAlgorithm)
  (mode : TravelMode) (using_astar : bool) : M (list PathInfo) :=
  pathedges <- call_GetBestPath pathalgorithm origin dest mode ;;
  on_data incPasses ;;;
  pathedges <-
    (if empty pathedges then
       allow <- cost_query mode AllowMultiPass ;;
       if allow then
         call_Clear pathalgorithm ;;;
         let expansion_within_factor :=
           if using_astar then float_of_Z 4 else float_of_Z 2 in
         cost_update mode
           (RelaxHierarchyLimits using_astar expansion_within_factor)
           (CallRelaxHierarchyLimits mode using_astar expansion_within_factor) ;;;
         pathedges' <- call_GetBestPath pathalgorithm origin dest mode ;;
         on_data incPasses ;;;
         ret pathedges'
       else ret pathedges
     else ret pathedges) ;;
  if empty pathedges then
    if negb using_astar then ret []
    else
      cost_update mode DisableHighwayTransitions (CallDisableHighwayTransitions mode) ;;;
      call_Clear pathalgorithm ;;;
      pathedges' <- call_GetBestPath pathalgorithm origin dest mode ;;
      on_data incPasses ;;;
      ret pathedges'
  else ret pathedges.

End Calls.

(** [PathTest] and its parts when every call it makes returns. *)
Definition rerun : PathAlgorithm -> PathLocation -> PathLocation -> TravelMode ->
                   nat -> N -> M N :=
  rerun_with do_GetBestPath do_Clear.

Definition form_trip_path : PathAlgorithm -> PathLocation -> PathLocation ->
                            TravelMode -> bool -> N -> list PathInfo -> M TripPath :=
  form_trip_path_with do_GetBestPath do_Clear do_Build.

Definition PathTest : PathLocation -> PathLocation -> PathAlgorithm -> TravelMode ->
                      bool -> N -> bool -> M TripPath :=
  PathTest_with do_GetBestPath do_Clear do_Build.

Definition attempts : PathLocation -> PathLocation -> PathAlgorithm -> TravelMode ->
                      bool -> M (list PathInfo) :=
  attempts_with do_GetBestPath do_Clear.

(** [PathTest] as [main] calls it in its [try] block: a call that throws
    ends it there, with what it has changed so far. *)
Definition try_PathTest : PathLocation -> PathLocation -> PathAlgorithm -> TravelMode ->
                          bool -> N -> bool -> M TripPath :=
  PathTest_with try_GetBestPath try_Clear try_Build.

(** [DirectionsTest]: the directions of the trip path and the three
    statistics taken from them. *)
Definition DirectionsTest (directions_options : DirectionsOptions) (trip_path : TripPath)
  : M TripDirections :=
  let trip_directions := DirectionsBuild directions_options trip_path in
  on_data (setTripTime (summary_time trip_directions)) ;;;
  on_data (setTripDist (summary_length trip_directions)) ;;;
  on_data (setManuevers (wrap32 (N.of_nat (List.length (maneuver trip_directions))))) ;;;
  ret trip_directions.

(** The choice of the path algorithm of a leg in [main]. *)
Definition choose_pathalgorithm (routetype : string) (origin dest : PathLocation)
  : PathAlgorithm :=
  if String.eqb routetype "multimodal" then mm
  else if String.eqb routetype "pedestrian" then bd
  else
    fold_left
      (fun pathalgorithm edge1 =>
         fold_left
           (fun pathalgorithm edge2 =>
              if N.eqb (id edge1) (id edge2) then astar else pathalgorithm)
           (edges dest) pathalgorithm)
      (edges origin) bd.

(** A loop over the candidate edges of a failed leg: is one of them
    flagged unreachable.  The tile pointer is dereferenced without a
    check: [None] when the reader has no tile for a candidate. *)
Fixpoint scan_unreachable_from (flag : bool) (candidates : list PathEdge) : option bool :=
  match candidates with
  | [] => Some flag
  | edge :: rest =>
      match GetGraphTile (id edge) with
      | None => None
      | Some tile =>
          let directededge := directededge tile (id edge) in
          scan_unreachable_from (if unreachable directededge then true else flag) rest
      end
  end.

Definition scan_unreachable (candidates : list PathEdge) : option bool :=
  scan_unreachable_from false candidates.

Definition scan (candidates : list PathEdge) : M bool :=
  fun s =>
    match scan_unreachable candidates with
    | Some flag => (Value flag, s)
    | None => (Undefined, s)
    end.

Definition classify_failure (unreachable_origin unreachable_dest : bool) : string :=
  if unreachable_origin && unreachable_dest then "fail_unreachable_locations"
  else if unreachable_origin then "fail_unreachable_origin"
  else if unreachable_dest then "fail_unreachable_dest"
  else "fail_no_route".

(** What [main] does with the trip path it holds after the [try] block of
    a leg. *)
Definition record_leg (directions_options : DirectionsOptions)
  (origin dest : PathLocation) (trip_path : TripPath) : M unit :=
  if negb (empty (node trip_path)) then
    DirectionsTest directions_options trip_path ;;;
    on_data (setSuccess "success")
  else
    unreachable_origin <- scan (edges origin) ;;
    unreachable_dest <- scan (edges dest) ;;
    on_data (setSuccess (classify_failure unreachable_origin unreachable_dest)).

(** [trip_path = PathTest(...)] *)
Definition assign_trip_path (found : TripPath) : M unit :=
  fun s => (Value tt, set_trip_path found s).

(** The body of the loop over the legs, for leg [i]: the handler of the
    [try] block only logs, and the trip path judged after it is the
    variable of [main], which a call of [PathTest] that threw has not
    assigned. *)
Definition leg (routetype : string) (directions_options : DirectionsOptions)
  (multi_run : bool) (iterations : N) (mode : TravelMode)
  (path_location : list PathLocation) (i : nat) : M unit :=
  match nth_error path_location i, nth_error path_location (S i) with
  | Some origin, Some dest =>
      let pathalgorithm := choose_pathalgorithm routetype origin dest in
      let using_astar := PathAlgorithm_eqb pathalgorithm astar in
      try_catch
        (found <- try_PathTest origin dest pathalgorithm mode multi_run iterations
                    using_astar ;;
         assign_trip_path found)
        (ret tt) ;;;
      fun s => record_leg directions_options origin dest (trip_path s) s
  | _, _ => undefined
  end.

Fixpoint for_each {A : Type} (l : list A) (body : A -> M unit) : M unit :=
  match l with
  | [] => ret tt
  | x :: rest => body x ;;; for_each rest body
  end.

(** [for (uint32_t i = 0; i < n; i++)] over the legs. *)
Definition route_legs (routetype : string) (directions_options : DirectionsOptions)
  (multi_run : bool) (iterations : N) (mode : TravelMode)
  (path_location : list PathLocation) (n : N) : M unit :=
  for_each (seq 0 (N.to_nat n))
    (leg routetype directions_options multi_run iterations mode path_location).

(** *** Connectivity *)

(** One round of the loop over the colors: a color not yet in the map is
    entered with count 1, the count of a known one is incremented. *)
Fixpoint count_color (color_counts : list (N * N)) (color : N) : list (N * N) :=
  match color_counts with
  | [] => [(color, 1%N)]
  | (c, k) :: rest =>
      if N.eqb c color then (c, (k + 1)%N) :: rest
      else (c, k) :: count_color rest color
  end.

(** The check of [main]: the colors are those of the last location only;
    the map starts empty. *)
Definition connected (path_location : list PathLocation) (nlocations : nat)
  (w : world) : option bool :=
  match rev path_location with
  | [] => None
  | back :: _ =>
      let colors := get_colors back w in
      let color_counts := fold_left count_color colors [] in
      Some (existsb (fun c => N.eqb (snd c) (N.of_nat nlocations)) color_counts)
  end.

(** *** From the parsed command line to the exit *)

Inductive Exit : Type :=
| EXIT_SUCCESS
| EXIT_FAILURE
| Terminated
| NoDefinedBehaviour.

Definition tolower (c : ascii) : ascii :=
  let n := N_of_ascii c in
  if (65 <=? n)%N && (n <=? 90)%N then ascii_of_N (n + 32) else c.

Fixpoint lowercase (s : string) : string :=
  match s with
  | EmptyString => EmptyString
  | String c rest => String (tolower c) (lowercase rest)
  end.

(** [kKmPerMeter = 0.001f] and [kMilePerKm = 0.621371f] *)
Definition kKmPerMeter : float := float_literal 1 1000.
Definition kMilePerKm : float := float_literal 621371 1000000.

(** The loop summing the crow flies distance of the legs. *)
Definition crow_flies (locations : list Location) (first : Location) (n : N) : float :=
  fold_left
    (fun d1 i =>
       (d1 + Distance (latlng_ (nth i locations first))
                      (latlng_ (nth (S i) locations first)) * kKmPerMeter)%f32)
    (seq 0 (N.to_nat n)) (float_of_Z 0).

(** One call of [get_costing] from [main]: an exception, from the call or
    from the factory, is not caught.  The pointer returned may be null. *)
Definition costing_of (pt json_ptree : ptree) (costing : string)
  : Exit + (option cost_t * ptree) :=
  match get_costing Create pt json_ptree costing with
  | (NoCostingMethod _, _) => inl Terminated
  | (PathAssertion, _) => inl NoDefinedBehaviour
  | (Created (inl _), _) => inl Terminated
  | (Created (inr cost), pt') => inr (cost, pt')
  end.

(** "Get the costing method": the travel mode and the [mode_costing]
    array.  For one costing the mode is asked of the object the factory
    returned, without a check of the pointer. *)
Definition construct_costing (routetype : string) (pt json_ptree : ptree)
  : Exit + (TravelMode * (TravelMode -> option cost_t)) :=
  if String.eqb routetype "multimodal" then
    match costing_of pt json_ptree "auto" with
    | inl x => inl x
    | inr (c0, pt0) =>
    match costing_of pt0 json_ptree "pedestrian" with
    | inl x => inl x
    | inr (c1, pt1) =>
    match costing_of pt1 json_ptree "bicycle" with
    | inl x => inl x
    | inr (c2, pt2) =>
    match costing_of pt2 json_ptree "transit" with
    | inl x => inl x
    | inr (c3, _) =>
        inr (kPedestrian,
             fun m => match m with
                      | kDrive => c0
                      | kPedestrian => c1
                      | kBicycle => c2
                      | kPublicTransit => c3
                      end)
    end end end end
  else
    match costing_of pt json_ptree routetype with
    | inl x => inl x
    | inr (None, _) => inl NoDefinedBehaviour
    | inr (Some cost, _) =>
        let mode := travelmode cost in
        inr (mode, fun m => if TravelMode_eqb m mode then Some cost else None)
    end.

(** "Find locations": [None] when a search threw. *)
Fixpoint find_locations (locations : list Location) (cost : cost_t) (w : world)
  (path_location : list PathLocation) : option (list PathLocation) * world :=
  match locations with
  | [] => (Some path_location, w)
  | loc :: rest =>
      match loki_Search loc cost w with
      | (Some found, w') => find_locations rest cost w' (path_location ++ [found])
      | (None, w') => (None, w')
      end
  end.

(** [data.log()] *)
Definition log : M unit :=
  fun s => write (LogStatistics statistics_format (log_args (data s))) s.

Definition pair_of (p : PointLL) : float * float := (lat p, lng p).

(** What [main] has set up when it starts to look for the locations. *)
Record Setup : Type := {
  n_legs : N;
  data0 : PathStatistics;
  d1_km : float;
  t0 : Z;
  routetype_lower : string;
  mode0 : TravelMode;
  mode_costing0 : TravelMode -> option cost_t;
  cost0 : cost_t;
  reader0 : world
}.

(** [main] from "Something to hold the statistics" to "Find locations",
    for the locations, route type and configuration the first half
    parsed (at least two locations, or the first half has ended the
    process).  An exception that nothing catches ends it here too. *)
Definition setup (locations : list Location) (routetype : string)
  (pt json_ptree : ptree) : Exit + Setup :=
  match locations with
  | [] | [_] => inl Terminated
  | first :: _ :: _ =>
      let n := to_uint32 (Z.of_nat (List.length locations) - 1) in
      let data := PathStatistics_new (pair_of (latlng_ first))
                    (pair_of (latlng_ (nth (N.to_nat n) locations first))) in
      let d1 := crow_flies locations first n in
      match get_child_optional pt "mjolnir" with
      | None => inl Terminated
      | Some mjolnir =>
          let reader := GraphReader mjolnir in
          let t0 := now reader in
          let routetype := lowercase routetype in
          match construct_costing routetype pt json_ptree with
          | inl x => inl x
          | inr (mode, mode_costing) =>
              match mode_costing mode with
              | None => inl NoDefinedBehaviour
              | Some cost =>
                  inr {| n_legs := n; data0 := data; d1_km := d1; t0 := t0;
                         routetype_lower := routetype; mode0 := mode;
                         mode_costing0 := mode_costing; cost0 := cost;
                         reader0 := reader |}
              end
          end
      end
  end.

(** The state in which [main] starts to look for the locations; the trip
    path is the default-constructed one. *)
Definition initial (su : Setup) (w : world) : State :=
  {| reader := w; mode_costing := mode_costing0 su; data := data0 su;
     trip_path := TripPath_default; events := [] |}.

(** An early exit of [main]: the outcome is set and the statistics are
    written. *)
Definition fail_with (outcome : string) : M unit :=
  on_data (setSuccess outcome) ;;; log.

(** "Get the route" to the last [data.log()]. *)
Definition route_and_report (su : Setup) (directions_options : DirectionsOptions)
  (multi_run : bool) (iterations : N) (path_location : list PathLocation) : M unit :=
  route_legs (routetype_lower su) directions_options multi_run iterations (mode0 su)
    path_location (n_legs su) ;;;
  (let d1 := match units directions_options with
             | kMiles => (d1_km su * kMilePerKm)%f32
             | kKilometers => d1_km su
             end in
   on_data (setArcDist d1)) ;;;
  t2 <- clock ;;
  on_data (addRuntime (to_uint32 (t2 - t0 su))) ;;;
  log.

(** [main] from the loop over the legs on: an exception that leaves the
    loop is caught by nothing. *)
Definition finish (su : Setup) (directions_options : DirectionsOptions)
  (multi_run : bool) (iterations : N) (path_location : list PathLocation) (w : world)
  : Exit * list Event :=
  match route_and_report su directions_options multi_run iterations path_location
          (initial su w) with
  | (Value _, s') => (EXIT_SUCCESS, events s')
  | (Undefined, s') => (NoDefinedBehaviour, events s')
  | (Thrown _, s') => (Terminated, events s')
  end.

(** [main] after the command line and the request are parsed; the result
    is the exit and what was called and written. *)
Definition main (locations : list Location) (routetype : string)
  (connectivity multi_run : bool) (iterations : N)
  (directions_options : DirectionsOptions) (pt json_ptree : ptree)
  : Exit * list Event :=
  match setup locations routetype pt json_ptree with
  | inl x => (x, [])
  | inr su =>
      match find_locations locations (cost0 su) (reader0 su) [] with
      | (None, w) =>
          (EXIT_FAILURE, events (snd (fail_with "fail_invalid_origin" (initial su w))))
      | (Some path_location, w) =>
          let disconnected :=
            if connectivity then
              match connected path_location (List.length locations) w with
              | Some c => Some (negb c)
              | None => None
              end
            else Some false in
          match disconnected with
          | None => (NoDefinedBehaviour, [])
          | Some true =>
              (EXIT_FAILURE,
               events (snd (fail_with "fail_no_connectivity" (initial su w))))
          | Some false =>
              finish su directions_options multi_run iterations path_location w
          end
      end
  end.

End Tool.

(** ** Scenarios

    A small scripted instance of the libraries, to run the tool on. *)

Module Scenario.

Record scripted_cost : Type := {
  allow_multi_pass : bool;
  cost_mode : TravelMode;
  relaxed : list (bool * float);
  highway_transitions : bool
}.

#[export] Instance scripted_costing : DynamicCost := {
  cost_t := scripted_cost;
  travelmode := cost_mode;
  AllowMultiPass := allow_multi_pass;
  RelaxHierarchyLimits := fun a b c =>
    {| allow_multi_pass := allow_multi_pass c; cost_mode := cost_mode c;
       relaxed := (a, b) :: relaxed c; highway_transitions := highway_transitions c |};
  DisableHighwayTransitions := fun c =>
    {| allow_multi_pass := allow_multi_pass c; cost_mode := cost_mode c;
       relaxed := relaxed c; highway_transitions := false |}
}.

(** The script: what the successive calls of [GetBestPath] return, the
    times at which a call of it throws a [std::runtime_error] instead,
    the edges that are flagged unreachable, the edges whose tile the
    reader does not have, and per location name its candidate edges and
    its colors. *)
Record Script : Type := {
  answers : list (list PathInfo);
  throwing : list Z;
  flagged : list GraphId;
  missing : list GraphId;
  candidates : list (string * list GraphId);
  colors : list (string * list N)
}.

Record scripted_world : Type := {
  time : Z;
  pending : list (list PathInfo)
}.

Fixpoint lookup {A : Type} (key : string) (table : list (string * A)) : option A :=
  match table with
  | [] => None
  | (k, a) :: rest => if String.eqb k key then Some a else lookup key rest
  end.

(** The factory: the costing called "broken" is registered and made as a
    null pointer. *)
Definition scripted_factory (name : string) (options : ptree)
  : exception + option scripted_cost :=
  let make allow mode :=
    inr (Some {| allow_multi_pass := allow; cost_mode := mode; relaxed := [];
                 highway_transitions := true |}) in
  if String.eqb name "auto" then make true kDrive
  else if String.eqb name "bicycle" then make false kBicycle
  else if String.eqb name "pedestrian" then make false kPedestrian
  else if String.eqb name "transit" then make false kPublicTransit
  else if String.eqb name "broken" then inr None
  else inl (runtime_error "No costing method found").

#[export] Instance scripted (sc : Script) : Externals := {
  world := scripted_world;
  GraphReader := fun _ => {| time := 0; pending := answers sc |};
  now := time;
  GetBestPath := fun _ _ _ _ _ w =>
    (hd [] (pending w), {| time := time w + 10; pending := tl (pending w) |});
  GetBestPath_throws := fun _ _ _ _ _ w =>
    if existsb (Z.eqb (time w)) (throwing sc)
    then Some (runtime_error "No path could be found for input",
               {| time := time w + 10; pending := tl (pending w) |})
    else None;
  Clear := fun _ w => {| time := time w + 1; pending := pending w |};
  Clear_throws := fun _ _ => None;
  Build := fun pathedges _ _ w =>
    ({| node := map (fun p => {| node_edge := edgeid p |}) pathedges |}, w);
  Build_throws := fun _ _ _ _ => None;
  DirectionsBuild := fun _ trip_path =>
    {| summary_time := 100 * N.of_nat (List.length (node trip_path));
       summary_length := float_of_Z (Z.of_nat (List.length (node trip_path)));
       maneuver := map (fun _ => {| text_instruction := "Go";
                                    maneuver_length := float_of_Z 1 |}) (node trip_path) |};
  loki_Search := fun loc _ w =>
    match lookup (name_ loc) (candidates sc) with
    | Some ids =>
        (Some {| location := loc;
                 edges := map (fun i => {| id := i; dist := float_of_Z 0 |}) ids |},
         w)
    | None => (None, w)
    end;
  get_colors := fun pl _ =>
    match lookup (name_ (location pl)) (colors sc) with
    | Some cs => cs
    | None => []
    end;
  GraphTile := list GraphId;
  DirectedEdge := bool;
  GetGraphTile := fun i => if existsb (N.eqb i) (missing sc) then None
                           else Some (flagged sc);
  directededge := fun tile i => existsb (N.eqb i) tile;
  unreachable := fun directededge => directededge;
  Distance := fun _ _ => float_of_Z 5000;
  Create := scripted_factory
}.

Definition place (name : string) : Location :=
  {| latlng_ := {| lat := float_of_Z 0; lng := float_of_Z 0 |}; name_ := name |}.

Definition hop (e : N) : PathInfo := {| elapsed_time := 60; edgeid := e |}.

(** A configuration with costing options for auto, bicycle and
    pedestrian, and the tile storage. *)
Definition config : ptree :=
  Node "" [ ("mjolnir", Node "" [("tile_dir", Node "/data" [])]);
            ("costing_options",
             Node "" [ ("auto", Node "" [("maneuver_penalty", Node "5" [])]);
                       ("bicycle", Node "" []);
                       ("pedestrian", Node "" []) ]) ].

Definition no_request : ptree := empty_ptree.

Definition miles : DirectionsOptions := {| units := kMiles; language := "en-US" |}.

(** No search finds a path; A and B are both on edge 1 and both in the
    connected region 7. *)
Definition dead_end : Script :=
  {| answers := [];
     throwing := [];
     flagged := [];
     missing := [];
     candidates := [("A", [1%N]); ("B", [1%N])];
     colors := [("A", [7%N]); ("B", [7%N])] |}.

(** The first search finds a path of two edges, every later one finds
    none; A, B and C are on different edges. *)
Definition one_trip : Script :=
  {| answers := [[hop 1; hop 2]];
     throwing := [];
     flagged := [];
     missing := [];
     candidates := [("A", [1%N]); ("B", [2%N]); ("C", [3%N])];
     colors := [] |}.

(** Every search finds the same path of two edges. *)
Definition always_found : Script :=
  {| answers := repeat [hop 1; hop 2] 8;
     throwing := [];
     flagged := [];
     missing := [];
     candidates := [("A", [1%N]); ("B", [2%N])];
     colors := [] |}.

(** Every search finds the same path of two edges, but the search called
    at time 11 throws: the second search of a run whose first search
    found its path. *)
Definition second_search_throws : Script :=
  {| answers := repeat [hop 1; hop 2] 8;
     throwing := [11%Z];
     flagged := [];
     missing := [];
     candidates := [("A", [1%N]); ("B", [2%N]); ("C", [3%N])];
     colors := [] |}.


Definition found (name : string) (ids : list N) : PathLocation :=
  {| location := place name;
     edges := map (fun i => {| id := i; dist := float_of_Z 0 |}) ids |}.

Definition bicycle_cost : scripted_cost :=
  {| allow_multi_pass := false; cost_mode := kBicycle; relaxed := [];
     highway_transitions := true |}.

Definition auto_cost : scripted_cost :=
  {| allow_multi_pass := true; cost_mode := kDrive; relaxed := [];
     highway_transitions := true |}.

(** The state in which [main] enters the loop over the legs. *)
Definition start (sc : Script) (cost : scripted_cost)
  : @State scripted_costing (scripted sc) :=
  @Build_State scripted_costing (scripted sc)
    {| time := 0; pending := answers sc |}
    (fun m => if TravelMode_eqb m (cost_mode cost) then Some cost else None)
    (PathStatistics_new (float_of_Z 0, float_of_Z 0) (float_of_Z 0, float_of_Z 0))
    TripPath_default
    [].

End Scenario.

(** ** Notions the statements use *)

(** The candidate edge sets of two locations share an edge identifier. *)
Definition share_an_edge (origin dest : PathLocation) : Prop :=
  exists edge1 edge2,
    In edge1 (edges origin) /\ In edge2 (edges dest) /\ id edge1 = id edge2.

Definition share_an_edgeb (origin dest : PathLocation) : bool :=
  existsb (fun edge1 => existsb (fun edge2 => N.eqb (id edge1) (id edge2)) (edges dest))
          (edges origin).

Fixpoint has_separator (s : string) : bool :=
  match s with
  | EmptyString => false
  | String c rest => Ascii.eqb c separator || has_separator rest
  end.

(** A field name that [put_child] takes as one key: not empty and
    without the path separator. *)
Definition simple_name (k : string) : bool :=
  negb (String.eqb k "") && negb (has_separator k).

(** A field name that [put_child] ends on with nothing left of the path:
    the name is empty or ends in the path separator, so that its last
    fragment is empty. *)
Definition open_name (k : string) : bool :=
  String.eqb (last (fragments k) "") "".

(** The value the last field named [k] carries. *)
Definition find_last (k : string) (cs : list (string * ptree)) : option ptree :=
  find k (rev cs).

Definition named_in (cs : list (string * ptree)) (k : string) : bool :=
  existsb (String.eqb k) (map fst cs).

(** The fields whose name no field of [cs] has. *)
Definition unmatched_by (cs : list (string * ptree)) (fields : list (string * ptree))
  : list (string * ptree) :=
  filter (fun kc => negb (named_in cs (fst kc))) fields.

(** Replace the first field named [k], or add the field at the end. *)
Definition upsert (k : string) (v : ptree) (cs : list (string * ptree))
  : list (string * ptree) :=
  match find k cs with
  | Some _ => replace_first k v cs
  | None => cs ++ [(k, v)]
  end.

(** The calls of [GetBestPath] among the events. *)
Definition is_search (ev : Event) : bool :=
  match ev with CallGetBestPath _ => true | _ => false end.

Definition searches (evs : list Event) : nat := List.length (filter is_search evs).

(** Every call of [GetBestPath] but the first comes after a [Clear] of the
    same path algorithm, with no call of a path algorithm in between.
    [first_done] tells whether a search was seen, [cleared] which
    algorithm was cleared since the last call of one. *)
Fixpoint retries_cleared (first_done : bool) (cleared : option PathAlgorithm)
  (evs : list Event) : bool :=
  match evs with
  | [] => true
  | CallGetBestPath alg :: rest =>
      (negb first_done
       || match cleared with
          | Some alg' => PathAlgorithm_eqb alg alg'
          | None => false
          end)
      && retries_cleared true None rest
  | CallClear alg :: rest => retries_cleared first_done (Some alg) rest
  | _ :: rest => retries_cleared first_done cleared rest
  end.

(** The events of [n] rounds of the multi-run loop. *)
Fixpoint rounds (pathalgorithm : PathAlgorithm) (n : nat) : list Event :=
  match n with
  | O => []
  | S n' => CallGetBestPath pathalgorithm :: CallClear pathalgorithm
            :: rounds pathalgorithm n'
  end.

Definition is_statistics (ev : Event) : bool :=
  match ev with LogStatistics _ _ => true | _ => false end.

(** The statistics lines among the events. *)
Definition statistics_lines (evs : list Event) : list Event := filter is_statistics evs.

(** The statistics with another pass count. *)
Definition set_passes (p : N) (d : PathStatistics) : PathStatistics :=
  {| origin := origin d; destination := destination d; success := success d;
     passes := p; runtime := runtime d; trip_time := trip_time d;
     trip_dist := trip_dist d; arc_dist := arc_dist d; manuevers := manuevers d |}.

Section Outcomes.
Context {DC : DynamicCost} {E : Externals}.

(** [wp m Q s]: running [m] from [s] ends in a result and a state that
    satisfy [Q]. *)
Definition wp {A : Type} (m : M A) (Q : Result A -> State -> Prop) (s : State) : Prop :=
  Q (fst (m s)) (snd (m s)).

(** What the search attempts of a leg leave behind: between one and three
    searches, each counted as a pass, every retry cleared for; nothing
    but the pass count changes in the statistics and nothing is written
    to them. *)
Definition attempts_post (mode : TravelMode) (s : State)
  (r : Result (list PathInfo)) (s' : State) : Prop :=
  exists (k : nat) (new : list Event),
    (1 <= k <= 3)%nat /\
    events s' = events s ++ new /\
    searches new = k /\
    (forall rest, retries_cleared false None (new ++ rest)
                  = retries_cleared true None rest) /\
    statistics_lines new = [] /\
    data s' = set_passes (wrap32 (passes (data s) + N.of_nat k)) (data s) /\
    (mode_costing s mode <> None -> r <> Undefined /\ mode_costing s' mode <> None) /\
    (forall e, r <> Thrown e) /\
    trip_path s' = trip_path s.

(** What the rest of [PathTest] leaves behind once a path is found: the
    trip path is built and the algorithm cleared; a multi-run adds its
    rounds and the average, and nothing else.  With no iterations the
    average has no defined value. *)
Definition formed_post (pathalgorithm : PathAlgorithm) (origin dest : PathLocation)
  (multi_run : bool) (iterations : N) (pathedges : list PathInfo) (s : State)
  (r : Result TripPath) (s' : State) : Prop :=
  data s' = data s /\
  mode_costing s' = mode_costing s /\
  trip_path s' = trip_path s /\
  exists extra,
    events s' = events s ++ CallBuild :: CallClear pathalgorithm :: extra /\
    if multi_run then
      if N.eqb iterations 0 then extra = [] /\ r = Undefined
      else exists msecs,
          extra = rounds pathalgorithm (N.to_nat iterations) ++ [LogAverage msecs] /\
          r = Value (fst (Build pathedges origin dest (reader s)))
    else extra = [] /\ r = Value (fst (Build pathedges origin dest (reader s))).

(** What a call of [PathTest] leaves behind. *)
Definition PathTest_post (pathalgorithm : PathAlgorithm) (mode : TravelMode)
  (multi_run : bool) (iterations : N) (s : State) (r : Result TripPath) (s' : State)
  : Prop :=
  exists (k : nat) (tried extra : list Event),
    (1 <= k <= 3)%nat /\
    events s' = events s ++ tried ++ extra /\
    searches tried = k /\
    (forall rest, retries_cleared false None (tried ++ rest)
                  = retries_cleared true None rest) /\
    statistics_lines tried = [] /\
    data s' = set_passes (wrap32 (passes (data s) + N.of_nat k)) (data s) /\
    (extra = [] \/
     exists more,
       extra = CallBuild :: CallClear pathalgorithm :: more /\
       (more = [] \/
        multi_run = true /\
        exists msecs,
          more = rounds pathalgorithm (N.to_nat iterations) ++ [LogAverage msecs])) /\
    (mode_costing s mode <> None -> (multi_run = true -> iterations <> 0%N) ->
     r <> Undefined /\ mode_costing s' mode <> None) /\
    (forall e, r <> Thrown e) /\
    trip_path s' = trip_path s.

(** The statistics a leg leaves alone. *)
Definition same_request (d d' : PathStatistics) : Prop :=
  origin d' = origin d /\ destination d' = destination d /\
  runtime d' = runtime d /\ arc_dist d' = arc_dist d.

(** The statistics taken from the directions. *)
Definition same_trip (d d' : PathStatistics) : Prop :=
  trip_time d' = trip_time d /\ trip_dist d' = trip_dist d /\
  manuevers d' = manuevers d.

(** The connectivity rule with the colors of every location counted: the
    request is connected when some color was counted once per location. *)
Definition connected_by_membership (path_location : list PathLocation)
  (nlocations : nat) (w : world) : bool :=
  let color_counts :=
    fold_left (fun counts pl => fold_left count_color (get_colors pl w) counts)
              path_location [] in
  existsb (fun c => N.eqb (snd c) (N.of_nat nlocations)) color_counts.

End Outcomes.

(** ** The narrative of a trip *)

(** [std::to_string] of an unsigned number: its decimal digits. *)
Definition to_string (n : N) : string :=
  DecimalString.NilEmpty.string_of_uint (N.to_uint n).

(** [GetFormattedTime] *)
Definition GetFormattedTime (seconds : N) : string :=
  let hours := (seconds / 3600)%N in
  let minutes := ((seconds / 60) mod 60)%N in
  let formattedTime := "" in
  let formattedTime :=
    if (0 <? hours)%N then
      let formattedTime := (formattedTime ++ to_string hours)%string in
      let formattedTime :=
        (formattedTime ++ (if (hours =? 1)%N then " hour" else " hours"))%string in
      if (0 <? minutes)%N then (formattedTime ++ ", ")%string else formattedTime
    else formattedTime in
  if (0 <? minutes)%N then
    ((formattedTime ++ to_string minutes)
       ++ (if (minutes =? 1)%N then " minute" else " minutes"))%string
  else formattedTime.

(** [s.erase(s.end() - 1)] on a string that is not empty. *)
Fixpoint erase_last (s : string) : string :=
  match s with
  | EmptyString => EmptyString
  | String c EmptyString => EmptyString
  | String c rest => String c (erase_last rest)
  end.

(** The loop of [std::to_string] of a location over its address fields:
    each is appended and followed by a comma; the last comma is erased. *)
Definition join_address (fields : list string) : string :=
  erase_last (fold_left (fun s address => ((s ++ address) ++ ",")%string) fields "").

(** A line logged under NARRATIVE: a text, or a format and what is fed to
    it. *)
Inductive Line : Type :=
| Text (s : string)
| Format (fmt : string) (args : list FormatArg).

Definition rule : Line := Text "==============================================".
Definition separator_line : Line :=
  Text "----------------------------------------------".
Definition instruction_format : string := "%d: %s | %.1f %s".

Section Narrative.
(** The address fields of a location besides the name, and the optional
    instructions of a maneuver ([None] where [has_...] is false). *)
Variables street_ city_ state_ zip_ country_ : Location -> string.
Variables depart_instruction verbal_depart_instruction
          verbal_transition_alert_instruction verbal_pre_transition_instruction
          verbal_post_transition_instruction arrive_instruction
          verbal_arrive_instruction : Maneuver -> option string.

(** [std::to_string(const Location&)] *)
Definition Location_to_string (l : Location) : string :=
  join_address [name_ l; street_ l; city_ l; state_ l; zip_ l; country_ l].

Definition optional_line (fmt : string) (instruction : option string) : list Line :=
  match instruction with
  | Some text => [Format fmt [ArgString text]]
  | None => []
  end.

(** The loop over the maneuvers in [DirectionsTest]: [i] is the index of
    the first of [maneuvers], [m] the counter of the instructions and
    [size] is [maneuver_size()]. *)
Fixpoint narrate (units_text : string) (size : Z) (i : Z) (m : N)
  (maneuvers : list Maneuver) : list Line :=
  match maneuvers with
  | [] => []
  | maneuver :: rest =>
      optional_line "   %s" (depart_instruction maneuver)
      ++ optional_line "   VERBAL_DEPART: %s" (verbal_depart_instruction maneuver)
      ++ [Format instruction_format
            [ArgUInt m; ArgString (text_instruction maneuver);
             ArgFloat (maneuver_length maneuver); ArgString units_text]]
      ++ optional_line "   VERBAL_ALERT: %s"
           (verbal_transition_alert_instruction maneuver)
      ++ optional_line "   VERBAL_PRE: %s" (verbal_pre_transition_instruction maneuver)
      ++ optional_line "   VERBAL_POST: %s"
           (verbal_post_transition_instruction maneuver)
      ++ optional_line "   %s" (arrive_instruction maneuver)
      ++ optional_line "   VERBAL_ARRIVE: %s" (verbal_arrive_instruction maneuver)
      ++ (if (i <? size - 1)%Z then [separator_line] else [])
      ++ narrate units_text size (i + 1)%Z (m + 1)%N rest
  end.

(** What [DirectionsTest] logs for the directions of a trip. *)
Definition narrative (directions_options : DirectionsOptions)
  (trip_directions : TripDirections) (origin destination : Location) : list Line :=
  let units_text := match units directions_options with
                    | kKilometers => "km"
                    | kMiles => "mi"
                    end in
  [Text ("From: " ++ Location_to_string origin);
   Text ("To: " ++ Location_to_string destination);
   rule]
  ++ narrate units_text (Z.of_nat (List.length (maneuver trip_directions))) 0%Z 1%N
       (maneuver trip_directions)
  ++ [rule;
      Text ("Total time: " ++ GetFormattedTime (summary_time trip_directions));
      Format "Total length: %.1f %s"
        [ArgFloat (summary_length trip_directions); ArgString units_text]].

End Narrative.

(** The numbers of the instruction lines, in order. *)
Fixpoint instruction_numbers (lines : list Line) : list N :=
  match lines with
  | [] => []
  | Format fmt (ArgUInt m :: _) :: rest =>
      if String.eqb fmt instruction_format then m :: instruction_numbers rest
      else instruction_numbers rest
  | _ :: rest => instruction_numbers rest
  end.

Definition is_separator (line : Line) : bool :=
  match line with
  | Text s => String.eqb s "----------------------------------------------"
  | Format _ _ => false
  end.

(** Reading a formatted time back. *)
Definition is_digit (c : ascii) : bool :=
  ((48 <=? N_of_ascii c) && (N_of_ascii c <=? 57))%N.

Fixpoint span_digits (s : string) : string * string :=
  match s with
  | EmptyString => (EmptyString, EmptyString)
  | String c rest =>
      if is_digit c then
        let (digits, tail) := span_digits rest in (String c digits, tail)
      else (EmptyString, s)
  end.

Definition number_of (digits : string) : N :=
  match DecimalString.NilEmpty.uint_of_string digits with
  | Some d => N.of_uint d
  | None => 0%N
  end.

Fixpoint drop (n : nat) (s : string) : string :=
  match n, s with
  | O, _ => s
  | S n', String _ rest => drop n' rest
  | S _, EmptyString => EmptyString
  end.

Fixpoint starts_with (p s : string) : bool :=
  match p, s with
  | EmptyString, _ => true
  | String a p', String b s' => Ascii.eqb a b && starts_with p' s'
  | String _ _, EmptyString => false
  end.

(** Hours and minutes of a text that [GetFormattedTime] wrote. *)
Definition read_time (text : string) : N * N :=
  let (digits, tail) := span_digits text in
  if starts_with " h" tail then
    let tail := drop 5 tail in
    let tail := if starts_with "s" tail then drop 1 tail else tail in
    if starts_with ", " tail then
      (number_of digits, number_of (fst (span_digits (drop 2 tail))))
    else (number_of digits, 0%N)
  else (0%N, number_of digits).

Fixpoint has_char (c : ascii) (s : string) : bool :=
  match s with
  | EmptyString => false
  | String c' rest => Ascii.eqb c' c || has_char c rest
  end.

(** ** The command line and the request *)

(** What [bpo::store] and [bpo::notify] leave in the variables map: for
    a flag whether it was given, for an option the value it was given. *)
Record variables_map : Type := {
  help_flag : bool;
  version_flag : bool;
  connectivity_flag : bool;
  multi_run_option : option N;
  origin_option : option string;
  destination_option : option string;
  type_option : option string;
  json_option : option string;
  config_option : option string
}.

Definition times {A : Type} (o : option A) : nat :=
  match o with Some _ => 1 | None => 0 end.

(** [vm.count(name)] *)
Definition count (vm : variables_map) (name : string) : nat :=
  if String.eqb name "help" then (if help_flag vm then 1 else 0)%nat
  else if String.eqb name "version" then (if version_flag vm then 1 else 0)%nat
  else if String.eqb name "connectivity" then (if connectivity_flag vm then 1 else 0)%nat
  else if String.eqb name "multi-run" then times (multi_run_option vm)
  else if String.eqb name "origin" then times (origin_option vm)
  else if String.eqb name "destination" then times (destination_option vm)
  else if String.eqb name "type" then times (type_option vm)
  else if String.eqb name "json" then times (json_option vm)
  else if String.eqb name "config" then times (config_option vm)
  else 0%nat.

(** The string an option is bound to: its value, or the empty string it
    was constructed with. *)
Definition bound (o : option string) : string :=
  match o with Some v => v | None => "" end.

(** What the front of [main] writes to the standard streams. *)
Inductive Said : Type :=
| Unparsed
| Usage
| Version
| NotProvided (arg : string).

(** What the front of [main] hands to the rest. *)
Record Request : Type := {
  request_locations : list Location;
  request_routetype : string;
  request_connectivity : bool;
  request_multi_run : bool;
  request_iterations : N;
  request_directions_options : DirectionsOptions;
  request_json_ptree : ptree;
  request_config : string
}.

Inductive Parsed : Type :=
| Exits (status : Exit) (said : list Said)
| Proceeds (request : Request).

(** The loop over the mandatory arguments: the first that was not given. *)
Fixpoint first_missing (vm : variables_map) (args : list string) : option string :=
  match args with
  | [] => None
  | arg :: rest =>
      if Nat.eqb (count vm arg) 0 then Some arg else first_missing vm rest
  end.

Definition update_front {A : Type} (f : A -> A) (l : list A) : list A :=
  match l with
  | [] => []
  | x :: rest => f x :: rest
  end.

Definition update_back {A : Type} (f : A -> A) (l : list A) : list A :=
  rev (update_front f (rev l)).

Section CommandLine.
(** The library calls of the front: [None] where the call throws.
    [set_date_time] assigns the [date_time_] of a location, and
    [indeterminate] is the value the variable [iterations], which is
    not initialized, holds when the option multi-run is not given. *)
Variable FromCsv : string -> option Location.
Variable FromPtree : ptree -> option Location.
Variable read_json : string -> option ptree.
Variable GetDirectionsOptions : ptree -> DirectionsOptions.
Variable get_int : string -> option Z.
Variable set_date_time : option string -> Location -> Location.
Variable indeterminate : N.

(** The loop over the children of [locations] in the request. *)
Fixpoint from_ptrees (children : list (string * ptree)) : option (list Location) :=
  match children with
  | [] => Some []
  | (_, location) :: rest =>
      match FromPtree location, from_ptrees rest with
      | Some l, Some ls => Some (l :: ls)
      | _, _ => None
      end
  end.

(** "Grab the date_time, if is exists" *)
Definition with_date_time (json_ptree : ptree) (locations : list Location)
  : option (list Location) :=
  match get_child_optional json_ptree "date_time" with
  | None => Some locations
  | Some date_time =>
      match get_child_optional date_time "type" with
      | None => None
      | Some type =>
          match get_int (Ptree.data type) with
          | None => None
          | Some date_time_type =>
              let date_time_value :=
                match get_child_optional date_time "value" with
                | Some value => Some (Ptree.data value)
                | None => None
                end in
              Some (if Z.eqb date_time_type 0
                    then update_front (set_date_time (Some "current")) locations
                    else if Z.eqb date_time_type 1
                    then update_front (set_date_time date_time_value) locations
                    else if Z.eqb date_time_type 2
                    then update_back (set_date_time date_time_value) locations
                    else locations)
          end
      end
  end.

(** "Process json input": an exception that is thrown here, rethrown or
    not, is not caught, and the bare [throw] ends the process as well. *)
Definition process_json (json : string) (directions_options : DirectionsOptions)
  : option (list Location * string * DirectionsOptions * ptree) :=
  match read_json json with
  | None => None
  | Some json_ptree =>
      match get_child_optional json_ptree "locations" with
      | None => None
      | Some given =>
          match from_ptrees (children given) with
          | None => None
          | Some locations =>
              if (List.length locations <? 2)%nat then None
              else
                match get_child_optional json_ptree "costing" with
                | None => None
                | Some costing =>
                    let routetype := Ptree.data costing in
                    let directions_options :=
                      match get_child_optional json_ptree "directions_options" with
                      | Some options => GetDirectionsOptions options
                      | None => directions_options
                      end in
                    match with_date_time json_ptree locations with
                    | None => None
                    | Some locations =>
                        Some (locations, routetype, directions_options, json_ptree)
                    end
                end
          end
      end
  end.

(** [main] up to "parse the config"; the argument is what the parser of
    the command line stored, [None] when it threw. *)
Definition command_line (parsed : option variables_map) : Parsed :=
  match parsed with
  | None => Exits EXIT_FAILURE [Unparsed]
  | Some vm =>
      if negb (Nat.eqb (count vm "help") 0) then Exits EXIT_SUCCESS [Usage]
      else if negb (Nat.eqb (count vm "version") 0) then Exits EXIT_SUCCESS [Version]
      else
        let connectivity := negb (Nat.eqb (count vm "connectivity") 0) in
        let multi_run := negb (Nat.eqb (count vm "multi-run") 0) in
        let iterations := match multi_run_option vm with
                          | Some n => n
                          | None => indeterminate
                          end in
        let directions_options := {| units := kMiles; language := "en-US" |} in
        if Nat.eqb (count vm "json") 0 then
          match first_missing vm ["origin"; "destination"; "type"; "config"] with
          | Some arg => Exits EXIT_FAILURE [NotProvided arg; Usage]
          | None =>
              match FromCsv (bound (origin_option vm)),
                    FromCsv (bound (destination_option vm)) with
              | Some origin, Some destination =>
                  Proceeds {| request_locations := [origin; destination];
                              request_routetype := bound (type_option vm);
                              request_connectivity := connectivity;
                              request_multi_run := multi_run;
                              request_iterations := iterations;
                              request_directions_options := directions_options;
                              request_json_ptree := empty_ptree;
                              request_config := bound (config_option vm) |}
              | _, _ => Exits Terminated []
              end
          end
        else
          match process_json (bound (json_option vm)) directions_options with
          | None => Exits Terminated []
          | Some (locations, routetype, directions_options, json_ptree) =>
              Proceeds {| request_locations := locations;
                          request_routetype := routetype;
                          request_connectivity := connectivity;
                          request_multi_run := multi_run;
                          request_iterations := iterations;
                          request_directions_options := directions_options;
                          request_json_ptree := json_ptree;
                          request_config := bound (config_option vm) |}
          end
  end.

Context {DC : DynamicCost} {E : Externals}.
(** [boost::property_tree::read_json] of the configuration file. *)
Variable read_config : string -> option ptree.

(** The whole of [main]: the exit, what was said on the standard
    streams, and what was called and written. *)
Definition program (parsed : option variables_map) : Exit * list Said * list Event :=
  match command_line parsed with
  | Exits status said => (status, said, [])
  | Proceeds request =>
      match read_config (request_config request) with
      | None => (Terminated, [], [])
      | Some pt =>
          let (status, events) :=
            main (request_locations request) (request_routetype request)
              (request_connectivity request) (request_multi_run request)
              (request_iterations request) (request_directions_options request)
              pt (request_json_ptree request) in
          (status, [], events)
      end
  end.

End CommandLine.

(** ** Further notions *)

(** The count the map of the connectivity check holds for a color, 0 for
    a color that is not in it. *)
Fixpoint count_of (color_counts : list (N * N)) (color : N) : N :=
  match color_counts with
  | [] => 0%N
  | (c, k) :: rest => if N.eqb c color then k else count_of rest color
  end.

(** The costing names [main] resolves for a route type (in lower case). *)
Definition costings_resolved (routetype : string) : list string :=
  if String.eqb routetype "multimodal" then ["auto"; "pedestrian"; "bicycle"; "transit"]
  else [routetype].

(** The options a request gives for a costing, if any, have field names
    that [put_child] takes as one key. *)
Definition plain_request (request : ptree) (costing : string) : Prop :=
  forall overrides,
    get_child_optional request ("costing_options." ++ costing) = Some overrides ->
    Forall (fun kc => simple_name (fst kc) = true) (children overrides).

(** The outcomes a leg can leave in the statistics. *)
Definition leg_outcomes : list string :=
  ["success"; "fail_unreachable_locations"; "fail_unreachable_origin";
   "fail_unreachable_dest"; "fail_no_route"].

(** Whether an event is one that a run of the route type (in lower case)
    can leave: the multimodal algorithm for multimodal and for nothing
    else, the bidirectional one for pedestrian, and no disabling of the
    highway transitions for either. *)
Definition event_of_routetype (routetype : string) (ev : Event) : bool :=
  match ev with
  | CallGetBestPath alg | CallClear alg =>
      if String.eqb routetype "multimodal" then PathAlgorithm_eqb alg mm
      else if String.eqb routetype "pedestrian" then PathAlgorithm_eqb alg bd
      else negb (PathAlgorithm_eqb alg mm)
  | CallDisableHighwayTransitions _ =>
      negb (String.eqb routetype "multimodal")
      && negb (String.eqb routetype "pedestrian")
  | _ => true
  end.

(** ** The legs and what is thrown in them *)

Section Throwing.
Context {DC : DynamicCost} {E : Externals}.

(** No call into the path algorithm or the trip path builder throws. *)
Definition never_throws : Prop :=
  (forall pathalgorithm origin dest mode_costing mode w,
      GetBestPath_throws pathalgorithm origin dest mode_costing mode w = None) /\
  (forall pathalgorithm w, Clear_throws pathalgorithm w = None) /\
  (forall pathedges origin dest w, Build_throws pathedges origin dest w = None).

(** What such a call throws is a [std::runtime_error]. *)
Definition throws_runtime_errors : Prop :=
  (forall pathalgorithm origin dest mode_costing mode w w',
      GetBestPath_throws pathalgorithm origin dest mode_costing mode w
      <> Some (other_exception, w')) /\
  (forall pathalgorithm w w',
      Clear_throws pathalgorithm w <> Some (other_exception, w')) /\
  (forall pathedges origin dest w w',
      Build_throws pathedges origin dest w <> Some (other_exception, w')).

(** The reader has the tile of every candidate edge of a location. *)
Definition tiles_loaded (pl : PathLocation) : Prop :=
  forall edge, In edge (edges pl) -> GetGraphTile (id edge) <> None.

(** The [mode_costing] array after a method that changes the costing
    object of [mode] in place; a null pointer stays one. *)
Definition update_costing (mode : TravelMode) (f : cost_t -> cost_t)
  (mc : TravelMode -> option cost_t) : TravelMode -> option cost_t :=
  fun m => if TravelMode_eqb m mode then option_map f (mc mode) else mc m.

(** The calls among the events that change a costing, made again on a
    [mode_costing] array. *)
Definition replay_event (mc : TravelMode -> option cost_t) (ev : Event)
  : TravelMode -> option cost_t :=
  match ev with
  | CallRelaxHierarchyLimits mode using_astar expansion_within_factor =>
      update_costing mode (RelaxHierarchyLimits using_astar expansion_within_factor) mc
  | CallDisableHighwayTransitions mode =>
      update_costing mode DisableHighwayTransitions mc
  | _ => mc
  end.

Definition replay (evs : list Event) (mc : TravelMode -> option cost_t)
  : TravelMode -> option cost_t :=
  fold_left replay_event evs mc.

(** Whether an event is one that a call of [PathTest] can leave: the
    searches and clears are those of its algorithm, the costing changed
    is the one in use, the hierarchy limits are relaxed with its
    [using_astar] and the highway transitions are disabled only with it;
    no statistics line is written. *)
Definition event_of_PathTest (pathalgorithm : PathAlgorithm) (mode : TravelMode)
  (using_astar : bool) (ev : Event) : bool :=
  match ev with
  | CallGetBestPath alg | CallClear alg => PathAlgorithm_eqb alg pathalgorithm
  | CallRelaxHierarchyLimits m relaxed_for_astar _ =>
      TravelMode_eqb m mode && Bool.eqb relaxed_for_astar using_astar
  | CallDisableHighwayTransitions m => TravelMode_eqb m mode && using_astar
  | CallBuild | LogAverage _ => true
  | LogStatistics _ _ => false
  end.

(** Whether an event is one that the end of [PathTest] can leave, from
    "Form trip path" on. *)
Definition event_of_forming (pathalgorithm : PathAlgorithm) (ev : Event) : bool :=
  match ev with
  | CallGetBestPath alg | CallClear alg => PathAlgorithm_eqb alg pathalgorithm
  | CallBuild | LogAverage _ => true
  | _ => false
  end.

(** The statistics a leg that succeeded leaves. *)
Definition succeeded (directions_options : DirectionsOptions) (found : TripPath)
  (d : PathStatistics) : PathStatistics :=
  let trip_directions := DirectionsBuild directions_options found in
  setSuccess "success"
    (setManuevers (wrap32 (N.of_nat (List.length (maneuver trip_directions))))
       (setTripDist (summary_length trip_directions)
          (setTripTime (summary_time trip_directions) d))).

(** What a call of [PathTest] that may throw leaves behind, however it
    ends: at most three passes, at least one when it returns; the events
    of its algorithm; the costing that its calls made; the statistics
    with the pass count incremented once per pass; the trip path of
    [main] as it was. *)
Definition try_post {A : Type} (pathalgorithm : PathAlgorithm) (mode : TravelMode)
  (multi_run : bool) (iterations : N) (using_astar : bool) (s : State)
  (r : Result A) (s' : State) : Prop :=
  exists (k : nat) (new : list Event),
    (k <= 3)%nat /\
    ((exists found, r = Value found) -> (1 <= k)%nat) /\
    (never_throws -> (1 <= k)%nat) /\
    events s' = events s ++ new /\
    forallb (event_of_PathTest pathalgorithm mode using_astar) new = true /\
    (forall m, mode_costing s' m = replay new (mode_costing s) m) /\
    data s' = Nat.iter k incPasses (data s) /\
    trip_path s' = trip_path s /\
    (mode_costing s mode <> None -> (multi_run = true -> iterations <> 0%N) ->
     r <> Undefined) /\
    (throws_runtime_errors -> r <> Thrown other_exception).

(** Whether an event is one that the legs of a run of the route type (in
    lower case) with the costing of [mode] in use can leave. *)
Definition event_of_legs (routetype : string) (mode : TravelMode) (ev : Event) : bool :=
  event_of_routetype routetype ev &&
  match ev with
  | CallRelaxHierarchyLimits m _ _ | CallDisableHighwayTransitions m =>
      TravelMode_eqb m mode
  | LogStatistics _ _ => false
  | _ => true
  end.

(** What some legs of [main] leave behind, however they end: at most
    three passes a leg, and at least one when no call throws and the legs
    run to their end; the events of the route type; the costing that the
    calls made; the coordinates, run time and arc distance as they were.
    The legs run to their end when every leg has its two locations
    ([located]), the costing in use is there, a multi-run has iterations,
    what is thrown is a [std::runtime_error] and the reader has the tiles
    of the candidates. *)
Definition legs_post (routetype : string) (mode : TravelMode) (multi_run : bool)
  (iterations : N) (located : Prop) (used : list PathLocation) (legs : nat) (s : State)
  (r : Result unit) (s' : State) : Prop :=
  exists (K : nat) (new : list Event),
    (K <= 3 * legs)%nat /\
    (never_throws -> r = Value tt -> (legs <= K)%nat) /\
    events s' = events s ++ new /\
    forallb (event_of_legs routetype mode) new = true /\
    (forall m, mode_costing s' m = replay new (mode_costing s) m) /\
    passes (data s') = passes (Nat.iter K incPasses (data s)) /\
    same_request (data s) (data s') /\
    (located -> mode_costing s mode <> None ->
     (multi_run = true -> iterations <> 0%N) ->
     throws_runtime_errors -> Forall tiles_loaded used -> r = Value tt).

(** What one leg leaves behind in addition: a leg that runs to its end
    leaves one of the five outcomes, and the trip time, trip distance and
    maneuver count are only changed by a leg that succeeds. *)
Definition leg_post (routetype : string) (mode : TravelMode) (multi_run : bool)
  (iterations : N) (origin dest : PathLocation) (s : State) (r : Result unit)
  (s' : State) : Prop :=
  legs_post routetype mode multi_run iterations True [origin; dest] 1 s r s' /\
  (success (data s') = "success" \/ same_trip (data s) (data s')) /\
  (r = Value tt -> In (success (data s')) leg_outcomes).

End Throwing.

(** ** Choice of the path algorithm *)

Lemma inner_scan_existsb (edge1 : PathEdge) (candidates : list PathEdge)
  (pathalgorithm : PathAlgorithm) :
  fold_left (fun pa edge2 => if N.eqb (id edge1) (id edge2) then astar else pa)
            candidates pathalgorithm
  = if existsb (fun edge2 => N.eqb (id edge1) (id edge2)) candidates then astar
    else pathalgorithm.
Proof.
  revert pathalgorithm.
  induction candidates as [|edge2 rest IH]; intros pa; simpl; [reflexivity|].
  rewrite IH. destruct (N.eqb (id edge1) (id edge2)); simpl; [|reflexivity].
  destruct (existsb _ rest); reflexivity.
Qed.

Lemma outer_scan_existsb (dest_edges origin_edges : list PathEdge)
  (pathalgorithm : PathAlgorithm) :
  fold_left
    (fun pa edge1 =>
       fold_left (fun pa' edge2 => if N.eqb (id edge1) (id edge2) then astar else pa')
                 dest_edges pa)
    origin_edges pathalgorithm
  = if existsb (fun edge1 => existsb (fun edge2 => N.eqb (id edge1) (id edge2)) dest_edges)
               origin_edges
    then astar else pathalgorithm.
Proof.
  revert pathalgorithm.
  induction origin_edges as [|edge1 rest IH]; intros pa; simpl; [reflexivity|].
  rewrite IH, inner_scan_existsb.
  destruct (existsb (fun edge2 => N.eqb (id edge1) (id edge2)) dest_edges); simpl;
    [|reflexivity].
  destruct (existsb _ rest); reflexivity.
Qed.

Lemma share_an_edgeb_spec (origin dest : PathLocation) :
  share_an_edgeb origin dest = true <-> share_an_edge origin dest.
Proof.
  unfold share_an_edgeb, share_an_edge. rewrite existsb_exists. split.
  - intros (edge1 & H1 & H). apply existsb_exists in H. destruct H as (edge2 & H2 & H).
    apply N.eqb_eq in H. exists edge1, edge2. auto.
  - intros (edge1 & edge2 & H1 & H2 & H). exists edge1. split; [assumption|].
    apply existsb_exists. exists edge2. split; [assumption|]. now apply N.eqb_eq.
Qed.

(** The loops of [main] compute the decision rule: multimodal first,
    pedestrian second, a shared edge third. *)
Lemma choose_pathalgorithm_rule (routetype : string) (origin dest : PathLocation) :
  choose_pathalgorithm routetype origin dest
  = if String.eqb routetype "multimodal" then mm
    else if String.eqb routetype "pedestrian" then bd
    else if share_an_edgeb origin dest then astar else bd.
Proof.
  unfold choose_pathalgorithm, share_an_edgeb.
  now rewrite outer_scan_existsb.
Qed.

(** C1, as stated, fails: for the route type pedestrian (and likewise
    multimodal) a leg whose two candidate sets share edge 7 is routed with
    the bidirectional (the multimodal) algorithm, not the direct one. *)
Lemma shared_edge_pedestrian_not_direct :
  let origin := {| location := Scenario.place "A";
                   edges := [{| id := 7%N; dist := float_of_Z 0 |}] |} in
  let dest := {| location := Scenario.place "B";
                 edges := [{| id := 7%N; dist := float_of_Z 0 |}] |} in
  share_an_edge origin dest /\
  choose_pathalgorithm "pedestrian" origin dest = bd /\
  choose_pathalgorithm "multimodal" origin dest = mm /\
  ~ (forall routetype o d,
        share_an_edge o d -> choose_pathalgorithm routetype o d = astar).
Proof.
  intros origin dest.
  assert (Hs : share_an_edge origin dest).
  { exists {| id := 7%N; dist := float_of_Z 0 |}, {| id := 7%N; dist := float_of_Z 0 |}.
    simpl. auto. }
  repeat split; try reflexivity; try assumption.
  intros H. specialize (H "pedestrian" origin dest Hs). discriminate H.
Qed.

(** C1, amended: for every route type other than multimodal and
    pedestrian, a leg whose origin and destination candidate edge sets
    share an edge identifier is routed with the direct (A-star) algorithm; for
    those route types the direct algorithm is chosen for no other leg. *)
Theorem shared_edge_chooses_direct (routetype : string) (origin dest : PathLocation) :
  routetype <> "multimodal" ->
  routetype <> "pedestrian" ->
  (share_an_edge origin dest -> choose_pathalgorithm routetype origin dest = astar) /\
  (choose_pathalgorithm routetype origin dest = astar -> share_an_edge origin dest) /\
  (~ share_an_edge origin dest -> choose_pathalgorithm routetype origin dest = bd).
Proof.
  intros Hmm Hped. rewrite choose_pathalgorithm_rule.
  apply String.eqb_neq in Hmm, Hped. rewrite Hmm, Hped.
  destruct (share_an_edgeb origin dest) eqn:Hb.
  - apply share_an_edgeb_spec in Hb. repeat split; auto. intros Hn. contradiction.
  - assert (Hn : ~ share_an_edge origin dest).
    { intros Hs. apply share_an_edgeb_spec in Hs. congruence. }
    repeat split; auto; try discriminate. intros Hs. contradiction.
Qed.

Lemma shared_edge_chooses_direct_witness :
  let origin := {| location := Scenario.place "A";
                   edges := [{| id := 3%N; dist := float_of_Z 0 |};
                             {| id := 7%N; dist := float_of_Z 0 |}] |} in
  let dest := {| location := Scenario.place "B";
                 edges := [{| id := 7%N; dist := float_of_Z 0 |}] |} in
  choose_pathalgorithm "auto" origin dest = astar.
Proof.
  intros origin dest.
  apply (shared_edge_chooses_direct "auto" origin dest); [discriminate | discriminate |].
  exists {| id := 7%N; dist := float_of_Z 0 |}, {| id := 7%N; dist := float_of_Z 0 |}.
  simpl. auto.
Defined.

(** ** Costing resolution *)

Lemma split_on_no_separator (s : string) :
  has_separator s = false -> split_on separator s = [s].
Proof.
  induction s as [|c rest IH]; simpl; [reflexivity|].
  intros H. apply orb_false_iff in H. destruct H as [Hc Hrest].
  rewrite Hc, (IH Hrest). reflexivity.
Qed.

Lemma simple_name_fragments (k : string) :
  simple_name k = true -> fragments k = [k] /\ k <> "".
Proof.
  unfold simple_name, fragments. intros H.
  apply andb_true_iff in H. destruct H as [Hne Hsep].
  apply negb_true_iff in Hne, Hsep. split.
  - now apply split_on_no_separator.
  - now apply String.eqb_neq.
Qed.

(** On a simple name [put_child] is an update of the field list. *)
Lemma put_child_simple (t : ptree) (k : string) (v : ptree) :
  simple_name k = true ->
  put_child t k v = Some (Node (Ptree.data t) (upsert k v (children t))).
Proof.
  intros H. destruct (simple_name_fragments k H) as [Hf Hne].
  unfold put_child, upsert. rewrite Hf. simpl.
  destruct k as [|c rest]; [congruence|].
  destruct (find (String c rest) (children t)); reflexivity.
Qed.

Lemma find_replace_first_same (k : string) (v : ptree) (cs : list (string * ptree)) :
  find k cs <> None -> find k (replace_first k v cs) = Some v.
Proof.
  induction cs as [|[k0 c0] rest IH]; simpl; [congruence|].
  destruct (String.eqb k0 k) eqn:Hk; simpl; rewrite Hk; auto.
Qed.

Lemma find_replace_first_other (k k' : string) (v : ptree) (cs : list (string * ptree)) :
  k' <> k -> find k' (replace_first k v cs) = find k' cs.
Proof.
  intros Hne. induction cs as [|[k0 c0] rest IH]; simpl; [reflexivity|].
  destruct (String.eqb k0 k) eqn:Hk; simpl.
  - apply String.eqb_eq in Hk. subst k0.
    assert (Hk' : String.eqb k k' = false) by (apply String.eqb_neq; congruence).
    now rewrite Hk'.
  - now rewrite IH.
Qed.

Lemma find_app_one (k k' : string) (v : ptree) (cs : list (string * ptree)) :
  find k' (cs ++ [(k, v)])
  = match find k' cs with
    | Some c => Some c
    | None => if String.eqb k k' then Some v else None
    end.
Proof.
  induction cs as [|[k0 c0] rest IH]; simpl; [reflexivity|].
  destruct (String.eqb k0 k'); [reflexivity | exact IH].
Qed.

Lemma find_upsert (k k' : string) (v : ptree) (cs : list (string * ptree)) :
  find k' (upsert k v cs) = if String.eqb k k' then Some v else find k' cs.
Proof.
  unfold upsert. destruct (String.eqb k k') eqn:Hk.
  - apply String.eqb_eq in Hk. subst k'.
    destruct (find k cs) eqn:Hf.
    + apply find_replace_first_same. congruence.
    + rewrite find_app_one, Hf, String.eqb_refl. reflexivity.
  - apply String.eqb_neq in Hk.
    destruct (find k cs) eqn:Hf.
    + apply find_replace_first_other. congruence.
    + rewrite find_app_one. destruct (find k' cs); [reflexivity|].
      apply String.eqb_neq in Hk. now rewrite Hk.
Qed.

Lemma filter_replace_first (p : string * ptree -> bool) (k : string) (v : ptree)
  (cs : list (string * ptree)) :
  (forall c, p (k, c) = false) ->
  filter p (replace_first k v cs) = filter p cs.
Proof.
  intros Hp. induction cs as [|[k0 c0] rest IH]; simpl; [reflexivity|].
  destruct (String.eqb k0 k) eqn:Hk; simpl.
  - apply String.eqb_eq in Hk. subst k0. now rewrite !Hp.
  - now rewrite IH.
Qed.

Lemma filter_upsert (p : string * ptree -> bool) (k : string) (v : ptree)
  (cs : list (string * ptree)) :
  (forall c, p (k, c) = false) ->
  filter p (upsert k v cs) = filter p cs.
Proof.
  intros Hp. unfold upsert. destruct (find k cs).
  - now apply filter_replace_first.
  - rewrite filter_app. simpl. rewrite Hp. apply app_nil_r.
Qed.

Lemma find_last_cons (k k0 : string) (v0 : ptree) (rs : list (string * ptree)) :
  find_last k ((k0, v0) :: rs)
  = match find_last k rs with
    | Some c => Some c
    | None => if String.eqb k0 k then Some v0 else None
    end.
Proof.
  unfold find_last. simpl. apply find_app_one.
Qed.

Lemma named_in_cons (k0 : string) (v0 : ptree) (rest : list (string * ptree)) (k : string) :
  named_in ((k0, v0) :: rest) k = String.eqb k k0 || named_in rest k.
Proof. reflexivity. Qed.

Lemma unmatched_by_cons (k0 : string) (v0 : ptree) (rest fields : list (string * ptree)) :
  filter (fun kc : string * ptree => negb (named_in ((k0, v0) :: rest) (fst kc))) fields
  = filter (fun kc : string * ptree => negb (String.eqb (fst kc) k0))
      (filter (fun kc : string * ptree => negb (named_in rest (fst kc))) fields).
Proof.
  induction fields as [|[k c] fs IHf]; [reflexivity|].
  cbn [filter fst]. rewrite IHf, named_in_cons.
  destruct (named_in rest k); destruct (String.eqb k k0) eqn:Hk; cbn [orb negb filter fst];
    rewrite ?Hk; reflexivity.
Qed.

(** The merge loop on simple names: it runs to its end; each name reads
    the last value the request gives it, or the base value when the
    request has none; the fields the request does not name are the base
    ones, in their order. *)
Lemma merge_options_simple (rs : list (string * ptree)) :
  Forall (fun kc => simple_name (fst kc) = true) rs ->
  forall base : ptree,
  exists merged : ptree,
    merge_options rs base = Some merged /\
    Ptree.data merged = Ptree.data base /\
    (forall k, find k (children merged)
               = match find_last k rs with
                 | Some v => Some v
                 | None => find k (children base)
                 end) /\
    unmatched_by rs (children merged) = unmatched_by rs (children base).
Proof.
  induction rs as [|[k0 v0] rest IH]; intros Hs base.
  - exists base. repeat split; reflexivity.
  - inversion Hs as [|x l Hk0 Hrest]; subst. simpl in Hk0.
    destruct (IH Hrest (Node (Ptree.data base) (upsert k0 v0 (children base))))
      as (merged & Hm & Hd & Hfind & Hun).
    exists merged. simpl merge_options. rewrite (put_child_simple _ _ _ Hk0), Hm.
    split; [reflexivity|]. split; [exact Hd|]. split.
    + intros k. rewrite Hfind, find_last_cons. simpl children.
      destruct (find_last k rest); [reflexivity|].
      rewrite find_upsert. destruct (String.eqb k0 k); reflexivity.
    + unfold unmatched_by in *. simpl children in Hun.
      rewrite (unmatched_by_cons k0 v0 rest (children merged)), Hun,
        <- (unmatched_by_cons k0 v0).
      apply filter_upsert. intros c. unfold named_in. simpl.
      now rewrite String.eqb_refl.
Qed.

Lemma put_fragments_more (f g : string) (rest : list string) (v t : ptree) :
  put_fragments (f :: g :: rest) v t
  = match find f (children t) with
    | Some c =>
        match put_fragments (g :: rest) v c with
        | Some c' => Some (Node (Ptree.data t) (replace_first f c' (children t)))
        | None => None
        end
    | None =>
        match put_fragments (g :: rest) v empty_ptree with
        | Some c' => Some (Node (Ptree.data t) (children t ++ [(f, c')]))
        | None => None
        end
    end.
Proof. reflexivity. Qed.

(** [put_child] fails its assertion exactly on a path whose last fragment
    is empty, whatever the tree. *)
Lemma put_fragments_none (fs : list string) (v : ptree) :
  forall t : ptree, put_fragments fs v t = None <-> last fs "" = "".
Proof.
  induction fs as [|f rest IH]; intros t.
  - cbn. split; reflexivity.
  - destruct rest as [|g rest'].
    + cbn [put_fragments last]. destruct f as [|c f'].
      * split; reflexivity.
      * destruct (find (String c f') (children t)); split; intros H; discriminate H.
    + change (last (f :: g :: rest') "") with (last (g :: rest') "").
      rewrite put_fragments_more. destruct (find f (children t)) as [c|].
      * rewrite <- (IH c).
        destruct (put_fragments (g :: rest') v c); split; intros H;
          first [discriminate H | reflexivity].
      * rewrite <- (IH empty_ptree).
        destruct (put_fragments (g :: rest') v empty_ptree); split; intros H;
          first [discriminate H | reflexivity].
Qed.

(** The merge loop fails the assertion exactly when one of the names it
    is given is open. *)
Lemma merge_options_none (rs : list (string * ptree)) :
  forall base : ptree,
    merge_options rs base = None
    <-> existsb (fun kc => open_name (fst kc)) rs = true.
Proof.
  induction rs as [|[k v] rest IH]; intros base; cbn [merge_options existsb fst].
  - split; intros H; discriminate H.
  - unfold put_child, open_name.
    pose proof (put_fragments_none (fragments k) v base) as Hk.
    destruct (put_fragments (fragments k) v base) as [t'|].
    + destruct (String.eqb (last (fragments k) "") "") eqn:He.
      * apply String.eqb_eq in He. apply Hk in He. discriminate He.
      * cbn [orb]. apply IH.
    + destruct Hk as [Hk _]. rewrite (Hk eq_refl). cbn. split; reflexivity.
Qed.

(** C5, as stated, fails in four ways.  A request field whose name holds
    the path separator is not overlaid by name: [put_child] takes the
    name [limits.min] as the path to the field [min] of the field
    [limits]; the base field [limits], which no request field is named
    after, is changed, and no field named [limits.min] is added.  Next to
    such a field, a request field with a plain name does not read its
    request value either.  On a name that is empty or ends in the
    separator the call neither fails with an error nor returns: it runs
    into the assertion of [put_child].  And with the base subtree there,
    the call still ends in an error when the factory answers one. *)
Lemma dotted_request_name_is_a_path :
  let base := Node "" [("maneuver_penalty", Node "5" []);
                       ("limits", Node "" [("max", Node "10" [])])] in
  let config := Node "" [("costing_options",
                          Node "" [("auto", base); ("hovercraft", Node "" [])])] in
  let asking := fun overrides =>
    Node "" [("costing_options", Node "" [("auto", Node "" overrides)])] in
  let resolve := fun overrides =>
    fst (get_costing (fun _ options => options) config (asking overrides) "auto") in
  (let overrides := [("limits.min", Node "1" [])] in
   let merged := Node "" [("maneuver_penalty", Node "5" []);
                          ("limits", Node "" [("max", Node "10" []);
                                              ("min", Node "1" [])])] in
   resolve overrides = Created merged /\
   find "limits" overrides = None /\
   find "limits" (children merged) <> find "limits" (children base) /\
   find "limits.min" (children merged) = None) /\
  (let given := Node "" [("max", Node "20" [])] in
   exists merged,
     resolve [("limits", given); ("limits.min", Node "1" [])] = Created merged /\
     find "limits" (children merged)
     = Some (Node "" [("max", Node "20" []); ("min", Node "1" [])]) /\
     find "limits" (children merged) <> Some given) /\
  resolve [("", Node "1" [])] = PathAssertion /\
  resolve [("limits.", Node "1" [])] = PathAssertion /\
  get_child_optional config "costing_options.hovercraft" = Some (Node "" []) /\
  fst (get_costing Scenario.scripted_factory config empty_ptree "hovercraft")
  = Created (inl (runtime_error "No costing method found")).
Proof.
  cbv zeta. split; [|split; [|repeat split]].
  - repeat split; try reflexivity. discriminate.
  - eexists. split; [reflexivity|]. split; [reflexivity | discriminate].
Qed.

(** C5, amended: [get_costing] throws its own error exactly when the
    base configuration has no [costing_options.<mode>] subtree.  With
    the subtree there it runs into the assertion of [put_child] exactly
    when the request gives options for the mode of which a field name is
    empty or ends in the path separator.  In every other case it hands a
    subtree to the factory and returns what the factory answers, an
    error of the factory included: the base subtree itself when the
    request has no subtree for the mode, and else, when every field name
    of the request's subtree is not empty and holds no path separator, a
    subtree in which every name the request gives reads the (last)
    request value, every other name reads what it read in the base, and
    the fields the request does not name are the base ones, unchanged and
    in their order. *)
Theorem get_costing_overlay {R : Type} (Create : string -> ptree -> R)
  (config request : ptree) (costing : string) :
  let method_options := ("costing_options." ++ costing)%string in
  (get_child_optional config method_options = None <->
   exists e, fst (get_costing Create config request costing) = NoCostingMethod e) /\
  (fst (get_costing Create config request costing) = PathAssertion <->
   get_child_optional config method_options <> None /\
   exists overrides,
     get_child_optional request method_options = Some overrides /\
     existsb (fun kc => open_name (fst kc)) (children overrides) = true) /\
  (forall r, fst (get_costing Create config request costing) = Created r ->
     exists options, r = Create costing options) /\
  (forall base, get_child_optional config method_options = Some base ->
     match get_child_optional request method_options with
     | None => fst (get_costing Create config request costing)
               = Created (Create costing base)
     | Some overrides =>
         Forall (fun kc => simple_name (fst kc) = true) (children overrides) ->
         exists merged,
           fst (get_costing Create config request costing)
           = Created (Create costing merged) /\
           Ptree.data merged = Ptree.data base /\
           (forall k, find k (children merged)
                      = match find_last k (children overrides) with
                        | Some v => Some v
                        | None => find k (children base)
                        end) /\
           unmatched_by (children overrides) (children merged)
           = unmatched_by (children overrides) (children base)
     end).
Proof.
  intros method_options. unfold get_costing. fold method_options.
  split; [|split; [|split]].
  - split.
    + intros H. rewrite H. eexists. reflexivity.
    + intros [e H]. destruct (get_child_optional config method_options); [|reflexivity].
      destruct (get_child_optional request method_options) as [overrides|];
        [|discriminate H].
      destruct (merge_options (children overrides) p); discriminate H.
  - destruct (get_child_optional config method_options) as [base|].
    2:{ split; [intros H; discriminate H | intros [H _]; now destruct H]. }
    destruct (get_child_optional request method_options) as [overrides|].
    2:{ split; [intros H; discriminate H | intros (_ & o & H & _); discriminate H]. }
    pose proof (merge_options_none (children overrides) base) as Hnone.
    destruct (merge_options (children overrides) base) as [merged|].
    + split; [intros H; discriminate H|].
      intros (_ & o & Ho & Hopen). injection Ho as <-.
      apply Hnone in Hopen. discriminate Hopen.
    + split; [|reflexivity]. intros _. split; [discriminate|].
      exists overrides. split; [reflexivity|]. now apply Hnone.
  - intros r.
    destruct (get_child_optional config method_options) as [base|];
      [|intros H; discriminate H].
    destruct (get_child_optional request method_options) as [overrides|].
    + destruct (merge_options (children overrides) base) as [merged|];
        [|intros H; discriminate H].
      intros H. injection H as <-. now exists merged.
    + intros H. injection H as <-. now exists base.
  - intros base Hbase. rewrite Hbase.
    destruct (get_child_optional request method_options) as [overrides|];
      [|reflexivity].
    intros Hsimple.
    destruct (merge_options_simple (children overrides) Hsimple base)
      as (merged & Hm & Hd & Hfind & Hun).
    exists merged. rewrite Hm. repeat split; assumption.
Qed.

Lemma get_costing_overlay_witness :
  let overrides := Node "" [("maneuver_penalty", Node "9" []);
                            ("use_tolls", Node "0" [])] in
  let request := Node "" [("costing_options", Node "" [("auto", overrides)])] in
  exists merged,
    fst (get_costing (fun _ options => options) Scenario.config request "auto")
    = Created merged /\
    find "maneuver_penalty" (children merged) = Some (Node "9" []) /\
    find "use_tolls" (children merged) = Some (Node "0" []).
Proof.
  intros overrides request.
  destruct (get_costing_overlay (fun _ options => options) Scenario.config request "auto")
    as (_ & _ & _ & H).
  specialize (H (Node "" [("maneuver_penalty", Node "5" [])]) eq_refl).
  cbv beta iota zeta in H.
  change (get_child_optional request ("costing_options." ++ "auto"))
    with (Some overrides) in H.
  cbv beta iota in H.
  destruct H as (merged & Hc & _ & Hfind & _).
  - repeat constructor.
  - exists merged. split; [exact Hc|]. split; rewrite Hfind; reflexivity.
Defined.

(** ** The search attempts of a leg *)

Lemma TravelMode_eqb_refl (m : TravelMode) : TravelMode_eqb m m = true.
Proof. destruct m; reflexivity. Qed.

Lemma PathAlgorithm_eqb_refl (a : PathAlgorithm) : PathAlgorithm_eqb a a = true.
Proof. destruct a; reflexivity. Qed.

Lemma wrap32_succ (x : N) : wrap32 (wrap32 x + 1) = wrap32 (x + 1).
Proof. unfold wrap32. now rewrite N.Div0.add_mod_idemp_l. Qed.

Lemma wrap32_add_wrap (x k : N) : wrap32 (wrap32 (x + k) + 1) = wrap32 (x + (k + 1)).
Proof. rewrite wrap32_succ. f_equal. lia. Qed.

Section Attempts.
Context {DC : DynamicCost} {E : Externals}.

Lemma bind_assoc {A B C : Type} (m : M A) (f : A -> M B) (g : B -> M C) (s : State) :
  bind (bind m f) g s = bind m (fun a => bind (f a) g) s.
Proof.
  unfold bind. destruct (m s) as [[a| |e] s1]; [|reflexivity|reflexivity].
  destruct (f a s1) as [[b| |e] s2]; reflexivity.
Qed.

Lemma bind_ext {A B : Type} (m : M A) (f g : A -> M B) (s : State) :
  (forall a s', f a s' = g a s') -> bind m f s = bind m g s.
Proof.
  intros H. unfold bind.
  destruct (m s) as [[a| |e] s1]; [apply H | reflexivity | reflexivity].
Qed.

Lemma bind_ret {A B : Type} (a : A) (f : A -> M B) (s : State) :
  bind (ret a) f s = f a s.
Proof. reflexivity. Qed.

Lemma PathTest_with_attempts
  (call_GetBestPath : PathAlgorithm -> PathLocation -> PathLocation -> TravelMode ->
                      M (list PathInfo))
  (call_Clear : PathAlgorithm -> M unit)
  (call_Build : list PathInfo -> PathLocation -> PathLocation -> M TripPath)
  (origin dest : PathLocation) (pathalgorithm : PathAlgorithm)
  (mode : TravelMode) (multi_run : bool) (iterations : N) (using_astar : bool)
  (s : State) :
  PathTest_with call_GetBestPath call_Clear call_Build origin dest pathalgorithm mode
    multi_run iterations using_astar s
  = bind (attempts_with call_GetBestPath call_Clear origin dest pathalgorithm mode
            using_astar)
      (fun pathedges =>
         if empty pathedges then ret TripPath_default
         else form_trip_path_with call_GetBestPath call_Clear call_Build pathalgorithm
                origin dest mode multi_run iterations pathedges) s.
Proof.
  unfold PathTest_with, attempts_with.
  rewrite bind_assoc. apply bind_ext. intros p1 s1.
  rewrite bind_assoc. apply bind_ext. intros _ s2.
  rewrite bind_assoc. apply bind_ext. intros p2 s3.
  destruct (empty p2) eqn:He.
  - destruct using_astar; cbn [negb]; [|reflexivity].
    rewrite bind_assoc. apply bind_ext. intros _ s4.
    rewrite bind_assoc. apply bind_ext. intros _ s5.
    rewrite bind_assoc. apply bind_ext. intros p3 s6.
    rewrite bind_assoc. apply bind_ext. intros _ s7.
    reflexivity.
  - rewrite bind_ret, He. reflexivity.
Qed.

Lemma PathTest_attempts (origin dest : PathLocation) (pathalgorithm : PathAlgorithm)
  (mode : TravelMode) (multi_run : bool) (iterations : N) (using_astar : bool)
  (s : State) :
  PathTest origin dest pathalgorithm mode multi_run iterations using_astar s
  = bind (attempts origin dest pathalgorithm mode using_astar)
      (fun pathedges =>
         if empty pathedges then ret TripPath_default
         else form_trip_path pathalgorithm origin dest mode multi_run iterations
                pathedges) s.
Proof. apply PathTest_with_attempts. Qed.

(** *** Rules for [wp] *)

Lemma wp_bind {A B : Type} (m : M A) (f : A -> M B) (Q : Result B -> State -> Prop)
  (s : State) :
  wp m (fun r s' => match r with
                    | Value a => wp (f a) Q s'
                    | Undefined => Q Undefined s'
                    | Thrown e => Q (Thrown e) s'
                    end) s ->
  wp (bind m f) Q s.
Proof.
  unfold wp, bind. destruct (m s) as [[a| |e] s1]; cbn [fst snd]; auto.
Qed.

Lemma wp_ret {A : Type} (a : A) (Q : Result A -> State -> Prop) (s : State) :
  Q (Value a) s -> wp (ret a) Q s.
Proof. auto. Qed.

Lemma wp_on_data (f : PathStatistics -> PathStatistics)
  (Q : Result unit -> State -> Prop) (s : State) :
  Q (Value tt) (set_data (f (data s)) s) -> wp (on_data f) Q s.
Proof. auto. Qed.

Lemma wp_write (ev : Event) (Q : Result unit -> State -> Prop) (s : State) :
  Q (Value tt) (emit ev s) -> wp (write ev) Q s.
Proof. auto. Qed.

Lemma wp_clock (Q : Result Z -> State -> Prop) (s : State) :
  Q (Value (now (reader s))) s -> wp clock Q s.
Proof. auto. Qed.

Lemma wp_GetBestPath (pathalgorithm : PathAlgorithm) (origin dest : PathLocation)
  (mode : TravelMode) (Q : Result (list PathInfo) -> State -> Prop) (s : State) :
  (forall pathedges w,
      GetBestPath pathalgorithm origin dest (mode_costing s) mode (reader s)
      = (pathedges, w) ->
      Q (Value pathedges) (emit (CallGetBestPath pathalgorithm) (set_reader w s))) ->
  wp (do_GetBestPath pathalgorithm origin dest mode) Q s.
Proof.
  intros H. unfold wp, do_GetBestPath.
  destruct (GetBestPath pathalgorithm origin dest (mode_costing s) mode (reader s))
    as [p w] eqn:Hg.
  now apply H.
Qed.

Lemma wp_Clear (pathalgorithm : PathAlgorithm) (Q : Result unit -> State -> Prop)
  (s : State) :
  Q (Value tt) (emit (CallClear pathalgorithm)
                  (set_reader (Clear pathalgorithm (reader s)) s)) ->
  wp (do_Clear pathalgorithm) Q s.
Proof. auto. Qed.

Lemma wp_Build (pathedges : list PathInfo) (origin dest : PathLocation)
  (Q : Result TripPath -> State -> Prop) (s : State) :
  (forall trip_path w,
      Build pathedges origin dest (reader s) = (trip_path, w) ->
      Q (Value trip_path) (emit CallBuild (set_reader w s))) ->
  wp (do_Build pathedges origin dest) Q s.
Proof.
  intros H. unfold wp, do_Build.
  destruct (Build pathedges origin dest (reader s)) as [t w] eqn:Hb.
  now apply H.
Qed.

Lemma wp_cost_query {A : Type} (mode : TravelMode) (q : cost_t -> A)
  (Q : Result A -> State -> Prop) (s : State) :
  match mode_costing s mode with
  | Some cost => Q (Value (q cost)) s
  | None => Q Undefined s
  end ->
  wp (cost_query mode q) Q s.
Proof.
  unfold wp, cost_query. destruct (mode_costing s mode); auto.
Qed.

Lemma wp_cost_update (mode : TravelMode) (f : cost_t -> cost_t) (ev : Event)
  (Q : Result unit -> State -> Prop) (s : State) :
  match mode_costing s mode with
  | Some cost =>
      Q (Value tt)
        (emit ev (set_mode_costing
                    (fun m => if TravelMode_eqb m mode then Some (f cost)
                              else mode_costing s m) s))
  | None => Q Undefined s
  end ->
  wp (cost_update mode f ev) Q s.
Proof.
  unfold wp, cost_update. destruct (mode_costing s mode); auto.
Qed.

Lemma wp_weaken {A : Type} (m : M A) (Q Q' : Result A -> State -> Prop) (s : State) :
  wp m Q s -> (forall r s', Q r s' -> Q' r s') -> wp m Q' s.
Proof. unfold wp. auto. Qed.

Ltac simpl_state :=
  cbn [reader mode_costing data trip_path events set_reader set_mode_costing set_data
       set_trip_path emit
       fst snd] in *.

Ltac norm :=
  cbn [reader mode_costing data trip_path events set_reader set_mode_costing set_data
       set_trip_path emit
       fst snd empty ret negb] in *.

Ltac wp_step :=
  lazymatch goal with
  | |- wp (bind _ _) _ _ => apply wp_bind
  | |- wp (ret _) _ _ => apply wp_ret
  | |- wp (on_data _) _ _ => apply wp_on_data
  | |- wp (write _) _ _ => apply wp_write
  | |- wp clock _ _ => apply wp_clock
  | |- wp (do_GetBestPath _ _ _ _) _ _ => apply wp_GetBestPath; intros ? ? ?
  | |- wp (do_Clear _) _ _ => apply wp_Clear
  | |- wp (do_Build _ _ _) _ _ => apply wp_Build; intros ? ? ?
  | |- wp (cost_query _ _) _ _ => apply wp_cost_query
  | |- wp (cost_update _ _ _) _ _ => apply wp_cost_update
  | |- wp (if ?c then _ else _) _ _ => destruct c eqn:?
  | |- match mode_costing _ ?m with _ => _ end =>
      simpl_state;
      lazymatch goal with
      | |- match ?x with _ => _ end => destruct x eqn:?
      end
  end; cbv beta iota zeta; rewrite ?TravelMode_eqb_refl.

Lemma incPasses_set_passes (d : PathStatistics) :
  incPasses d = set_passes (wrap32 (passes d + 1)) d.
Proof. reflexivity. Qed.

Lemma incPasses_again (p k : N) (d : PathStatistics) :
  incPasses (set_passes (wrap32 (p + k)) d) = set_passes (wrap32 (p + (k + 1))) d.
Proof.
  unfold incPasses, set_passes. cbn. now rewrite wrap32_add_wrap.
Qed.

Ltac count_passes :=
  simpl_state;
  match goal with
  | |- context [incPasses (data ?s)] => rewrite (incPasses_set_passes (data s))
  end;
  rewrite ?incPasses_again; reflexivity.

Ltac attempts_leaf k :=
  exists k; eexists;
  split; [lia|];
  split; [simpl_state; rewrite <- ?app_assoc; cbn [app]; reflexivity|];
  split; [reflexivity|];
  split; [intros rest; cbn; rewrite ?PathAlgorithm_eqb_refl; reflexivity|];
  split; [reflexivity|];
  split; [count_passes|];
  simpl_state; rewrite ?TravelMode_eqb_refl;
  (split;
   [first [ intros _; split; discriminate
          | intros Hnull; split; [discriminate | assumption]
          | intros Hnull; congruence ]
   |split; [intros e; discriminate | reflexivity]]).

(** The search attempts of [PathTest], whatever the libraries answer. *)
Lemma attempts_ok (origin dest : PathLocation) (pathalgorithm : PathAlgorithm)
  (mode : TravelMode) (using_astar : bool) (s : State) :
  wp (attempts origin dest pathalgorithm mode using_astar) (attempts_post mode s) s.
Proof.
  unfold attempts, attempts_with.
  repeat wp_step.
  all: simpl_state; rewrite ?TravelMode_eqb_refl in *; try congruence.
  all: try (attempts_leaf 1%nat).
  all: try (attempts_leaf 2%nat).
  all: try (attempts_leaf 3%nat).
Qed.

Lemma rerun_ok (pathalgorithm : PathAlgorithm) (origin dest : PathLocation)
  (mode : TravelMode) (n : nat) :
  forall (totalms : N) (s : State),
    wp (rerun pathalgorithm origin dest mode n totalms)
       (fun r s' =>
          (exists t, r = Value t) /\
          events s' = events s ++ rounds pathalgorithm n /\
          data s' = data s /\ mode_costing s' = mode_costing s /\
          trip_path s' = trip_path s) s.
Proof.
  induction n as [|n IH]; intros totalms s; unfold rerun; cbn [rerun_with rounds].
  - apply wp_ret. rewrite app_nil_r. repeat split; eauto.
  - repeat wp_step.
    eapply wp_weaken; [apply IH|].
    intros r s' (Hr & Hev & Hd & Hmc & Htp). simpl_state.
    repeat split; try assumption.
    rewrite Hev, <- !app_assoc. reflexivity.
Qed.

Lemma form_trip_path_ok (pathalgorithm : PathAlgorithm) (origin dest : PathLocation)
  (mode : TravelMode) (multi_run : bool) (iterations : N)
  (pathedges : list PathInfo) (s : State) :
  wp (form_trip_path pathalgorithm origin dest mode multi_run iterations pathedges)
     (formed_post pathalgorithm origin dest multi_run iterations pathedges s) s.
Proof.
  unfold form_trip_path, form_trip_path_with.
  wp_step. wp_step. wp_step. wp_step. wp_step.
  destruct multi_run.
  - wp_step.
    eapply wp_weaken; [apply rerun_ok|].
    intros r s' ((t & ->) & Hev & Hd & Hmc & Htp). simpl_state.
    unfold average. destruct (N.eqb iterations 0) eqn:Hit.
    + wp_step. unfold wp, undefined; cbn [fst snd].
      apply N.eqb_eq in Hit. subst iterations. cbn [N.to_nat rounds] in Hev.
      rewrite app_nil_r in Hev.
      unfold formed_post. rewrite Hd, Hmc, Htp, Hev, <- !app_assoc. cbn.
      repeat split. exists []. split; [reflexivity|]. split; reflexivity.
    + repeat wp_step. unfold formed_post. simpl_state.
      rewrite Hd, Hmc, Htp, Hev, Hit, H, <- !app_assoc. cbn.
      repeat split. eexists. split; [reflexivity|].
      eexists. split; reflexivity.
  - repeat wp_step. unfold formed_post. simpl_state.
    rewrite H, <- !app_assoc. cbn.
    repeat split. exists []. repeat split.
Qed.

Lemma searches_app (a b : list Event) : searches (a ++ b) = (searches a + searches b)%nat.
Proof. unfold searches. now rewrite filter_app, length_app. Qed.

Lemma searches_rounds (pathalgorithm : PathAlgorithm) (n : nat) :
  searches (rounds pathalgorithm n) = n.
Proof.
  induction n as [|n IH]; [reflexivity|].
  cbn [rounds]. unfold searches in *. cbn. now rewrite IH.
Qed.

Lemma statistics_lines_app (a b : list Event) :
  statistics_lines (a ++ b) = statistics_lines a ++ statistics_lines b.
Proof. apply filter_app. Qed.

Lemma statistics_lines_rounds (pathalgorithm : PathAlgorithm) (n : nat) :
  statistics_lines (rounds pathalgorithm n) = [].
Proof. induction n as [|n IH]; [reflexivity | exact IH]. Qed.

Lemma retries_cleared_rounds (pathalgorithm : PathAlgorithm) (n : nat)
  (rest : list Event) :
  retries_cleared true (Some pathalgorithm) (rounds pathalgorithm n ++ rest)
  = retries_cleared true (Some pathalgorithm) rest.
Proof.
  induction n as [|n IH]; [reflexivity|].
  cbn. now rewrite PathAlgorithm_eqb_refl.
Qed.

(** A call of [PathTest], whatever the libraries answer. *)
Lemma PathTest_ok (origin dest : PathLocation) (pathalgorithm : PathAlgorithm)
  (mode : TravelMode) (multi_run : bool) (iterations : N) (using_astar : bool)
  (s : State) :
  wp (PathTest origin dest pathalgorithm mode multi_run iterations using_astar)
     (PathTest_post pathalgorithm mode multi_run iterations s) s.
Proof.
  unfold wp. rewrite PathTest_attempts.
  change (wp (bind (attempts origin dest pathalgorithm mode using_astar)
                (fun pathedges =>
                   if empty pathedges then ret TripPath_default
                   else form_trip_path pathalgorithm origin dest mode multi_run
                          iterations pathedges))
             (PathTest_post pathalgorithm mode multi_run iterations s) s).
  apply wp_bind. eapply wp_weaken; [apply attempts_ok|].
  intros r s1 (k & tried & Hk & Hev & Hsearch & Hclear & Hstat & Hd & Hdef & Hret & Htp).
  assert (Hgiven_up : forall r' : Result TripPath,
             (r' = Undefined -> mode_costing s mode = None) ->
             (forall e, r' <> Thrown e) ->
             (mode_costing s mode <> None -> mode_costing s1 mode <> None) ->
             PathTest_post pathalgorithm mode multi_run iterations s r' s1).
  { intros r' Hr' Ht' Hm'. exists k, tried, []. rewrite app_nil_r.
    split; [exact Hk|]. split; [exact Hev|]. split; [exact Hsearch|].
    split; [exact Hclear|]. split; [exact Hstat|]. split; [exact Hd|].
    split; [now left|]. split; [|split; [exact Ht' | exact Htp]].
    intros Hm _. split; [|now apply Hm'].
    intros Hu. now apply Hm, Hr'. }
  destruct r as [pathedges| |e].
  - destruct (empty pathedges).
    + apply wp_ret. apply Hgiven_up; [discriminate | discriminate |].
      intros Hm. now apply Hdef.
    + eapply wp_weaken; [apply form_trip_path_ok|].
      intros r s2 (Hd2 & Hmc2 & Htp2 & extra & Hev2 & Hextra).
      exists k, tried, (CallBuild :: CallClear pathalgorithm :: extra).
      rewrite Hev2, Hev, Hd2, Hmc2, Htp2, <- app_assoc.
      split; [exact Hk|]. split; [reflexivity|]. split; [exact Hsearch|].
      split; [exact Hclear|]. split; [exact Hstat|]. split; [exact Hd|].
      split; [|split; [|split; [|exact Htp]]].
      * right. exists extra. split; [reflexivity|].
        destruct multi_run.
        -- destruct (N.eqb iterations 0).
           ++ left. apply Hextra.
           ++ right. split; [reflexivity|].
              destruct Hextra as (msecs & He & _). eauto.
        -- left. apply Hextra.
      * intros Hm Hit. split; [|now apply Hdef].
        destruct multi_run.
        -- destruct (N.eqb iterations 0) eqn:Hz.
           ++ apply N.eqb_eq in Hz. now destruct (Hit eq_refl).
           ++ destruct Hextra as (msecs & _ & ->). discriminate.
        -- destruct Hextra as (_ & ->). discriminate.
      * intros e. destruct multi_run.
        -- destruct (N.eqb iterations 0).
           ++ destruct Hextra as (_ & ->). discriminate.
           ++ destruct Hextra as (msecs & _ & ->). discriminate.
        -- destruct Hextra as (_ & ->). discriminate.
  - apply Hgiven_up.
    + intros _. destruct (mode_costing s mode) eqn:Hm; [|reflexivity].
      destruct Hdef as [Hdef _]; [discriminate | now destruct Hdef].
    + discriminate.
    + intros Hm. now apply Hdef.
  - exfalso. exact (Hret e eq_refl).
Qed.

(** *** Calls that may throw *)

Lemma wp_try_GetBestPath (pathalgorithm : PathAlgorithm) (origin dest : PathLocation)
  (mode : TravelMode) (Q : Result (list PathInfo) -> State -> Prop) (s : State) :
  (forall pathedges w,
      Q (Value pathedges) (emit (CallGetBestPath pathalgorithm) (set_reader w s))) ->
  (forall e w,
      GetBestPath_throws pathalgorithm origin dest (mode_costing s) mode (reader s)
      = Some (e, w) ->
      Q (Thrown e) (emit (CallGetBestPath pathalgorithm) (set_reader w s))) ->
  wp (try_GetBestPath pathalgorithm origin dest mode) Q s.
Proof.
  intros Hv Ht. unfold wp, try_GetBestPath.
  destruct (GetBestPath_throws pathalgorithm origin dest (mode_costing s) mode (reader s))
    as [[e w]|] eqn:Hthrows.
  - now apply Ht.
  - unfold do_GetBestPath.
    destruct (GetBestPath pathalgorithm origin dest (mode_costing s) mode (reader s)).
    apply Hv.
Qed.

Lemma wp_try_Clear (pathalgorithm : PathAlgorithm) (Q : Result unit -> State -> Prop)
  (s : State) :
  (forall w, Q (Value tt) (emit (CallClear pathalgorithm) (set_reader w s))) ->
  (forall e w,
      Clear_throws pathalgorithm (reader s) = Some (e, w) ->
      Q (Thrown e) (emit (CallClear pathalgorithm) (set_reader w s))) ->
  wp (try_Clear pathalgorithm) Q s.
Proof.
  intros Hv Ht. unfold wp, try_Clear.
  destruct (Clear_throws pathalgorithm (reader s)) as [[e w]|] eqn:Hthrows.
  - now apply Ht.
  - apply Hv.
Qed.

Lemma wp_try_Build (pathedges : list PathInfo) (origin dest : PathLocation)
  (Q : Result TripPath -> State -> Prop) (s : State) :
  (forall found w, Q (Value found) (emit CallBuild (set_reader w s))) ->
  (forall e w,
      Build_throws pathedges origin dest (reader s) = Some (e, w) ->
      Q (Thrown e) (emit CallBuild (set_reader w s))) ->
  wp (try_Build pathedges origin dest) Q s.
Proof.
  intros Hv Ht. unfold wp, try_Build.
  destruct (Build_throws pathedges origin dest (reader s)) as [[e w]|] eqn:Hthrows.
  - now apply Ht.
  - unfold do_Build. destruct (Build pathedges origin dest (reader s)). apply Hv.
Qed.

Ltac try_step :=
  lazymatch goal with
  | |- wp (bind _ _) _ _ => apply wp_bind
  | |- wp (ret _) _ _ => apply wp_ret
  | |- wp (on_data _) _ _ => apply wp_on_data
  | |- wp (write _) _ _ => apply wp_write
  | |- wp clock _ _ => apply wp_clock
  | |- wp (try_GetBestPath _ _ _ _) _ _ =>
      apply wp_try_GetBestPath; [intros ? ? | intros ? ? ?]
  | |- wp (try_Clear _) _ _ => apply wp_try_Clear; [intros ? | intros ? ? ?]
  | |- wp (try_Build _ _ _) _ _ => apply wp_try_Build; [intros ? ? | intros ? ? ?]
  | |- wp (cost_query _ _) _ _ => apply wp_cost_query
  | |- wp (cost_update _ _ _) _ _ => apply wp_cost_update
  | |- wp (if ?c then _ else _) _ _ => destruct c eqn:?
  | |- match mode_costing _ ?m with _ => _ end =>
      simpl_state;
      lazymatch goal with
      | |- match ?x with _ => _ end => destruct x eqn:?
      end
  end; cbv beta iota zeta; rewrite ?TravelMode_eqb_refl.

(** The conclusion from what was thrown, in a leaf of a run. *)
Ltac thrown_leaf :=
  first
    [ intros _; first [lia | discriminate]
    | intros (Hgbp & Hclear & Hbuild); exfalso;
      match goal with
      | H : GetBestPath_throws _ _ _ _ _ _ = Some _ |- _ => rewrite Hgbp in H
      | H : Clear_throws _ _ = Some _ |- _ => rewrite Hclear in H
      | H : Build_throws _ _ _ _ = Some _ |- _ => rewrite Hbuild in H
      end; discriminate
    | intros (Hgbp & Hclear & Hbuild) Hthrown; injection Hthrown as ->;
      match goal with
      | H : GetBestPath_throws _ _ _ _ _ _ = Some _ |- _ => exact (Hgbp _ _ _ _ _ _ _ H)
      | H : Clear_throws _ _ = Some _ |- _ => exact (Hclear _ _ _ H)
      | H : Build_throws _ _ _ _ = Some _ |- _ => exact (Hbuild _ _ _ _ _ H)
      end ].

Lemma Bool_eqb_refl (b : bool) : Bool.eqb b b = true.
Proof. now destruct b. Qed.

Ltac try_leaf k :=
  exists k; eexists;
  split; [lia|];
  split; [first [intros _; lia | intros (? & Hvalue); discriminate Hvalue]|];
  split; [thrown_leaf|];
  split; [simpl_state; rewrite <- ?app_assoc; cbn [app]; reflexivity|];
  split; [cbn; rewrite ?PathAlgorithm_eqb_refl, ?TravelMode_eqb_refl, ?Bool_eqb_refl;
          reflexivity|];
  split; [intros m; simpl_state; cbn [replay fold_left replay_event];
          unfold update_costing;
          repeat match goal with
                 | H : mode_costing _ _ = _ |- _ => rewrite H
                 end;
          rewrite ?TravelMode_eqb_refl; cbn [option_map];
          first [reflexivity | destruct (TravelMode_eqb m _); reflexivity]|];
  split; [reflexivity|];
  split; [reflexivity|];
  split; [first [intros _ _; discriminate | intros Hnull; congruence]|];
  thrown_leaf.

(** The search attempts of [PathTest] when a call may throw. *)
Lemma try_attempts_ok (origin dest : PathLocation) (pathalgorithm : PathAlgorithm)
  (mode : TravelMode) (using_astar : bool) (s : State) :
  wp (attempts_with try_GetBestPath try_Clear origin dest pathalgorithm mode using_astar)
     (try_post pathalgorithm mode false 0 using_astar s) s.
Proof.
  unfold attempts_with.
  repeat try_step.
  all: simpl_state; rewrite ?TravelMode_eqb_refl in *; try congruence.
  all: repeat match goal with
         | H : Some _ = Some _ |- _ => injection H as H; subst
         end.
  all: destruct using_astar; cbn [negb] in *; try discriminate.
  all: try (try_leaf 0%nat).
  all: try (try_leaf 1%nat).
  all: try (try_leaf 2%nat).
  all: try (try_leaf 3%nat).
Qed.

Lemma forallb_app_true {A : Type} (f : A -> bool) (a b : list A) :
  forallb f a = true -> forallb f b = true -> forallb f (a ++ b) = true.
Proof. intros Ha Hb. rewrite forallb_app, Ha, Hb. reflexivity. Qed.

Lemma replay_app (a b : list Event) (mc : TravelMode -> option cost_t) :
  replay (a ++ b) mc = replay b (replay a mc).
Proof. apply fold_left_app. Qed.

Lemma replay_forming (pathalgorithm : PathAlgorithm) (evs : list Event) :
  forallb (event_of_forming pathalgorithm) evs = true ->
  forall mc, replay evs mc = mc.
Proof.
  induction evs as [|ev rest IH]; intros Hall mc; [reflexivity|].
  cbn [forallb] in Hall. apply andb_true_iff in Hall. destruct Hall as [Hev Hrest].
  cbn [replay fold_left]. fold (replay rest (replay_event mc ev)).
  rewrite (IH Hrest). destruct ev; try reflexivity; discriminate.
Qed.

Lemma forming_of_PathTest (pathalgorithm : PathAlgorithm) (mode : TravelMode)
  (using_astar : bool) (evs : list Event) :
  forallb (event_of_forming pathalgorithm) evs = true ->
  forallb (event_of_PathTest pathalgorithm mode using_astar) evs = true.
Proof.
  induction evs as [|ev rest IH]; [reflexivity|].
  cbn [forallb]. intros Hall. apply andb_true_iff in Hall. destruct Hall as [Hev Hrest].
  rewrite (IH Hrest), andb_true_r. destruct ev; try exact Hev; discriminate.
Qed.

Lemma forming_rounds (pathalgorithm : PathAlgorithm) (n : nat) :
  forallb (event_of_forming pathalgorithm) (rounds pathalgorithm n) = true.
Proof.
  induction n as [|n IH]; [reflexivity|].
  cbn. now rewrite PathAlgorithm_eqb_refl, IH.
Qed.

(** The multi-run loop when a call may throw: it runs its rounds or is
    left by an exception. *)
Lemma try_rerun_ok (pathalgorithm : PathAlgorithm) (origin dest : PathLocation)
  (mode : TravelMode) (n : nat) :
  forall (totalms : N) (s : State),
    wp (rerun_with try_GetBestPath try_Clear pathalgorithm origin dest mode n totalms)
       (fun r s' =>
          exists new,
            events s' = events s ++ new /\
            forallb (event_of_forming pathalgorithm) new = true /\
            data s' = data s /\ mode_costing s' = mode_costing s /\
            trip_path s' = trip_path s /\
            r <> Undefined /\
            (throws_runtime_errors -> r <> Thrown other_exception) /\
            (forall t, r = Value t -> new = rounds pathalgorithm n)) s.
Proof.
  induction n as [|n IH]; intros totalms s; cbn [rerun_with rounds].
  - apply wp_ret. exists []. rewrite app_nil_r.
    repeat split; try reflexivity; discriminate.
  - do 4 try_step.
    + do 4 try_step.
      * eapply wp_weaken; [apply IH|].
        intros r s' (new & Hev & Hall & Hd & Hmc & Htp & Hdef & Hrt & Hval).
        simpl_state.
        exists (CallGetBestPath pathalgorithm :: CallClear pathalgorithm :: new).
        split; [rewrite Hev, <- !app_assoc; reflexivity|].
        split; [cbn; rewrite PathAlgorithm_eqb_refl; exact Hall|].
        split; [exact Hd|]. split; [exact Hmc|]. split; [exact Htp|].
        split; [exact Hdef|]. split; [exact Hrt|].
        intros t Ht. now rewrite (Hval t Ht).
      * exists [CallGetBestPath pathalgorithm; CallClear pathalgorithm].
        split; [simpl_state; rewrite <- !app_assoc; reflexivity|].
        split; [cbn; rewrite PathAlgorithm_eqb_refl; reflexivity|].
        split; [reflexivity|]. split; [reflexivity|]. split; [reflexivity|].
        split; [discriminate|]. split; [thrown_leaf | discriminate].
    + exists [CallGetBestPath pathalgorithm].
      split; [reflexivity|].
      split; [cbn; rewrite PathAlgorithm_eqb_refl; reflexivity|].
      split; [reflexivity|]. split; [reflexivity|]. split; [reflexivity|].
      split; [discriminate|]. split; [thrown_leaf | discriminate].
Qed.

(** The end of [PathTest] when a call may throw. *)
Lemma try_form_trip_path_ok (pathalgorithm : PathAlgorithm) (origin dest : PathLocation)
  (mode : TravelMode) (multi_run : bool) (iterations : N)
  (pathedges : list PathInfo) (s : State) :
  wp (form_trip_path_with try_GetBestPath try_Clear try_Build pathalgorithm origin dest
        mode multi_run iterations pathedges)
     (fun r s' =>
        exists extra,
          events s' = events s ++ extra /\
          forallb (event_of_forming pathalgorithm) extra = true /\
          data s' = data s /\ mode_costing s' = mode_costing s /\
          trip_path s' = trip_path s /\
          ((multi_run = true -> iterations <> 0%N) -> r <> Undefined) /\
          (throws_runtime_errors -> r <> Thrown other_exception)) s.
Proof.
  unfold form_trip_path_with.
  try_step. try_step.
  2:{ exists [CallBuild]. repeat split; try reflexivity; try discriminate.
      thrown_leaf. }
  try_step. try_step.
  2:{ exists [CallBuild; CallClear pathalgorithm].
      split; [simpl_state; rewrite <- !app_assoc; reflexivity|].
      split; [cbn; rewrite PathAlgorithm_eqb_refl; reflexivity|].
      repeat split; try reflexivity; try discriminate. thrown_leaf. }
  try_step.
  destruct multi_run.
  - try_step.
    eapply wp_weaken; [apply try_rerun_ok|].
    intros r s' (new & Hev & Hall & Hd & Hmc & Htp & Hdef & Hrt & Hval). simpl_state.
    assert (Hstop : forall r' : Result TripPath,
               r' <> Undefined -> (throws_runtime_errors -> r' <> Thrown other_exception) ->
               exists extra,
                 events s' = events s ++ extra /\
                 forallb (event_of_forming pathalgorithm) extra = true /\
                 data s' = data s /\ mode_costing s' = mode_costing s /\
                 trip_path s' = trip_path s /\
                 ((true = true -> iterations <> 0%N) -> r' <> Undefined) /\
                 (throws_runtime_errors -> r' <> Thrown other_exception)).
    { intros r' Hr' Hrt'. exists (CallBuild :: CallClear pathalgorithm :: new).
      split; [rewrite Hev, <- !app_assoc; reflexivity|].
      split; [cbn; rewrite PathAlgorithm_eqb_refl; exact Hall|].
      split; [exact Hd|]. split; [exact Hmc|]. split; [exact Htp|].
      split; [intros _; exact Hr' | exact Hrt']. }
    destruct r as [totalms| |e].
    + unfold average. destruct (N.eqb iterations 0) eqn:Hit.
      * try_step. unfold wp, undefined; cbn [fst snd].
        exists (CallBuild :: CallClear pathalgorithm :: new).
        split; [rewrite Hev, <- !app_assoc; reflexivity|].
        split; [cbn; rewrite PathAlgorithm_eqb_refl; exact Hall|].
        split; [exact Hd|]. split; [exact Hmc|]. split; [exact Htp|].
        split; [|discriminate].
        intros Hiter. apply N.eqb_eq in Hit. now destruct (Hiter eq_refl).
      * repeat try_step. simpl_state.
        exists (CallBuild :: CallClear pathalgorithm
                  :: new ++ [LogAverage (totalms / iterations)]).
        split; [rewrite Hev, <- !app_assoc; reflexivity|].
        split.
        { cbn. rewrite PathAlgorithm_eqb_refl. cbn.
          apply forallb_app_true; [exact Hall | reflexivity]. }
        repeat split; try assumption; discriminate.
    + now destruct Hdef.
    + apply Hstop; [discriminate|].
      intros Hthrows Hthrown. injection Hthrown as ->. now apply Hrt.
  - repeat try_step. simpl_state.
    exists [CallBuild; CallClear pathalgorithm].
    split; [rewrite <- !app_assoc; reflexivity|].
    split; [cbn; rewrite PathAlgorithm_eqb_refl; reflexivity|].
    repeat split; try reflexivity; discriminate.
Qed.

Lemma iter_incPasses_data (k : nat) (d : PathStatistics) :
  same_request d (Nat.iter k incPasses d) /\
  same_trip d (Nat.iter k incPasses d) /\
  success (Nat.iter k incPasses d) = success d.
Proof.
  induction k as [|k IH]; cbn [Nat.iter nat_rect]; [repeat split|].
  destruct IH as ((H1 & H2 & H3 & H4) & (G1 & G2 & G3) & Hs).
  repeat split; cbn; assumption.
Qed.

(** A call of [PathTest] when a call may throw, whatever the libraries
    answer. *)
Lemma try_PathTest_ok (origin dest : PathLocation) (pathalgorithm : PathAlgorithm)
  (mode : TravelMode) (multi_run : bool) (iterations : N) (using_astar : bool)
  (s : State) :
  wp (try_PathTest origin dest pathalgorithm mode multi_run iterations using_astar)
     (try_post pathalgorithm mode multi_run iterations using_astar s) s.
Proof.
  unfold wp, try_PathTest. rewrite PathTest_with_attempts.
  match goal with
  | |- ?Q (fst (bind ?m ?f s)) (snd (bind ?m ?f s)) => change (wp (bind m f) Q s)
  end.
  apply wp_bind. eapply wp_weaken; [apply try_attempts_ok|].
  intros r s1 (k & tried & Hk & Hval & Hnever & Hev & Hall & Hreplay & Hd & Htp & Hdef
               & Hrt).
  assert (Hstop : forall r' : Result TripPath,
             ((exists found, r' = Value found) -> (1 <= k)%nat) ->
             (mode_costing s mode <> None -> r' <> Undefined) ->
             (throws_runtime_errors -> r' <> Thrown other_exception) ->
             try_post pathalgorithm mode multi_run iterations using_astar s r' s1).
  { intros r' Hval' Hdef' Hrt'. exists k, tried.
    repeat split; try assumption. intros Hm _. now apply Hdef'. }
  destruct r as [pathedges| |e].
  - assert (Hone : (1 <= k)%nat) by (apply Hval; eauto).
    destruct (empty pathedges).
    + apply wp_ret. apply Hstop; [intros _; exact Hone | discriminate | discriminate].
    + eapply wp_weaken; [apply try_form_trip_path_ok|].
      intros r s2 (extra & Hev2 & Hall2 & Hd2 & Hmc2 & Htp2 & Hdef2 & Hrt2).
      exists k, (tried ++ extra).
      split; [exact Hk|]. split; [intros _; exact Hone|]. split; [intros _; exact Hone|].
      split; [rewrite Hev2, Hev, app_assoc; reflexivity|].
      split.
      { apply forallb_app_true; [exact Hall|]. now apply forming_of_PathTest. }
      split.
      { intros m. rewrite Hmc2, replay_app, (replay_forming _ _ Hall2). apply Hreplay. }
      split; [now rewrite Hd2|]. split; [now rewrite Htp2|].
      split; [intros _ Hiter; now apply Hdef2 | exact Hrt2].
  - apply Hstop; [intros (found & Hf); discriminate Hf | | discriminate].
    intros Hm _. apply (Hdef Hm); [discriminate | reflexivity].
  - apply Hstop; [intros (found & Hf); discriminate Hf | discriminate |].
    intros Hthrows Hthrown. injection Hthrown as ->. now apply Hrt.
Qed.

(** *** What [main] makes of the trip path of a leg *)

Lemma scan_unreachable_from_spec (candidates : list PathEdge) :
  forall flag : bool,
    match scan_unreachable_from flag candidates with
    | None => exists edge, In edge candidates /\ GetGraphTile (id edge) = None
    | Some flag' =>
        (forall edge, In edge candidates -> GetGraphTile (id edge) <> None) /\
        (flag' = true <->
         flag = true \/
         exists edge tile,
           In edge candidates /\ GetGraphTile (id edge) = Some tile /\
           unreachable (directededge tile (id edge)) = true)
    end.
Proof.
  induction candidates as [|e rest IH]; intros flag; cbn [scan_unreachable_from].
  - split; [intros edge []|]. split; [auto|].
    intros [Hf|(edge & tile & [] & _)]. exact Hf.
  - destruct (GetGraphTile (id e)) as [tile|] eqn:Htile.
    2:{ exists e. split; [now left | exact Htile]. }
    specialize (IH (if unreachable (directededge tile (id e)) then true else flag)).
    destruct (scan_unreachable_from _ rest) as [flag'|].
    + destruct IH as [Hloaded Hflag]. split.
      * intros edge [<-|Hin]; [congruence | now apply Hloaded].
      * rewrite Hflag. split.
        -- intros [Hf|(edge & tile' & Hin & Ht & Hu)].
           ++ destruct (unreachable (directededge tile (id e))) eqn:Hue.
              ** right. exists e, tile. repeat split; [now left | assumption..].
              ** now left.
           ++ right. exists edge, tile'. repeat split; [now right | assumption..].
        -- intros [Hf|(edge & tile' & [<-|Hin] & Ht & Hu)].
           ++ left. subst flag. now destruct (unreachable _).
           ++ left. rewrite Htile in Ht. injection Ht as <-. now rewrite Hu.
           ++ right. exists edge, tile'. repeat split; assumption.
    + destruct IH as (edge & Hin & Hnone). exists edge. split; [now right | exact Hnone].
Qed.

(** A scan runs to its end when the reader has the tile of every
    candidate, and then tells whether one is flagged. *)
Lemma scan_unreachable_spec (pl : PathLocation) :
  match scan_unreachable (edges pl) with
  | None => ~ tiles_loaded pl
  | Some flag =>
      tiles_loaded pl /\
      (flag = true <->
       exists edge tile,
         In edge (edges pl) /\ GetGraphTile (id edge) = Some tile /\
         unreachable (directededge tile (id edge)) = true)
  end.
Proof.
  unfold scan_unreachable.
  pose proof (scan_unreachable_from_spec (edges pl) false) as H.
  destruct (scan_unreachable_from false (edges pl)) as [flag|].
  - destruct H as [Hloaded Hflag]. split; [exact Hloaded|].
    rewrite Hflag. split; [intros [Hf|Hex]; [discriminate | exact Hex] | auto].
  - destruct H as (edge & Hin & Hnone). intros Hloaded. now apply (Hloaded edge).
Qed.

Lemma scan_unreachable_loaded (pl : PathLocation) :
  tiles_loaded pl -> exists flag, scan_unreachable (edges pl) = Some flag.
Proof.
  intros Hloaded. pose proof (scan_unreachable_spec pl) as H.
  destruct (scan_unreachable (edges pl)) as [flag|]; [eauto | contradiction].
Qed.

(** What [main] makes of the trip path it holds after the [try] block. *)
Lemma record_leg_eq (directions_options : DirectionsOptions)
  (origin dest : PathLocation) (judged : TripPath) (s : State) :
  record_leg directions_options origin dest judged s
  = if empty (node judged) then
      match scan_unreachable (edges origin), scan_unreachable (edges dest) with
      | Some unreachable_origin, Some unreachable_dest =>
          (Value tt,
           set_data (setSuccess (classify_failure unreachable_origin unreachable_dest)
                       (data s)) s)
      | _, _ => (Undefined, s)
      end
    else (Value tt, set_data (succeeded directions_options judged (data s)) s).
Proof.
  unfold record_leg, bind, scan. destruct (empty (node judged)); cbn [negb].
  - destruct (scan_unreachable (edges origin)); [|reflexivity].
    destruct (scan_unreachable (edges dest)); reflexivity.
  - reflexivity.
Qed.

(** A leg, by the way the call of [PathTest] ended: the trip path
    returned is assigned and judged; after a [std::runtime_error] the
    trip path [main] held is judged; another exception is thrown on. *)
Lemma leg_eq (routetype : string) (directions_options : DirectionsOptions)
  (multi_run : bool) (iterations : N) (mode : TravelMode)
  (path_location : list PathLocation) (i : nat) (origin dest : PathLocation)
  (s : State) :
  nth_error path_location i = Some origin ->
  nth_error path_location (S i) = Some dest ->
  leg routetype directions_options multi_run iterations mode path_location i s
  = match try_PathTest origin dest (choose_pathalgorithm routetype origin dest) mode
            multi_run iterations
            (PathAlgorithm_eqb (choose_pathalgorithm routetype origin dest) astar) s
    with
    | (Value found, s1) =>
        record_leg directions_options origin dest found (set_trip_path found s1)
    | (Undefined, s1) => (Undefined, s1)
    | (Thrown (runtime_error _), s1) =>
        record_leg directions_options origin dest (trip_path s1) s1
    | (Thrown other_exception, s1) => (Thrown other_exception, s1)
    end.
Proof.
  intros Ho Hd. unfold leg. rewrite Ho, Hd. cbv zeta.
  unfold bind, try_catch, assign_trip_path.
  destruct (try_PathTest origin dest (choose_pathalgorithm routetype origin dest) mode
              multi_run iterations
              (PathAlgorithm_eqb (choose_pathalgorithm routetype origin dest) astar) s)
    as [[found| |[what|]] s1]; reflexivity.
Qed.

(** C2, amended: when the first search of a leg returns no path and the
    costing in use does not allow multiple passes, the outcome depends on
    the algorithm.  With the bidirectional or the multimodal one no
    further attempt is made: [PathTest] returns the empty trip path after
    exactly one pass and one search.  With the direct one (A-star) the
    highway transitions are disabled, the algorithm is cleared and one
    more search is made, so the leg has two passes; it fails after them
    when that search returns no path either. *)
Theorem no_multipass_first_search_empty (origin dest : PathLocation)
  (pathalgorithm : PathAlgorithm) (mode : TravelMode) (multi_run : bool)
  (iterations : N) (using_astar : bool) (s : State) (cost : cost_t) (w1 : world) :
  GetBestPath pathalgorithm origin dest (mode_costing s) mode (reader s) = ([], w1) ->
  mode_costing s mode = Some cost ->
  AllowMultiPass cost = false ->
  let run := PathTest origin dest pathalgorithm mode multi_run iterations using_astar s in
  (using_astar = false ->
   fst run = Value TripPath_default /\
   data (snd run) = set_passes (wrap32 (passes (data s) + 1)) (data s) /\
   events (snd run) = events s ++ [CallGetBestPath pathalgorithm] /\
   mode_costing (snd run) = mode_costing s) /\
  (using_astar = true ->
   let relaxed := fun m => if TravelMode_eqb m mode
                           then Some (DisableHighwayTransitions cost)
                           else mode_costing s m in
   let second :=
     GetBestPath pathalgorithm origin dest relaxed mode (Clear pathalgorithm w1) in
   data (snd run) = set_passes (wrap32 (passes (data s) + 2)) (data s) /\
   (exists extra,
       events (snd run)
       = events s ++ [CallGetBestPath pathalgorithm;
                      CallDisableHighwayTransitions mode;
                      CallClear pathalgorithm;
                      CallGetBestPath pathalgorithm] ++ extra /\
       (fst second = [] -> extra = [])) /\
   (fst second = [] -> fst run = Value TripPath_default)).
Proof.
  intros Hfirst Hcost Hallow run. subst run. split.
  - intros ->. unfold PathTest, PathTest_with, bind, do_GetBestPath, on_data, cost_query.
    rewrite Hfirst. norm. rewrite Hcost, Hallow. norm.
    repeat split; reflexivity.
  - intros -> relaxed second.
    unfold PathTest, PathTest_with, bind, do_GetBestPath, on_data, cost_query,
      cost_update, do_Clear.
    rewrite Hfirst. norm. rewrite Hcost, Hallow. norm. rewrite Hcost. norm.
    fold relaxed. fold second. destruct second as [p2 w2]. norm.
    destruct p2 as [|e p2]; norm.
    + split; [|split].
      * count_passes.
      * exists []. rewrite <- !app_assoc. split; reflexivity.
      * reflexivity.
    + match goal with
      | |- context [form_trip_path_with ?g ?c ?b ?a ?o ?d ?m ?mr ?it ?p ?st] =>
          change (form_trip_path_with g c b a o d m mr it p st)
            with (form_trip_path a o d m mr it p st);
          pose proof (form_trip_path_ok a o d m mr it p st) as Hf;
          unfold wp in Hf;
          destruct (form_trip_path a o d m mr it p st) as [rf sf]
      end.
      norm. destruct Hf as (Hd & _ & _ & extra & Hev & _). norm.
      split; [|split].
      * rewrite Hd. count_passes.
      * eexists. rewrite Hev. rewrite <- !app_assoc.
        split; [reflexivity | discriminate].
      * discriminate.
Qed.

(** C4, amended: in a call of [PathTest] (one leg) between one and three
    searches are attempts, each counted as a pass; outside the multi-run
    mode these are all the calls of [GetBestPath], so the search is
    invoked at most 3 times.  In the multi-run mode a leg that found its
    path calls [GetBestPath] [iterations] more times.  Every call of
    [GetBestPath] after the first, a repeated one included, comes after a
    [Clear] of the path algorithm with no call of the algorithm in
    between. *)
Theorem attempts_bounded_and_cleared (origin dest : PathLocation)
  (pathalgorithm : PathAlgorithm) (mode : TravelMode) (multi_run : bool)
  (iterations : N) (using_astar : bool) (s : State) :
  let s' := snd (PathTest origin dest pathalgorithm mode multi_run iterations
                   using_astar s) in
  exists (k repeated : nat) (new : list Event),
    events s' = events s ++ new /\
    (1 <= k <= 3)%nat /\
    passes (data s') = wrap32 (passes (data s) + N.of_nat k) /\
    searches new = (k + repeated)%nat /\
    (repeated = 0%nat \/ multi_run = true /\ repeated = N.to_nat iterations) /\
    retries_cleared false None new = true.
Proof.
  intros s'. subst s'.
  pose proof (PathTest_ok origin dest pathalgorithm mode multi_run iterations
                using_astar s) as H.
  unfold wp in H.
  destruct H as (k & tried & extra & Hk & Hev & Hsearch & Hclear & _ & Hd & Hextra & _).
  destruct Hextra as [->|(more & -> & [->|(Hmr & msecs & ->)])].
  - exists k, 0%nat, tried. rewrite app_nil_r in Hev.
    split; [exact Hev|]. split; [exact Hk|]. split; [now rewrite Hd|].
    split; [lia|]. split; [now left|].
    rewrite <- (app_nil_r tried), Hclear. reflexivity.
  - exists k, 0%nat, (tried ++ [CallBuild; CallClear pathalgorithm]).
    split; [exact Hev|]. split; [exact Hk|]. split; [now rewrite Hd|].
    split; [rewrite searches_app, Hsearch; reflexivity|]. split; [now left|].
    rewrite Hclear. reflexivity.
  - exists k, (N.to_nat iterations),
      (tried ++ CallBuild :: CallClear pathalgorithm
             :: rounds pathalgorithm (N.to_nat iterations) ++ [LogAverage msecs]).
    split; [exact Hev|]. split; [exact Hk|]. split; [now rewrite Hd|].
    split.
    { rewrite searches_app, Hsearch. f_equal.
      change (searches (rounds pathalgorithm (N.to_nat iterations) ++ [LogAverage msecs])
              = N.to_nat iterations).
      rewrite searches_app, searches_rounds. cbn. lia. }
    split; [right; now split|].
    rewrite Hclear. cbn [retries_cleared].
    rewrite retries_cleared_rounds. reflexivity.
Qed.

Lemma bind_ext_both {A B : Type} (m m' : M A) (f g : A -> M B) (s : State) :
  m s = m' s -> (forall a s', f a s' = g a s') -> bind m f s = bind m' g s.
Proof.
  intros Hm H. unfold bind. rewrite Hm.
  destruct (m' s) as [[a| |e] s1]; [apply H | reflexivity | reflexivity].
Qed.

Lemma try_GetBestPath_returns (pathalgorithm : PathAlgorithm)
  (origin dest : PathLocation) (mode : TravelMode) (s : State) :
  never_throws ->
  try_GetBestPath pathalgorithm origin dest mode s
  = do_GetBestPath pathalgorithm origin dest mode s.
Proof. intros (H & _ & _). unfold try_GetBestPath. now rewrite H. Qed.

Lemma try_Clear_returns (pathalgorithm : PathAlgorithm) (s : State) :
  never_throws -> try_Clear pathalgorithm s = do_Clear pathalgorithm s.
Proof. intros (_ & H & _). unfold try_Clear. now rewrite H. Qed.

Lemma try_Build_returns (pathedges : list PathInfo) (origin dest : PathLocation)
  (s : State) :
  never_throws -> try_Build pathedges origin dest s = do_Build pathedges origin dest s.
Proof. intros (_ & _ & H). unfold try_Build. now rewrite H. Qed.

Lemma try_rerun_returns (pathalgorithm : PathAlgorithm) (origin dest : PathLocation)
  (mode : TravelMode) (n : nat) :
  never_throws ->
  forall (totalms : N) (s : State),
    rerun_with try_GetBestPath try_Clear pathalgorithm origin dest mode n totalms s
    = rerun pathalgorithm origin dest mode n totalms s.
Proof.
  intros Hnever. unfold rerun.
  induction n as [|n IH]; intros totalms s; [reflexivity|].
  cbn [rerun_with].
  apply bind_ext. intros t1 s1.
  apply bind_ext_both; [now apply try_GetBestPath_returns|]. intros _ s2.
  apply bind_ext. intros t2 s3.
  apply bind_ext_both; [now apply try_Clear_returns|]. intros _ s4.
  apply IH.
Qed.

Lemma try_form_trip_path_returns (pathalgorithm : PathAlgorithm)
  (origin dest : PathLocation) (mode : TravelMode) (multi_run : bool) (iterations : N)
  (pathedges : list PathInfo) (s : State) :
  never_throws ->
  form_trip_path_with try_GetBestPath try_Clear try_Build pathalgorithm origin dest mode
    multi_run iterations pathedges s
  = form_trip_path pathalgorithm origin dest mode multi_run iterations pathedges s.
Proof.
  intros Hnever. unfold form_trip_path, form_trip_path_with.
  apply bind_ext_both; [now apply try_Build_returns|]. intros found s1.
  apply bind_ext_both; [now apply try_Clear_returns|]. intros _ s2.
  apply bind_ext_both; [|reflexivity].
  destruct multi_run; [|reflexivity].
  apply bind_ext_both; [|reflexivity].
  now apply try_rerun_returns.
Qed.

(** When no call throws, the call of [PathTest] in the [try] block of
    [main] is the call whose calls all return. *)
Lemma try_PathTest_returns (origin dest : PathLocation) (pathalgorithm : PathAlgorithm)
  (mode : TravelMode) (multi_run : bool) (iterations : N) (using_astar : bool)
  (s : State) :
  never_throws ->
  try_PathTest origin dest pathalgorithm mode multi_run iterations using_astar s
  = PathTest origin dest pathalgorithm mode multi_run iterations using_astar s.
Proof.
  intros Hnever. unfold try_PathTest, PathTest, PathTest_with.
  apply bind_ext_both; [now apply try_GetBestPath_returns|]. intros pathedges s1.
  apply bind_ext. intros _ s2.
  apply bind_ext_both.
  - destruct (empty pathedges); [|reflexivity].
    apply bind_ext. intros allow s3.
    destruct allow; [|reflexivity].
    apply bind_ext_both; [now apply try_Clear_returns|]. intros _ s4.
    apply bind_ext. intros _ s5.
    apply bind_ext_both; [now apply try_GetBestPath_returns|]. reflexivity.
  - intros pathedges' s3.
    destruct (empty pathedges').
    + destruct (negb using_astar); [reflexivity|].
      apply bind_ext. intros _ s4.
      apply bind_ext_both; [now apply try_Clear_returns|]. intros _ s5.
      apply bind_ext_both; [now apply try_GetBestPath_returns|]. intros last s6.
      apply bind_ext. intros _ s7.
      destruct (empty last); [reflexivity|].
      now apply try_form_trip_path_returns.
    + now apply try_form_trip_path_returns.
Qed.



End Attempts.

(** ** The legs of a request *)

Lemma PathTest_event_of_legs (routetype : string) (origin dest : PathLocation)
  (mode : TravelMode) (ev : Event) :
  event_of_PathTest (choose_pathalgorithm routetype origin dest) mode
    (PathAlgorithm_eqb (choose_pathalgorithm routetype origin dest) astar) ev = true ->
  event_of_legs routetype mode ev = true.
Proof.
  rewrite choose_pathalgorithm_rule.
  unfold event_of_PathTest, event_of_legs, event_of_routetype.
  destruct (String.eqb routetype "multimodal");
    destruct (String.eqb routetype "pedestrian");
    destruct (share_an_edgeb origin dest);
    destruct ev as [alg|alg|m ua x|m| | |]; try destruct alg;
    try destruct (TravelMode_eqb m mode); cbn; congruence.
Qed.

Lemma legs_events_quiet (routetype : string) (mode : TravelMode) (evs : list Event) :
  forallb (event_of_legs routetype mode) evs = true ->
  statistics_lines evs = [] /\ forallb (event_of_routetype routetype) evs = true.
Proof.
  induction evs as [|ev rest IH]; [split; reflexivity|].
  cbn [forallb]. intros Hall. apply andb_true_iff in Hall. destruct Hall as [Hev Hrest].
  destruct (IH Hrest) as [Hq Hr]. unfold event_of_legs in Hev.
  apply andb_true_iff in Hev. destruct Hev as [Hroute Hmode].
  split.
  - unfold statistics_lines in *. cbn [filter]. rewrite Hq.
    destruct ev; try reflexivity. discriminate Hmode.
  - cbn [forallb]. now rewrite Hroute, Hr.
Qed.

Section Legs.
Context {DC : DynamicCost} {E : Externals}.


Lemma same_request_refl (d : PathStatistics) : same_request d d.
Proof. repeat split. Qed.

Lemma same_request_trans (a b c : PathStatistics) :
  same_request a b -> same_request b c -> same_request a c.
Proof.
  unfold same_request. intros (H1 & H2 & H3 & H4) (G1 & G2 & G3 & G4).
  repeat split; congruence.
Qed.

Lemma classify_failure_outcome (unreachable_origin unreachable_dest : bool) :
  In (classify_failure unreachable_origin unreachable_dest) leg_outcomes.
Proof.
  destruct unreachable_origin, unreachable_dest; cbn; auto 6.
Qed.

(** What [main] makes of the trip path it holds leaves everything but
    the statistics, and in them the pass count and what the request
    gave. *)
Lemma record_leg_ok (directions_options : DirectionsOptions)
  (origin dest : PathLocation) (judged : TripPath) (s : State) :
  let run := record_leg directions_options origin dest judged s in
  events (snd run) = events s /\
  mode_costing (snd run) = mode_costing s /\
  trip_path (snd run) = trip_path s /\
  passes (data (snd run)) = passes (data s) /\
  same_request (data s) (data (snd run)) /\
  (success (data (snd run)) = "success" \/ same_trip (data s) (data (snd run))) /\
  (fst run = Value tt -> In (success (data (snd run))) leg_outcomes) /\
  (tiles_loaded origin -> tiles_loaded dest -> fst run = Value tt).
Proof.
  intros run. subst run. rewrite record_leg_eq.
  assert (Hstay : forall r : Result unit,
             r <> Value tt ->
             (tiles_loaded origin -> tiles_loaded dest -> r = Value tt) ->
             events s = events s /\ mode_costing s = mode_costing s /\
             trip_path s = trip_path s /\ passes (data s) = passes (data s) /\
             same_request (data s) (data s) /\
             (success (data s) = "success" \/ same_trip (data s) (data s)) /\
             (r = Value tt -> In (success (data s)) leg_outcomes) /\
             (tiles_loaded origin -> tiles_loaded dest -> r = Value tt)).
  { intros r Hr Hloaded. repeat split; try assumption.
    - right. repeat split.
    - intros Hv. contradiction. }
  destruct (empty (node judged)).
  - pose proof (scan_unreachable_spec origin) as Hso.
    pose proof (scan_unreachable_spec dest) as Hsd.
    destruct (scan_unreachable (edges origin)) as [unreachable_origin|].
    2:{ apply Hstay; [discriminate | intros Hl; contradiction]. }
    destruct (scan_unreachable (edges dest)) as [unreachable_dest|].
    2:{ apply Hstay; [discriminate | intros _ Hl; contradiction]. }
    cbn [fst snd events mode_costing trip_path data set_data].
    repeat split.
    + right. repeat split.
    + intros _. apply classify_failure_outcome.
  - cbn [fst snd events mode_costing trip_path data set_data].
    repeat split.
    + now left.
    + intros _. now left.
Qed.

Lemma passes_iter_incPasses (k : nat) (d d' : PathStatistics) :
  passes d = passes d' ->
  passes (Nat.iter k incPasses d) = passes (Nat.iter k incPasses d').
Proof.
  intros H. induction k as [|k IH]; [exact H|].
  cbn [Nat.iter nat_rect]. unfold incPasses at 1 3. cbn [passes].
  unfold Nat.iter in IH. now rewrite IH.
Qed.

Lemma replay_there (evs : list Event) :
  forall (mc : TravelMode -> option cost_t) (m : TravelMode),
    mc m <> None -> replay evs mc m <> None.
Proof.
  induction evs as [|ev rest IH]; intros mc m Hm; [exact Hm|].
  cbn [replay fold_left]. fold (replay rest (replay_event mc ev)). apply IH.
  destruct ev as [alg|alg|mode ua x|mode| | |]; try exact Hm.
  - cbn [replay_event]. unfold update_costing.
    destruct (TravelMode_eqb m mode) eqn:Hmode; [|exact Hm].
    assert (m = mode) as -> by (destruct m, mode; (reflexivity || discriminate)).
    destruct (mc mode); [discriminate | contradiction].
  - cbn [replay_event]. unfold update_costing.
    destruct (TravelMode_eqb m mode) eqn:Hmode; [|exact Hm].
    assert (m = mode) as -> by (destruct m, mode; (reflexivity || discriminate)).
    destruct (mc mode); [discriminate | contradiction].
Qed.

Lemma replay_ext (evs : list Event) :
  forall mc mc' : TravelMode -> option cost_t,
    (forall m, mc m = mc' m) -> forall m, replay evs mc m = replay evs mc' m.
Proof.
  induction evs as [|ev rest IH]; intros mc mc' Hext m; [apply Hext|].
  cbn [replay fold_left].
  fold (replay rest (replay_event mc ev)). fold (replay rest (replay_event mc' ev)).
  apply IH. intros m'.
  destruct ev as [alg|alg|mode ua x|mode| | |]; try apply Hext;
    cbn [replay_event]; unfold update_costing; rewrite !Hext; reflexivity.
Qed.

(** A leg whose two locations exist, whatever the libraries answer. *)
Lemma leg_ok (routetype : string) (directions_options : DirectionsOptions)
  (multi_run : bool) (iterations : N) (mode : TravelMode)
  (path_location : list PathLocation) (i : nat) (origin dest : PathLocation)
  (s : State) :
  nth_error path_location i = Some origin ->
  nth_error path_location (S i) = Some dest ->
  wp (leg routetype directions_options multi_run iterations mode path_location i)
     (leg_post routetype mode multi_run iterations origin dest s) s.
Proof.
  intros Ho Hd. unfold wp. rewrite (leg_eq _ _ _ _ _ _ _ origin dest s Ho Hd).
  set (pathalgorithm := choose_pathalgorithm routetype origin dest).
  pose proof (try_PathTest_ok origin dest pathalgorithm mode multi_run iterations
                (PathAlgorithm_eqb pathalgorithm astar) s) as Hp.
  unfold wp in Hp.
  destruct (try_PathTest origin dest pathalgorithm mode multi_run iterations
              (PathAlgorithm_eqb pathalgorithm astar) s) as [r1 s1].
  cbn [fst snd] in Hp.
  destruct Hp as (k & new & Hk & Hval & Hnever & Hev & Hall & Hreplay & Hdata & Htp
                  & Hdef & Hrt).
  assert (Hfit : forallb (event_of_legs routetype mode) new = true).
  { rewrite forallb_forall in *. intros ev Hin.
    apply (PathTest_event_of_legs routetype origin dest). now apply Hall. }
  destruct (iter_incPasses_data k (data s)) as (Hreq & Htrip & Hsucc).
  rewrite <- Hdata in Hreq, Htrip, Hsucc.
  assert (Hstop : forall r : Result unit,
             r <> Value tt ->
             (mode_costing s mode <> None -> (multi_run = true -> iterations <> 0%N) ->
              throws_runtime_errors -> False) ->
             leg_post routetype mode multi_run iterations origin dest s r s1).
  { intros r Hr Hnot. split; [|split].
    - exists k, new. split; [lia|]. split; [intros _ Hv; contradiction|].
      split; [exact Hev|]. split; [exact Hfit|]. split; [exact Hreplay|].
      split; [now rewrite Hdata|]. split; [exact Hreq|].
      intros _ Hm Hit Hthrows _. destruct (Hnot Hm Hit Hthrows).
    - now right.
    - intros Hv. contradiction. }
  assert (Hjudge : forall (judged : TripPath) (sj : State),
             events sj = events s1 -> mode_costing sj = mode_costing s1 ->
             data sj = data s1 ->
             (never_throws -> (1 <= k)%nat) ->
             let run := record_leg directions_options origin dest judged sj in
             leg_post routetype mode multi_run iterations origin dest s
               (fst run) (snd run)).
  { intros judged sj Hevj Hmcj Hdj Hone run. subst run.
    destruct (record_leg_ok directions_options origin dest judged sj)
      as (Hev' & Hmc' & _ & Hp' & Hreq' & Htrip' & Hout' & Hret').
    rewrite Hdj in *. split; [|split].
    - exists k, new. split; [lia|]. split; [intros Hn _; now apply Hone|].
      split; [now rewrite Hev', Hevj|]. split; [exact Hfit|].
      split; [intros m; now rewrite Hmc', Hmcj|].
      split; [now rewrite Hp', Hdata|].
      split; [eapply same_request_trans; eassumption|].
      intros _ _ _ _ Hloaded. apply Hret'.
      + apply (Forall_inv Hloaded).
      + apply (Forall_inv (Forall_inv_tail Hloaded)).
    - destruct Htrip' as [Hs|(T1 & T2 & T3)]; [now left|].
      right. destruct Htrip as (U1 & U2 & U3). repeat split; congruence.
    - exact Hout'. }
  destruct r1 as [found| |[what|]].
  - apply Hjudge; try reflexivity. intros _. apply Hval. eauto.
  - apply Hstop; [discriminate|]. intros Hm Hit _. now apply (Hdef Hm Hit).
  - apply Hjudge; try reflexivity. exact Hnever.
  - apply Hstop; [discriminate|]. intros _ _ Hthrows. now apply (Hrt Hthrows).
Qed.

Lemma wrap32_add_add (p a b : N) : wrap32 (wrap32 (p + a) + b) = wrap32 (p + (a + b)).
Proof.
  unfold wrap32. rewrite N.Div0.add_mod_idemp_l. f_equal. lia.
Qed.

Lemma for_each_app {A : Type} (a b : list A) (body : A -> M unit) (s : State) :
  for_each (a ++ b) body s = bind (for_each a body) (fun _ => for_each b body) s.
Proof.
  revert s. induction a as [|x rest IH]; intros s; cbn [app for_each].
  - reflexivity.
  - rewrite bind_assoc. apply bind_ext. intros _ s1. apply IH.
Qed.

Lemma wrap32_idem (p : N) : wrap32 (wrap32 p) = wrap32 p.
Proof. unfold wrap32. apply N.Div0.mod_mod. Qed.

(** The loop over some legs, whatever the libraries answer. *)
Lemma legs_ok (routetype : string) (directions_options : DirectionsOptions)
  (multi_run : bool) (iterations : N) (mode : TravelMode)
  (path_location : list PathLocation) (legs : list nat) :
  forall s : State,
    wp (for_each legs
          (leg routetype directions_options multi_run iterations mode path_location))
       (legs_post routetype mode multi_run iterations
          (forall i, In i legs -> (S i < List.length path_location)%nat)
          path_location (List.length legs) s) s.
Proof.
  induction legs as [|i rest IH]; intros s.
  - unfold wp. cbn [for_each ret fst snd List.length].
    exists 0%nat, []. rewrite app_nil_r.
    split; [lia|]. split; [intros _ _; lia|]. split; [reflexivity|].
    split; [reflexivity|]. split; [reflexivity|]. split; [reflexivity|].
    split; [apply same_request_refl|]. reflexivity.
  - assert (Hlost : (nth_error path_location i = None
                     \/ nth_error path_location (S i) = None) ->
                    wp (for_each (i :: rest)
                          (leg routetype directions_options multi_run iterations mode
                             path_location))
                       (legs_post routetype mode multi_run iterations
                          (forall j, In j (i :: rest) ->
                                     (S j < List.length path_location)%nat)
                          path_location (List.length (i :: rest)) s) s).
    { intros Hnone.
      assert (Hleg : leg routetype directions_options multi_run iterations mode
                       path_location i s = (Undefined, s)).
      { unfold leg. destruct Hnone as [-> | ->]; [reflexivity|].
        destruct (nth_error path_location i); reflexivity. }
      unfold wp. cbn [for_each]. unfold bind. rewrite Hleg. cbn [fst snd].
      exists 0%nat, []. rewrite app_nil_r.
      split; [lia|]. split; [discriminate|]. split; [reflexivity|].
      split; [reflexivity|]. split; [reflexivity|]. split; [reflexivity|].
      split; [apply same_request_refl|].
      intros Hin. specialize (Hin i (or_introl eq_refl)).
      destruct Hnone as [Hnone|Hnone]; apply nth_error_None in Hnone; lia. }
    destruct (nth_error path_location i) as [origin|] eqn:Ho; [|apply Hlost; now left].
    destruct (nth_error path_location (S i)) as [dest|] eqn:Hd;
      [|apply Hlost; now right].
    clear Hlost.
    pose proof (leg_ok routetype directions_options multi_run iterations mode
                  path_location i origin dest s Ho Hd) as Hleg.
    unfold wp in *. cbn [for_each]. unfold bind.
    destruct (leg routetype directions_options multi_run iterations mode
                path_location i s) as [r1 s1].
    cbn [fst snd] in Hleg.
    destruct Hleg as ((k & new1 & Hk & Hone & Hev1 & Hfit1 & Hreplay1 & Hp1 & Hreq1
                       & Hret1) & _ & _).
    assert (Hloaded : Forall tiles_loaded path_location ->
                      Forall tiles_loaded [origin; dest]).
    { intros Hall. rewrite Forall_forall in Hall.
      repeat constructor; apply Hall; eapply nth_error_In; eassumption. }
    assert (Hstop : forall r : Result unit,
               r <> Value tt ->
               (mode_costing s mode <> None -> (multi_run = true -> iterations <> 0%N) ->
                throws_runtime_errors -> Forall tiles_loaded path_location ->
                r1 = r -> False) ->
               r1 = r ->
               legs_post routetype mode multi_run iterations
                 (forall j, In j (i :: rest) -> (S j < List.length path_location)%nat)
                 path_location (List.length (i :: rest)) s r s1).
    { intros r Hr Hnot Heq. exists k, new1. cbn [List.length].
      split; [lia|]. split; [intros _ Hv; contradiction|].
      split; [exact Hev1|]. split; [exact Hfit1|]. split; [exact Hreplay1|].
      split; [exact Hp1|]. split; [exact Hreq1|].
      intros _ Hm Hit Hthrows Hall. destruct (Hnot Hm Hit Hthrows Hall Heq). }
    destruct r1 as [[]| |e].
    + specialize (IH s1).
      destruct (for_each rest _ s1) as [r s'] eqn:Hrest. cbn [fst snd] in *.
      destruct IH as (K & new2 & HK & Hmany & Hev2 & Hfit2 & Hreplay2 & Hp2 & Hreq2
                      & Hret2).
      exists (K + k)%nat, (new1 ++ new2). cbn [List.length].
      split; [lia|].
      split; [intros Hn Hv; specialize (Hone Hn eq_refl); specialize (Hmany Hn Hv); lia|].
      split; [now rewrite Hev2, Hev1, app_assoc|].
      split; [now apply forallb_app_true|].
      split.
      { intros m. rewrite Hreplay2, replay_app. apply replay_ext. exact Hreplay1. }
      split.
      { rewrite Hp2, Nat.iter_add. now apply passes_iter_incPasses. }
      split; [eapply same_request_trans; eassumption|].
      intros Hin Hm Hit Hthrows Hall. apply Hret2; try assumption.
      * intros j Hj. apply Hin. now right.
      * rewrite Hreplay1. now apply replay_there.
    + apply Hstop; [discriminate | | reflexivity].
      intros Hm Hit Hthrows Hall Heq.
      specialize (Hret1 I Hm Hit Hthrows (Hloaded Hall)). discriminate Hret1.
    + apply Hstop; [discriminate | | reflexivity].
      intros Hm Hit Hthrows Hall Heq.
      specialize (Hret1 I Hm Hit Hthrows (Hloaded Hall)). discriminate Hret1.
Qed.

Lemma legs_post_located (routetype : string) (mode : TravelMode) (multi_run : bool)
  (iterations : N) (located located' : Prop) (used : list PathLocation) (legs : nat)
  (s : State) (r : Result unit) (s' : State) :
  (located' -> located) ->
  legs_post routetype mode multi_run iterations located used legs s r s' ->
  legs_post routetype mode multi_run iterations located' used legs s r s'.
Proof.
  intros Hweak (K & new & HK & Hmany & Hev & Hfit & Hreplay & Hp & Hreq & Hret).
  exists K, new.
  split; [exact HK|]. split; [exact Hmany|]. split; [exact Hev|].
  split; [exact Hfit|]. split; [exact Hreplay|]. split; [exact Hp|].
  split; [exact Hreq|].
  intros Hloc. apply Hret. now apply Hweak.
Qed.

Lemma bind_ret_value (m : M unit) (s s' : State) :
  bind m (fun _ => ret tt) s = (Value tt, s') -> m s = (Value tt, s').
Proof.
  unfold bind. destruct (m s) as [[[]| |e] s1]; cbn [ret]; intros H;
    [exact H | discriminate H | discriminate H].
Qed.

(** C10, amended: the loop over the legs runs to its end when the
    costing in use is there, a multi-run has iterations, what is thrown
    is a [std::runtime_error] and the reader has the tiles of the
    candidates.  Whenever it runs to its end, the outcome is the
    judgement of the trip path [main] holds after the last leg, whatever
    the earlier legs left: the trip path the last call of [PathTest]
    returned, or, when that call threw a [std::runtime_error], the trip
    path as the earlier legs left it.  The outcome is success when that
    trip path has nodes, even if an earlier leg failed, and the failure
    classification of the two locations of the last leg when it has none.
    Trip time, trip distance and maneuver count are overwritten, not
    added to, by a leg that succeeds, so after a success they are those
    of the trip path judged; a last leg that fails leaves them as the
    earlier legs left them.  The pass count is incremented once per
    search that returned: up to three times a leg, and at least once a
    leg when no call throws. *)
Theorem last_leg_sets_outcome (routetype : string)
  (directions_options : DirectionsOptions) (multi_run : bool) (iterations : N)
  (mode : TravelMode) (path_location : list PathLocation) (n : N) (m : nat)
  (s : State) :
  N.to_nat n = S m ->
  (S m < List.length path_location)%nat ->
  (mode_costing s mode <> None -> (multi_run = true -> iterations <> 0%N) ->
   throws_runtime_errors -> Forall tiles_loaded path_location ->
   exists s',
     route_legs routetype directions_options multi_run iterations mode path_location n s
     = (Value tt, s')) /\
  (forall s',
     route_legs routetype directions_options multi_run iterations mode path_location n s
     = (Value tt, s') ->
     exists (s1 : State) (origin dest : PathLocation) (r : Result TripPath)
            (s2 : State) (judged : TripPath),
       for_each (seq 0 m)
         (leg routetype directions_options multi_run iterations mode path_location) s
       = (Value tt, s1) /\
       nth_error path_location m = Some origin /\
       nth_error path_location (S m) = Some dest /\
       try_PathTest origin dest (choose_pathalgorithm routetype origin dest) mode
         multi_run iterations
         (PathAlgorithm_eqb (choose_pathalgorithm routetype origin dest) astar) s1
       = (r, s2) /\
       (r = Value judged \/
        (exists what, r = Thrown (runtime_error what)) /\ judged = trip_path s1) /\
       trip_path s' = judged /\
       (node judged <> [] ->
        let trip_directions := DirectionsBuild directions_options judged in
        success (data s') = "success" /\
        trip_time (data s') = summary_time trip_directions /\
        trip_dist (data s') = summary_length trip_directions /\
        manuevers (data s')
        = wrap32 (N.of_nat (List.length (maneuver trip_directions)))) /\
       (node judged = [] ->
        exists unreachable_origin unreachable_dest,
          scan_unreachable (edges origin) = Some unreachable_origin /\
          scan_unreachable (edges dest) = Some unreachable_dest /\
          success (data s') = classify_failure unreachable_origin unreachable_dest /\
          same_trip (data s1) (data s')) /\
       exists K : nat,
         (K <= 3 * S m)%nat /\
         (never_throws -> (S m <= K)%nat) /\
         passes (data s') = passes (Nat.iter K incPasses (data s))).
Proof.
  intros Hn Hlen.
  pose proof (legs_ok routetype directions_options multi_run iterations mode
                path_location (seq 0 (S m)) s) as Hall.
  rewrite length_seq in Hall.
  unfold wp in Hall. unfold route_legs. rewrite Hn.
  destruct (for_each (seq 0 (S m))
              (leg routetype directions_options multi_run iterations mode path_location)
              s) as [r' s''] eqn:Hwhole.
  cbn [fst snd] in Hall.
  destruct Hall as (K & new & HK & Hmany & _ & _ & _ & Hp & _ & Hret).
  split.
  { intros Hm Hit Hthrows Hloaded. exists s''.
    rewrite (Hret (fun i Hi => ltac:(apply in_seq in Hi; lia)) Hm Hit Hthrows Hloaded).
    reflexivity. }
  intros s' Hrun. injection Hrun as -> ->.
  rewrite seq_S, for_each_app in Hwhole. unfold bind at 1 in Hwhole.
  destruct (for_each (seq 0 m)
              (leg routetype directions_options multi_run iterations mode path_location)
              s) as [[[]| |e] s1]; try discriminate Hwhole.
  cbn [for_each plus] in Hwhole. apply bind_ret_value in Hwhole.
  destruct (nth_error path_location m) as [origin|] eqn:Ho.
  2:{ apply nth_error_None in Ho. lia. }
  destruct (nth_error path_location (S m)) as [dest|] eqn:Hd.
  2:{ apply nth_error_None in Hd. lia. }
  rewrite (leg_eq _ _ _ _ _ _ _ origin dest s1 Ho Hd) in Hwhole.
  set (pathalgorithm := choose_pathalgorithm routetype origin dest) in *.
  pose proof (try_PathTest_ok origin dest pathalgorithm mode multi_run iterations
                (PathAlgorithm_eqb pathalgorithm astar) s1) as Hpt.
  unfold wp in Hpt.
  destruct (try_PathTest origin dest pathalgorithm mode multi_run iterations
              (PathAlgorithm_eqb pathalgorithm astar) s1) as [r s2] eqn:Hrun2.
  cbn [fst snd] in Hpt.
  destruct Hpt as (k & tried & _ & _ & _ & _ & _ & _ & Hdata & Htp & _).
  destruct (iter_incPasses_data k (data s1)) as (_ & Htrip & _).
  rewrite <- Hdata in Htrip.
  assert (Hjudged : forall (judged : TripPath) (sj : State),
             data sj = data s2 -> trip_path sj = judged ->
             record_leg directions_options origin dest judged sj = (Value tt, s') ->
             trip_path s' = judged /\
             (node judged <> [] ->
              let trip_directions := DirectionsBuild directions_options judged in
              success (data s') = "success" /\
              trip_time (data s') = summary_time trip_directions /\
              trip_dist (data s') = summary_length trip_directions /\
              manuevers (data s')
              = wrap32 (N.of_nat (List.length (maneuver trip_directions)))) /\
             (node judged = [] ->
              exists unreachable_origin unreachable_dest,
                scan_unreachable (edges origin) = Some unreachable_origin /\
                scan_unreachable (edges dest) = Some unreachable_dest /\
                success (data s') = classify_failure unreachable_origin unreachable_dest /\
                same_trip (data s1) (data s'))).
  { intros judged sj Hdj Htj Hrec. rewrite record_leg_eq in Hrec.
    destruct (node judged) as [|node0 nodes] eqn:Hnodes; cbn [empty] in Hrec.
    - destruct (scan_unreachable (edges origin)) as [unreachable_origin|];
        [|discriminate Hrec].
      destruct (scan_unreachable (edges dest)) as [unreachable_dest|];
        [|discriminate Hrec].
      injection Hrec as <-. cbn [trip_path data set_data].
      split; [exact Htj|]. split; [intros Hne; now destruct Hne|].
      intros _. exists unreachable_origin, unreachable_dest.
      split; [reflexivity|]. split; [reflexivity|]. split; [reflexivity|].
      rewrite Hdj. exact Htrip.
    - injection Hrec as <-. cbn [trip_path data set_data].
      split; [exact Htj|]. split; [|discriminate].
      intros _. repeat split. }
  destruct r as [found| |[what|]]; try discriminate Hwhole.
  - exists s1, origin, dest, (Value found), s2, found.
    split; [reflexivity|]. split; [reflexivity|]. split; [reflexivity|].
    split; [exact Hrun2|]. split; [now left|].
    destruct (Hjudged found (set_trip_path found s2) eq_refl eq_refl Hwhole)
      as (H1 & H2 & H3).
    split; [exact H1|]. split; [exact H2|]. split; [exact H3|].
    exists K. split; [exact HK|]. split; [intros Hnever; now apply Hmany | exact Hp].
  - exists s1, origin, dest, (Thrown (runtime_error what)), s2, (trip_path s1).
    split; [reflexivity|]. split; [reflexivity|]. split; [reflexivity|].
    split; [exact Hrun2|]. split; [right; split; [eauto | reflexivity]|].
    rewrite Htp in Hwhole.
    destruct (Hjudged (trip_path s1) s2 eq_refl Htp Hwhole) as (H1 & H2 & H3).
    split; [exact H1|]. split; [exact H2|]. split; [exact H3|].
    exists K. split; [exact HK|]. split; [intros Hnever; now apply Hmany | exact Hp].
Qed.

End Legs.

(** ** The whole run *)

Lemma pairs_by_index {A : Type} (l : list A) (d : A) :
  map (fun i => (nth i l d, nth (S i) l d)) (seq 0 (List.length l - 1))
  = combine l (tl l).
Proof.
  induction l as [|a rest IH]; [reflexivity|].
  destruct rest as [|b rest']; [reflexivity|].
  change (combine (a :: b :: rest') (tl (a :: b :: rest')))
    with ((a, b) :: combine (b :: rest') (tl (b :: rest'))).
  replace (List.length (a :: b :: rest') - 1)%nat
    with (S (List.length (b :: rest') - 1)) by (cbn [List.length]; lia).
  rewrite <- IH. cbn [seq map]. f_equal.
  rewrite <- seq_shift, map_map. apply map_ext. intros i. reflexivity.
Qed.

Lemma nth_length_last {A : Type} (l : list A) (d : A) :
  nth (List.length l - 1) l d = last l d.
Proof.
  induction l as [|a rest IH]; [reflexivity|].
  destruct rest as [|b rest']; [reflexivity|].
  change (last (a :: b :: rest') d) with (last (b :: rest') d).
  rewrite <- IH. cbn [List.length Nat.sub nth]. now rewrite Nat.sub_0_r.
Qed.

Lemma legs_at_least_one (n : nat) :
  (2 <= n)%nat -> (Z.of_nat n <= 2 ^ 32)%Z ->
  to_uint32 (Z.of_nat n - 1) = N.of_nat (n - 1) /\ (1 <= n - 1)%nat.
Proof.
  intros Hlow Hhigh. unfold to_uint32.
  rewrite Z.mod_small by lia. split; lia.
Qed.

Lemma legs_in_range (n : nat) (i : nat) :
  (2 <= n)%nat ->
  In i (seq 0 (N.to_nat (to_uint32 (Z.of_nat n - 1)))) -> (S i < n)%nat.
Proof.
  intros Htwo Hin. apply in_seq in Hin. unfold to_uint32 in Hin.
  rewrite Z_N_nat in Hin.
  assert (Hle : ((Z.of_nat n - 1) mod 2 ^ 32 <= Z.of_nat n - 1)%Z).
  { apply Z.mod_le; lia. }
  assert (Hpos : (0 <= (Z.of_nat n - 1) mod 2 ^ 32)%Z).
  { apply Z.mod_pos_bound. lia. }
  lia.
Qed.

Section Run.
Context {DC : DynamicCost} {E : Externals}.

(** The statistics [main] starts from are the initial ones, and the
    costing in use is in the [mode_costing] array. *)
Lemma setup_initial (locations : list Location) (routetype : string)
  (pt json_ptree : ptree) (su : Setup) :
  setup locations routetype pt json_ptree = inr su ->
  (exists p1 p2, data0 su = PathStatistics_new p1 p2) /\
  mode_costing0 su (mode0 su) = Some (cost0 su) /\
  n_legs su = to_uint32 (Z.of_nat (List.length locations) - 1) /\
  (2 <= List.length locations)%nat.
Proof.
  unfold setup. intros H.
  destruct locations as [|first [|second more]]; try discriminate.
  destruct (get_child_optional pt "mjolnir"); try discriminate.
  destruct (construct_costing (lowercase routetype) pt json_ptree) as [x|[mode mc]];
    try discriminate.
  destruct (mc mode) as [cost|] eqn:Hc; try discriminate.
  injection H as <-. cbn.
  split; [eauto|]. split; [exact Hc|]. split; [reflexivity | lia].
Qed.

(** C6: when the connectivity check is asked for and finds the locations
    not connected, [main] sets the outcome fail_no_connectivity, writes
    the statistics line and exits with a failure.  Nothing else was
    written or called: no search was attempted, and the line carries a
    pass count of 0, as well as zero run time, trip time, distances and
    maneuver count. *)
Theorem no_connectivity_exits_before_search (locations : list Location)
  (routetype : string) (multi_run : bool) (iterations : N)
  (directions_options : DirectionsOptions) (pt json_ptree : ptree)
  (su : Setup) (path_location : list PathLocation) (w : world) :
  setup locations routetype pt json_ptree = inr su ->
  find_locations locations (cost0 su) (reader0 su) [] = (Some path_location, w) ->
  connected path_location (List.length locations) w = Some false ->
  exists p1 p2,
    main locations routetype true multi_run iterations directions_options pt json_ptree
    = (EXIT_FAILURE,
       [LogStatistics "%f,%f,%f,%f,%s,%d,%d,%d,%f,%f,%d"
          [ArgFloat (fst p1); ArgFloat (snd p1); ArgFloat (fst p2); ArgFloat (snd p2);
           ArgString "fail_no_connectivity"; ArgUInt 0; ArgUInt 0; ArgUInt 0;
           ArgFloat (float_of_Z 0); ArgFloat (float_of_Z 0); ArgUInt 0]]).
Proof.
  intros Hsetup Hfind Hconn.
  destruct (setup_initial _ _ _ _ _ Hsetup) as ((p1 & p2 & Hdata) & _).
  exists p1, p2. unfold main. rewrite Hsetup, Hfind, Hconn. cbn [negb].
  unfold fail_with, bind, on_data, log, write, initial. cbn. rewrite Hdata. reflexivity.
Qed.

Lemma costing_of_stops (pt json_ptree : ptree) (costing : string) (x : Exit) :
  costing_of pt json_ptree costing = inl x ->
  x = Terminated \/ x = NoDefinedBehaviour.
Proof.
  unfold costing_of.
  destruct (get_costing Create pt json_ptree costing) as [[e| |[e|cost]] pt'];
    intros H; try discriminate; injection H as <-; auto.
Qed.

Lemma construct_costing_stops (routetype : string) (pt json_ptree : ptree) (x : Exit) :
  construct_costing routetype pt json_ptree = inl x ->
  x = Terminated \/ x = NoDefinedBehaviour.
Proof.
  unfold construct_costing.
  destruct (String.eqb routetype "multimodal").
  - destruct (costing_of pt json_ptree "auto") as [x0|[c0 pt0]] eqn:H0.
    { intros H. injection H as <-. eapply costing_of_stops, H0. }
    destruct (costing_of pt0 json_ptree "pedestrian") as [x1|[c1 pt1]] eqn:H1.
    { intros H. injection H as <-. eapply costing_of_stops, H1. }
    destruct (costing_of pt1 json_ptree "bicycle") as [x2|[c2 pt2]] eqn:H2.
    { intros H. injection H as <-. eapply costing_of_stops, H2. }
    destruct (costing_of pt2 json_ptree "transit") as [x3|[c3 pt3]] eqn:H3.
    { intros H. injection H as <-. eapply costing_of_stops, H3. }
    discriminate.
  - destruct (costing_of pt json_ptree routetype) as [x0|[[c0|] pt0]] eqn:H0.
    + intros H. injection H as <-. eapply costing_of_stops, H0.
    + discriminate.
    + intros H. injection H as <-. now right.
Qed.

Lemma setup_stops (locations : list Location) (routetype : string)
  (pt json_ptree : ptree) (x : Exit) :
  setup locations routetype pt json_ptree = inl x ->
  x = Terminated \/ x = NoDefinedBehaviour.
Proof.
  unfold setup. intros H.
  destruct locations as [|first [|second more]];
    try (injection H as <-; now left).
  destruct (get_child_optional pt "mjolnir"); [|injection H as <-; now left].
  destruct (construct_costing (lowercase routetype) pt json_ptree)
    as [x0|[mode mc]] eqn:Hc.
  - injection H as <-. eapply construct_costing_stops, Hc.
  - destruct (mc mode); [discriminate|]. injection H as <-. now right.
Qed.

Lemma setup_routetype (locations : list Location) (routetype : string)
  (pt json_ptree : ptree) (su : Setup) :
  setup locations routetype pt json_ptree = inr su ->
  routetype_lower su = lowercase routetype.
Proof.
  unfold setup. intros H.
  destruct locations as [|first [|second more]]; try discriminate.
  destruct (get_child_optional pt "mjolnir"); try discriminate.
  destruct (construct_costing (lowercase routetype) pt json_ptree) as [x|[mode mc]];
    try discriminate.
  destruct (mc mode); try discriminate.
  injection H as <-. reflexivity.
Qed.

Lemma setup_request (locations : list Location) (routetype : string)
  (pt json_ptree : ptree) (su : Setup) :
  setup locations routetype pt json_ptree = inr su ->
  exists first,
    hd_error locations = Some first /\
    data0 su = PathStatistics_new
                 (pair_of (latlng_ first))
                 (pair_of (latlng_ (nth (N.to_nat (n_legs su)) locations first))) /\
    d1_km su = crow_flies locations first (n_legs su).
Proof.
  unfold setup. intros H.
  destruct locations as [|first [|second more]]; try discriminate.
  destruct (get_child_optional pt "mjolnir"); try discriminate.
  destruct (construct_costing (lowercase routetype) pt json_ptree) as [x|[mode mc]];
    try discriminate.
  destruct (mc mode); try discriminate.
  injection H as <-. exists first. repeat split.
Qed.

(** The crow flies distance is the sum, over the pairs of successive
    locations, of their distances in kilometers, each product and each
    sum rounded to [float]. *)
Lemma crow_flies_pairs (locations : list Location) (first : Location) :
  crow_flies locations first (N.of_nat (List.length locations - 1))
  = fold_left
      (fun d1 p => (d1 + Distance (latlng_ (fst p)) (latlng_ (snd p)) * kKmPerMeter)%f32)
      (combine locations (tl locations)) (float_of_Z 0).
Proof.
  unfold crow_flies. rewrite Nat2N.id, <- (pairs_by_index locations first).
  generalize (seq 0 (List.length locations - 1)) as legs. intros legs.
  generalize (float_of_Z 0) as d1.
  induction legs as [|i rest IH]; intros d1; [reflexivity|].
  cbn [map fold_left fst snd]. apply IH.
Qed.

Lemma find_locations_length (locations : list Location) (cost : cost_t) :
  forall (w : world) (acc found : list PathLocation) (w' : world),
    find_locations locations cost w acc = (Some found, w') ->
    List.length found = (List.length acc + List.length locations)%nat.
Proof.
  induction locations as [|loc rest IH]; intros w acc found w' H; cbn in H.
  - injection H as <- _. cbn. lia.
  - destruct (loki_Search loc cost w) as [[pl|] w1]; [|discriminate].
    apply IH in H. rewrite H, length_app. cbn. lia.
Qed.

(** The legs of a run, whatever the libraries answer: every leg has its
    two locations. *)
Lemma run_legs_ok (locations : list Location) (routetype : string)
  (pt json_ptree : ptree) (su : Setup) (path_location : list PathLocation)
  (w : world) (directions_options : DirectionsOptions) (multi_run : bool)
  (iterations : N) (s : State) :
  setup locations routetype pt json_ptree = inr su ->
  find_locations locations (cost0 su) (reader0 su) [] = (Some path_location, w) ->
  wp (route_legs (routetype_lower su) directions_options multi_run iterations (mode0 su)
        path_location (n_legs su))
     (legs_post (routetype_lower su) (mode0 su) multi_run iterations True
        path_location (N.to_nat (n_legs su)) s) s.
Proof.
  intros Hsetup Hfind.
  destruct (setup_initial _ _ _ _ _ Hsetup) as (_ & _ & Hn & Htwo).
  pose proof (find_locations_length _ _ _ _ _ _ Hfind) as Hlen. cbn [List.length] in Hlen.
  pose proof (legs_ok (routetype_lower su) directions_options multi_run iterations
                (mode0 su) path_location (seq 0 (N.to_nat (n_legs su))) s) as Hlegs.
  rewrite length_seq in Hlegs. unfold wp in *.
  eapply legs_post_located; [|exact Hlegs].
  intros _ i Hi. rewrite Hn in Hi. rewrite Hlen. now apply legs_in_range.
Qed.

(** The last part of [main]: when the loop over the legs runs to its end
    the arc distance and the run time are set and the line is written
    from the statistics the legs left. *)
Lemma route_and_report_eq (su : Setup) (directions_options : DirectionsOptions)
  (multi_run : bool) (iterations : N) (path_location : list PathLocation)
  (s : State) :
  route_and_report su directions_options multi_run iterations path_location s
  = match route_legs (routetype_lower su) directions_options multi_run iterations
            (mode0 su) path_location (n_legs su) s with
    | (Value _, s1) =>
        let d := addRuntime (to_uint32 (now (reader s1) - t0 su))
                   (setArcDist (match units directions_options with
                                | kMiles => (d1_km su * kMilePerKm)%f32
                                | kKilometers => d1_km su
                                end) (data s1)) in
        (Value tt, emit (LogStatistics statistics_format (log_args d)) (set_data d s1))
    | (Undefined, s1) => (Undefined, s1)
    | (Thrown e, s1) => (Thrown e, s1)
    end.
Proof.
  unfold route_and_report, bind.
  destruct (route_legs (routetype_lower su) directions_options multi_run iterations
              (mode0 su) path_location (n_legs su) s) as [[[]| |e] s1]; reflexivity.
Qed.

Lemma finish_cases (locations : list Location) (routetype : string)
  (pt json_ptree : ptree) (su : Setup) (path_location : list PathLocation)
  (w : world) (directions_options : DirectionsOptions) (multi_run : bool)
  (iterations : N) :
  setup locations routetype pt json_ptree = inr su ->
  find_locations locations (cost0 su) (reader0 su) [] = (Some path_location, w) ->
  let run := finish su directions_options multi_run iterations path_location w in
  exists (r : Result unit) (s1 : State),
    route_legs (routetype_lower su) directions_options multi_run iterations (mode0 su)
      path_location (n_legs su) (initial su w)
    = (r, s1) /\
    legs_post (routetype_lower su) (mode0 su) multi_run iterations True path_location
      (N.to_nat (n_legs su)) (initial su w) r s1 /\
    match r with
    | Value _ =>
        fst run = EXIT_SUCCESS /\
        snd run
        = events s1
          ++ [LogStatistics statistics_format
                (log_args
                   (addRuntime (to_uint32 (now (reader s1) - t0 su))
                      (setArcDist (match units directions_options with
                                   | kMiles => (d1_km su * kMilePerKm)%f32
                                   | kKilometers => d1_km su
                                   end) (data s1))))]
    | Undefined => fst run = NoDefinedBehaviour /\ snd run = events s1
    | Thrown _ => fst run = Terminated /\ snd run = events s1
    end.
Proof.
  intros Hsetup Hfind run. subst run. unfold finish. rewrite route_and_report_eq.
  pose proof (run_legs_ok locations routetype pt json_ptree su path_location w
                directions_options multi_run iterations (initial su w) Hsetup Hfind)
    as Hlegs.
  unfold wp in Hlegs.
  destruct (route_legs (routetype_lower su) directions_options multi_run iterations
              (mode0 su) path_location (n_legs su) (initial su w)) as [r s1].
  exists r, s1. split; [reflexivity|]. split; [exact Hlegs|].
  destruct r as [[]| |e]; split; reflexivity.
Qed.

Lemma main_finish (locations : list Location) (routetype : string)
  (connectivity multi_run : bool) (iterations : N)
  (directions_options : DirectionsOptions) (pt json_ptree : ptree) :
  let run := main locations routetype connectivity multi_run iterations
               directions_options pt json_ptree in
  ((fst run = Terminated \/ fst run = NoDefinedBehaviour) /\ snd run = []) \/
  (fst run = EXIT_FAILURE /\
   exists p1 p2 outcome,
     (outcome = "fail_invalid_origin" \/ outcome = "fail_no_connectivity") /\
     snd run = [LogStatistics statistics_format
                  (log_args (setSuccess outcome (PathStatistics_new p1 p2)))]) \/
  (exists (su : Setup) (path_location : list PathLocation) (w : world),
      setup locations routetype pt json_ptree = inr su /\
      find_locations locations (cost0 su) (reader0 su) [] = (Some path_location, w) /\
      run = finish su directions_options multi_run iterations path_location w).
Proof.
  intros run. subst run. unfold main.
  destruct (setup locations routetype pt json_ptree) as [x|su] eqn:Hsetup.
  { left. split; [eapply setup_stops, Hsetup | reflexivity]. }
  destruct (setup_initial _ _ _ _ _ Hsetup) as ((p1 & p2 & Hdata) & _).
  destruct (find_locations locations (cost0 su) (reader0 su) [])
    as [[path_location|] w] eqn:Hfind.
  2:{ right. left. split; [reflexivity|].
      exists p1, p2, "fail_invalid_origin". split; [now left|].
      cbn. now rewrite Hdata. }
  destruct connectivity.
  - destruct (connected path_location (List.length locations) w) as [[|]|];
      cbn [negb].
    + right. right. exists su, path_location, w. repeat split; assumption.
    + right. left. split; [reflexivity|].
      exists p1, p2, "fail_no_connectivity". split; [now right|].
      cbn. now rewrite Hdata.
    + left. split; [now right | reflexivity].
  - right. right. exists su, path_location, w. repeat split; assumption.
Qed.

(** The ways [main] ends: without a statistics line (an uncaught
    exception, or no defined behaviour), at one of the two early exits,
    or after the loop over the legs. *)
Lemma main_cases (locations : list Location) (routetype : string)
  (connectivity multi_run : bool) (iterations : N)
  (directions_options : DirectionsOptions) (pt json_ptree : ptree) :
  let run := main locations routetype connectivity multi_run iterations
               directions_options pt json_ptree in
  ((fst run = Terminated \/ fst run = NoDefinedBehaviour) /\
   statistics_lines (snd run) = []) \/
  (fst run = EXIT_FAILURE /\
   exists p1 p2 outcome,
     (outcome = "fail_invalid_origin" \/ outcome = "fail_no_connectivity") /\
     snd run = [LogStatistics statistics_format
                  (log_args (setSuccess outcome (PathStatistics_new p1 p2)))]) \/
  (fst run = EXIT_SUCCESS /\
   exists (su : Setup) (path_location : list PathLocation) (w : world) (s1 : State),
     setup locations routetype pt json_ptree = inr su /\
     find_locations locations (cost0 su) (reader0 su) [] = (Some path_location, w) /\
     route_legs (routetype_lower su) directions_options multi_run iterations
       (mode0 su) path_location (n_legs su) (initial su w)
     = (Value tt, s1) /\
     legs_post (routetype_lower su) (mode0 su) multi_run iterations True path_location
       (N.to_nat (n_legs su)) (initial su w) (Value tt) s1 /\
     statistics_lines (events s1) = [] /\
     snd run
     = events s1
       ++ [LogStatistics statistics_format
             (log_args
                (addRuntime (to_uint32 (now (reader s1) - t0 su))
                   (setArcDist (match units directions_options with
                                | kMiles => (d1_km su * kMilePerKm)%f32
                                | kKilometers => d1_km su
                                end) (data s1))))]).
Proof.
  intros run.
  destruct (main_finish locations routetype connectivity multi_run iterations
              directions_options pt json_ptree)
    as [[Hexit Hnone]|[Hearly|(su & path_location & w & Hsetup & Hfind & Hrun)]].
  - left. fold run in Hexit, Hnone. split; [exact Hexit|]. now rewrite Hnone.
  - right. left. exact Hearly.
  - fold run in Hrun.
    destruct (finish_cases locations routetype pt json_ptree su path_location w
                directions_options multi_run iterations Hsetup Hfind)
      as (r & s1 & Hlegs & Hpost & Hend).
    cbv zeta in Hend. rewrite <- Hrun in Hend.
    assert (Hquiet : statistics_lines (events s1) = []).
    { destruct Hpost as (K & new & _ & _ & Hev & Hfit & _).
      cbn [events initial app] in Hev. rewrite Hev.
      now apply (legs_events_quiet _ _ _ Hfit). }
    destruct r as [[]| |e].
    + right. right. destruct Hend as [Hexit Hev]. split; [exact Hexit|].
      exists su, path_location, w, s1. repeat split; assumption.
    + left. destruct Hend as [Hexit Hev]. split; [now right | now rewrite Hev].
    + left. destruct Hend as [Hexit Hev]. split; [now left | now rewrite Hev].
Qed.

(** C8, amended: every statistics line [main] writes, at the early exits
    and after the legs alike, carries exactly 11 fields in the fixed
    order origin lat, origin lon, destination lat, destination lon,
    outcome, pass count, run time, trip time, trip distance, straight
    line distance, maneuver count; the distance and maneuver fields are
    always there.  At the two early exits (fail_invalid_origin and
    fail_no_connectivity) they are zero, as are the pass count and the
    times.  After the legs the line is the last thing written.  Whatever
    the outcome, its straight line distance is the one [main] computed
    from the locations: the sum in [float] arithmetic of the distances
    between successive locations in kilometers, converted to miles when
    the directions options ask for miles (for a request of at most 2^32
    locations).  For a request of two locations that did not succeed,
    trip time, trip distance and maneuver count are zero. *)
Theorem statistics_line_fields (locations : list Location) (routetype : string)
  (connectivity multi_run : bool) (iterations : N)
  (directions_options : DirectionsOptions) (pt json_ptree : ptree) :
  let run := main locations routetype connectivity multi_run iterations
               directions_options pt json_ptree in
  (forall ev, In ev (snd run) -> is_statistics ev = true ->
     exists d,
       ev = LogStatistics "%f,%f,%f,%f,%s,%d,%d,%d,%f,%f,%d"
              [ArgFloat (fst (origin d)); ArgFloat (snd (origin d));
               ArgFloat (fst (destination d)); ArgFloat (snd (destination d));
               ArgString (success d); ArgUInt (passes d); ArgUInt (runtime d);
               ArgUInt (trip_time d); ArgFloat (trip_dist d); ArgFloat (arc_dist d);
               ArgUInt (manuevers d)] /\
       List.length (log_args d) = 11%nat /\
       List.length (directives statistics_format) = 11%nat /\
       well_formatted (directives statistics_format) (log_args d) = true) /\
  (fst run = EXIT_FAILURE ->
   exists p1 p2 outcome,
     (outcome = "fail_invalid_origin" \/ outcome = "fail_no_connectivity") /\
     snd run = [LogStatistics statistics_format
                  [ArgFloat (fst p1); ArgFloat (snd p1);
                   ArgFloat (fst p2); ArgFloat (snd p2);
                   ArgString outcome; ArgUInt 0; ArgUInt 0; ArgUInt 0;
                   ArgFloat (float_of_Z 0); ArgFloat (float_of_Z 0); ArgUInt 0]]) /\
  (fst run = EXIT_SUCCESS ->
   exists quiet d,
     snd run = quiet ++ [LogStatistics statistics_format (log_args d)] /\
     statistics_lines quiet = [] /\
     ((Z.of_nat (List.length locations) <= 2 ^ 32)%Z ->
      let km := fold_left
                  (fun d1 p =>
                     (d1 + Distance (latlng_ (fst p)) (latlng_ (snd p)) * kKmPerMeter)%f32)
                  (combine locations (tl locations)) (float_of_Z 0) in
      arc_dist d = match units directions_options with
                   | kMiles => (km * kMilePerKm)%f32
                   | kKilometers => km
                   end) /\
     (List.length locations = 2%nat -> success d <> "success" ->
      trip_time d = 0%N /\ trip_dist d = float_of_Z 0 /\ manuevers d = 0%N)).
Proof.
  intros run.
  pose proof (main_cases locations routetype connectivity multi_run iterations
                directions_options pt json_ptree) as Hcases.
  fold run in Hcases. cbv zeta in Hcases.
  assert (Hline : forall d,
    exists d',
      LogStatistics statistics_format (log_args d)
      = LogStatistics "%f,%f,%f,%f,%s,%d,%d,%d,%f,%f,%d"
          [ArgFloat (fst (origin d')); ArgFloat (snd (origin d'));
           ArgFloat (fst (destination d')); ArgFloat (snd (destination d'));
           ArgString (success d'); ArgUInt (passes d'); ArgUInt (runtime d');
           ArgUInt (trip_time d'); ArgFloat (trip_dist d'); ArgFloat (arc_dist d');
           ArgUInt (manuevers d')] /\
      List.length (log_args d') = 11%nat /\
      List.length (directives statistics_format) = 11%nat /\
      well_formatted (directives statistics_format) (log_args d') = true).
  { intros d. exists d. repeat split. }
  destruct Hcases as [[Hexit Hq]|[[Hexit (p1 & p2 & outcome & Hout & Hev)]
                                 |[Hexit (su & pls & w & s1 & Hsetup & Hfind & Hlegs
                                          & Hpost & Hq & Hev)]]].
  - split; [|split].
    + intros ev Hin Hstat.
      assert (Hmem : In ev (statistics_lines (snd run))).
      { apply filter_In. now split. }
      rewrite Hq in Hmem. destruct Hmem.
    + intros Hf. rewrite Hf in Hexit. destruct Hexit; discriminate.
    + intros Hf. rewrite Hf in Hexit. destruct Hexit; discriminate.
  - split; [|split].
    + intros ev Hin _. rewrite Hev in Hin. destruct Hin as [<-|[]]. apply Hline.
    + intros _. exists p1, p2, outcome. split; [exact Hout|]. rewrite Hev. reflexivity.
    + intros Hf. rewrite Hf in Hexit. discriminate.
  - split; [|split].
    + intros ev Hin Hstat. rewrite Hev in Hin. apply in_app_or in Hin.
      destruct Hin as [Hin|[<-|[]]]; [|apply Hline].
      assert (Hmem : In ev (statistics_lines (events s1))).
      { apply filter_In. now split. }
      rewrite Hq in Hmem. destruct Hmem.
    + intros Hf. rewrite Hf in Hexit. discriminate.
    + intros _. eexists (events s1), _.
      split; [exact Hev|]. split; [exact Hq|].
      destruct (setup_initial _ _ _ _ _ Hsetup) as ((p1 & p2 & Hdata) & _ & Hn & Htwo).
      pose proof (find_locations_length _ _ _ _ _ _ Hfind) as Hlen.
      cbn [List.length] in Hlen.
      cbn [trip_time trip_dist manuevers success arc_dist addRuntime setArcDist].
      split.
      * intros Hmany.
        destruct (setup_request _ _ _ _ _ Hsetup) as (first & _ & _ & Hkm).
        destruct (legs_at_least_one _ Htwo Hmany) as [Hn' _].
        rewrite Hn, Hn', crow_flies_pairs in Hkm. rewrite Hkm.
        destruct (units directions_options); reflexivity.
      * intros Hlocs Hfailed.
        rewrite Hlocs in Hn, Hlen. cbn in Hn.
        unfold route_legs in Hlegs. rewrite Hn in Hlegs.
        change (N.to_nat 1) with 1%nat in Hlegs. cbn [seq for_each] in Hlegs.
        apply bind_ret_value in Hlegs.
        destruct (nth_error pls 0) as [origin|] eqn:Ho.
        2:{ apply nth_error_None in Ho. lia. }
        destruct (nth_error pls 1) as [dest|] eqn:Hd.
        2:{ apply nth_error_None in Hd. lia. }
        pose proof (leg_ok (routetype_lower su) directions_options multi_run iterations
                      (mode0 su) pls 0 origin dest (initial su w) Ho Hd) as Hleg.
        unfold wp in Hleg. rewrite Hlegs in Hleg. cbn [fst snd] in Hleg.
        destruct Hleg as (_ & [Hs|(Ht & Hd' & Hm)] & _).
        -- contradiction.
        -- rewrite Ht, Hd', Hm. cbn [data initial]. rewrite Hdata. repeat split.
Qed.

(** *** The connectivity check *)

Lemma count_color_new (color_counts : list (N * N)) (color : N) :
  ~ In color (map fst color_counts) ->
  count_color color_counts color = color_counts ++ [(color, 1%N)].
Proof.
  induction color_counts as [|[c k] rest IH]; intros Hnew; cbn; [reflexivity|].
  destruct (N.eqb c color) eqn:Hc.
  - apply N.eqb_eq in Hc. exfalso. apply Hnew. now left.
  - rewrite IH; [reflexivity|]. intros Hin. apply Hnew. now right.
Qed.

Lemma count_distinct_colors (colors : list N) :
  forall color_counts,
    NoDup (map fst color_counts ++ colors) ->
    fold_left count_color colors color_counts
    = color_counts ++ map (fun c => (c, 1%N)) colors.
Proof.
  induction colors as [|c rest IH]; intros counts Hnd; cbn.
  - now rewrite app_nil_r.
  - assert (Hnew : ~ In c (map fst counts)).
    { apply NoDup_remove_2 in Hnd. intros Hin. apply Hnd, in_or_app. now left. }
    rewrite (count_color_new _ _ Hnew), IH.
    + now rewrite <- app_assoc.
    + rewrite map_app. cbn [map fst]. rewrite <- app_assoc. exact Hnd.
Qed.

(** The check reads the colors of the last location only. *)
Lemma connected_reads_last_only (front : list PathLocation) (back : PathLocation)
  (nlocations : nat) (w : world) :
  connected (front ++ [back]) nlocations w
  = Some (existsb (fun c => N.eqb (snd c) (N.of_nat nlocations))
                  (fold_left count_color (get_colors back w) [])).
Proof.
  unfold connected. now rewrite rev_unit.
Qed.

(** With the colors of the last location distinct, every count is 1 and
    a request of two or more locations is never found connected. *)
Lemma never_connected_on_distinct_colors (front : list PathLocation)
  (back : PathLocation) (nlocations : nat) (w : world) :
  NoDup (get_colors back w) ->
  (2 <= nlocations)%nat ->
  connected (front ++ [back]) nlocations w = Some false.
Proof.
  intros Hnd Hn. rewrite connected_reads_last_only.
  rewrite (count_distinct_colors _ [] Hnd). cbn [app]. f_equal.
  induction (get_colors back w) as [|c rest IH]; [reflexivity|].
  cbn [map existsb snd].
  inversion Hnd; subst. rewrite (IH H2), orb_false_r.
  apply N.eqb_neq. lia.
Qed.

End Run.

(** ** The scenarios, run *)

Import Scenario.

(** What the scripted path algorithm throws is a [std::runtime_error]. *)
Lemma scripted_throws_runtime_errors (sc : Script) :
  throws_runtime_errors (E := scripted sc).
Proof.
  repeat split; cbn; intros; try discriminate.
  destruct (existsb (Z.eqb (time w)) (throwing sc)); discriminate.
Qed.

(** The scripted reader has the tile of every edge that is not missing. *)
Lemma scripted_tiles_loaded (sc : Script) (pl : PathLocation) :
  missing sc = [] -> tiles_loaded (E := scripted sc) pl.
Proof.
  intros Hnone edge _. cbn. rewrite Hnone. discriminate.
Qed.

(** C3 fails on the code, which goes against its own comment ("are all
    the locations in the same color regions") and against the count it
    compares with: only the colors of the last location are counted.
    Here both locations lie in region 7; counting every location finds
    the request connected, the check of [main] does not, and the run ends
    with fail_no_connectivity. *)
Lemma connectivity_counts_destination_only :
  let path_location := [found "A" [1%N]; found "B" [1%N]] in
  let w := {| time := 0; pending := [] |} in
  get_colors (Externals := scripted dead_end) (found "A" [1%N]) w = [7%N] /\
  get_colors (Externals := scripted dead_end) (found "B" [1%N]) w = [7%N] /\
  connected_by_membership (E := scripted dead_end) path_location 2 w = true /\
  connected (E := scripted dead_end) path_location 2 w = Some false /\
  main (E := scripted dead_end) [place "A"; place "B"] "auto" true false 0 miles
    config no_request
  = (EXIT_FAILURE,
     [LogStatistics "%f,%f,%f,%f,%s,%d,%d,%d,%f,%f,%d"
        [ArgFloat (float_of_Z 0); ArgFloat (float_of_Z 0);
         ArgFloat (float_of_Z 0); ArgFloat (float_of_Z 0);
         ArgString "fail_no_connectivity"; ArgUInt 0; ArgUInt 0; ArgUInt 0;
         ArgFloat (float_of_Z 0); ArgFloat (float_of_Z 0); ArgUInt 0]]).
Proof.
  cbv zeta. repeat split; vm_compute; reflexivity.
Qed.

(** C2, as stated, fails for the direct algorithm: with a costing that
    does not allow multiple passes and a first search that finds nothing,
    [PathTest] searches a second time and the leg fails after two passes,
    not one. *)
Lemma direct_algorithm_retries_without_multipass :
  let s := start dead_end bicycle_cost in
  let origin := found "A" [1%N] in
  let dest := found "B" [1%N] in
  let run := PathTest (E := scripted dead_end) origin dest astar kBicycle false 0 true s in
  fst (GetBestPath (Externals := scripted dead_end) astar origin dest (mode_costing s)
         kBicycle (reader s)) = [] /\
  mode_costing s kBicycle = Some bicycle_cost /\
  AllowMultiPass (DynamicCost := scripted_costing) bicycle_cost = false /\
  fst run = Value TripPath_default /\
  passes (data (snd run)) = 2%N /\
  searches (events (snd run)) = 2%nat.
Proof.
  cbv zeta. repeat split; vm_compute; reflexivity.
Qed.

Lemma no_multipass_first_search_empty_witness :
  let s := start dead_end bicycle_cost in
  let run := PathTest (E := scripted dead_end) (found "A" [1%N]) (found "B" [2%N]) bd
               kBicycle false 0 false s in
  fst run = Value TripPath_default /\
  data (snd run) = set_passes (wrap32 (passes (data s) + 1)) (data s) /\
  events (snd run) = events s ++ [CallGetBestPath bd] /\
  mode_costing (snd run) = mode_costing s.
Proof.
  intros s run.
  apply (no_multipass_first_search_empty (E := scripted dead_end)
           (found "A" [1%N]) (found "B" [2%N]) bd kBicycle false 0 false s bicycle_cost
           {| time := 10; pending := [] |});
    reflexivity.
Defined.

(** C4, as stated, fails in the multi-run mode: with 3 iterations asked
    for, a leg whose first search finds its path calls [GetBestPath] four
    times. *)
Lemma multi_run_searches_more_than_three :
  let run := main (E := scripted always_found) [place "A"; place "B"] "auto" false true
               3 miles config no_request in
  fst run = EXIT_SUCCESS /\
  searches (snd run) = 4%nat /\
  ~ (searches (snd run) <= 3)%nat.
Proof.
  cbv zeta. split; [reflexivity|]. split; [reflexivity|].
  change (~ (4 <= 3)%nat). lia.
Qed.

Lemma no_connectivity_exits_before_search_witness :
  exists p1 p2,
    main (E := scripted dead_end) [place "A"; place "B"] "auto" true false 0 miles
      config no_request
    = (EXIT_FAILURE,
       [LogStatistics "%f,%f,%f,%f,%s,%d,%d,%d,%f,%f,%d"
          [ArgFloat (fst p1); ArgFloat (snd p1); ArgFloat (fst p2); ArgFloat (snd p2);
           ArgString "fail_no_connectivity"; ArgUInt 0; ArgUInt 0; ArgUInt 0;
           ArgFloat (float_of_Z 0); ArgFloat (float_of_Z 0); ArgUInt 0]]).
Proof.
  eapply (no_connectivity_exits_before_search (E := scripted dead_end));
    reflexivity.
Defined.



(** C8, as stated, fails on the distance and maneuver fields of a failed
    request.  A request of two locations whose search fails is written
    with the outcome fail_no_route and a straight line distance that is
    not zero.  A request of three locations whose first leg succeeds and
    whose second leg fails is written with the outcome fail_no_route and
    with the trip distance and the maneuver count of the first leg. *)
Lemma failed_search_has_distances :
  let two := main (E := scripted dead_end) [place "A"; place "B"] "pedestrian" false
               false 0 miles config no_request in
  let three := main (E := scripted one_trip) [place "A"; place "B"; place "C"] "auto"
                 false false 0 miles config no_request in
  (exists quiet d,
      snd two = quiet ++ [LogStatistics statistics_format (log_args d)] /\
      success d = "fail_no_route" /\
      arc_dist d <> float_of_Z 0) /\
  (exists quiet d,
      snd three = quiet ++ [LogStatistics statistics_format (log_args d)] /\
      success d = "fail_no_route" /\
      trip_dist d <> float_of_Z 0 /\
      manuevers d = 2%N /\
      arc_dist d <> float_of_Z 0).
Proof.
  intros two three. split.
  - exists [CallGetBestPath bd],
      {| origin := (float_of_Z 0, float_of_Z 0);
         destination := (float_of_Z 0, float_of_Z 0);
         success := "fail_no_route"; passes := 1; runtime := 10;
         trip_time := 0; trip_dist := float_of_Z 0;
         arc_dist := ((float_of_Z 0 + float_of_Z 5000 * kKmPerMeter) * kMilePerKm)%f32;
         manuevers := 0 |}.
    split; [vm_compute; reflexivity|]. split; [reflexivity|].
    vm_compute. discriminate.
  - exists [CallGetBestPath bd; CallBuild; CallClear bd;
            CallGetBestPath bd; CallClear bd;
            CallRelaxHierarchyLimits kDrive false (float_of_Z 2); CallGetBestPath bd],
      {| origin := (float_of_Z 0, float_of_Z 0);
         destination := (float_of_Z 0, float_of_Z 0);
         success := "fail_no_route"; passes := 3; runtime := 32;
         trip_time := 200; trip_dist := float_of_Z 2;
         arc_dist := ((float_of_Z 0 + float_of_Z 5000 * kKmPerMeter
                       + float_of_Z 5000 * kKmPerMeter) * kMilePerKm)%f32;
         manuevers := 2 |}.
    split; [vm_compute; reflexivity|]. split; [reflexivity|].
    split; [vm_compute; discriminate|]. split; [reflexivity|].
    vm_compute. discriminate.
Qed.

Lemma statistics_line_fields_witness :
  let run := main (E := scripted dead_end) [place "A"; place "B"] "pedestrian" false
               false 0 miles config no_request in
  exists quiet d,
    snd run = quiet ++ [LogStatistics statistics_format (log_args d)] /\
    statistics_lines quiet = [] /\
    arc_dist d = ((float_of_Z 0 + float_of_Z 5000 * kKmPerMeter) * kMilePerKm)%f32 /\
    (success d <> "success" ->
     trip_time d = 0%N /\ trip_dist d = float_of_Z 0 /\ manuevers d = 0%N).
Proof.
  intros run.
  destruct (statistics_line_fields (E := scripted dead_end) [place "A"; place "B"]
              "pedestrian" false false 0 miles config no_request)
    as (_ & _ & Hdone).
  destruct (Hdone eq_refl) as (quiet & d & Hev & Hq & Harc & Hzero).
  exists quiet, d. split; [exact Hev|]. split; [exact Hq|].
  split; [apply Harc; cbn; lia|].
  apply Hzero. reflexivity.
Defined.



(** C10, as stated, fails when the last leg fails after an earlier leg
    succeeded: of three locations the first leg finds a trip of 200
    seconds and two maneuvers, the second leg finds no path.  The line
    written has the outcome of the last leg, fail_no_route, but the trip
    time, trip distance and maneuver count of the first leg; the last leg
    on its own, started from fresh statistics in the same state, leaves
    them zero.  And when the search of the last leg throws, nothing of
    the line is of the last leg: the trip path of the first leg is
    judged again and the line says success, after one pass. *)
Lemma failed_last_leg_keeps_earlier_trip :
  let path_location := [found "A" [1%N]; found "B" [2%N]; found "C" [3%N]] in
  let s0 := start one_trip auto_cost in
  let body := leg (E := scripted one_trip) "auto" miles false 0 kDrive path_location in
  let s1 := snd (body 0%nat s0) in
  let s2 := snd (body 1%nat s1) in
  let alone := snd (body 1%nat (set_data (data s0) s1)) in
  let arc := ((float_of_Z 0 + float_of_Z 5000 * kKmPerMeter
               + float_of_Z 5000 * kKmPerMeter) * kMilePerKm)%f32 in
  data (snd (route_legs (E := scripted one_trip) "auto" miles false 0 kDrive
               path_location 2 s0)) = data s2 /\
  success (data s1) = "success" /\
  success (data s2) = "fail_no_route" /\ success (data alone) = "fail_no_route" /\
  trip_time (data s2) = 200%N /\ trip_time (data alone) = 0%N /\
  manuevers (data s2) = 2%N /\ manuevers (data alone) = 0%N /\
  trip_dist (data s2) <> trip_dist (data alone) /\
  main (E := scripted one_trip) [place "A"; place "B"; place "C"] "auto" false false 0
    miles config no_request
  = (EXIT_SUCCESS,
     [CallGetBestPath bd; CallBuild; CallClear bd;
      CallGetBestPath bd; CallClear bd;
      CallRelaxHierarchyLimits kDrive false (float_of_Z 2);
      CallGetBestPath bd;
      LogStatistics "%f,%f,%f,%f,%s,%d,%d,%d,%f,%f,%d"
        [ArgFloat (float_of_Z 0); ArgFloat (float_of_Z 0);
         ArgFloat (float_of_Z 0); ArgFloat (float_of_Z 0);
         ArgString "fail_no_route"; ArgUInt 3; ArgUInt 32; ArgUInt 200;
         ArgFloat (float_of_Z 2); ArgFloat arc; ArgUInt 2]]) /\
  main (E := scripted second_search_throws) [place "A"; place "B"; place "C"] "auto"
    false false 0 miles config no_request
  = (EXIT_SUCCESS,
     [CallGetBestPath bd; CallBuild; CallClear bd; CallGetBestPath bd;
      LogStatistics "%f,%f,%f,%f,%s,%d,%d,%d,%f,%f,%d"
        [ArgFloat (float_of_Z 0); ArgFloat (float_of_Z 0);
         ArgFloat (float_of_Z 0); ArgFloat (float_of_Z 0);
         ArgString "success"; ArgUInt 1; ArgUInt 21; ArgUInt 200;
         ArgFloat (float_of_Z 2); ArgFloat arc; ArgUInt 2]]).
Proof.
  intros path_location s0 body s1 s2 alone arc.
  do 8 (split; [vm_compute; reflexivity|]).
  split; [vm_compute; discriminate|].
  split; vm_compute; reflexivity.
Qed.

Lemma last_leg_sets_outcome_witness :
  exists s' K,
    route_legs (E := scripted one_trip) "auto" miles false 0 kDrive
      [found "A" [1%N]; found "B" [2%N]; found "C" [3%N]] 2 (start one_trip auto_cost)
    = (Value tt, s') /\
    (K <= 6)%nat /\
    passes (data s') = passes (Nat.iter K incPasses (data (start one_trip auto_cost))).
Proof.
  destruct (last_leg_sets_outcome (E := scripted one_trip) "auto" miles false 0 kDrive
              [found "A" [1%N]; found "B" [2%N]; found "C" [3%N]] 2 1
              (start one_trip auto_cost))
    as [Hreturns Hlast].
  - reflexivity.
  - cbn. lia.
  - destruct Hreturns as (s' & Hrun).
    + discriminate.
    + discriminate.
    + apply scripted_throws_runtime_errors.
    + repeat constructor; now apply scripted_tiles_loaded.
    + destruct (Hlast s' Hrun)
        as (s1 & origin & dest & r & s2 & judged & _ & _ & _ & _ & _ & _ & _ & _
            & K & HK & _ & Hp).
      exists s', K. split; [exact Hrun|]. split; [exact HK | exact Hp].
Defined.

(** ** The narrative of a trip *)

Lemma append_assoc (a b c : string) : ((a ++ b) ++ c)%string = (a ++ (b ++ c))%string.
Proof. induction a as [|x a IH]; cbn; [reflexivity | now rewrite IH]. Qed.

Lemma append_empty_r (a : string) : (a ++ "")%string = a.
Proof. induction a as [|x a IH]; cbn; [reflexivity | now rewrite IH]. Qed.

Lemma span_digits_uint (d : Decimal.uint) (tail : string) :
  span_digits (String " " tail) = (EmptyString, String " " tail) ->
  span_digits (DecimalString.NilEmpty.string_of_uint d ++ String " " tail)
  = (DecimalString.NilEmpty.string_of_uint d, String " " tail).
Proof.
  intros Hstop.
  induction d as [|d IH|d IH|d IH|d IH|d IH|d IH|d IH|d IH|d IH|d IH];
    cbn [DecimalString.NilEmpty.string_of_uint append];
    [exact Hstop | | | | | | | | | | ];
    cbn [span_digits]; rewrite IH; reflexivity.
Qed.

Lemma span_digits_uint_end (d : Decimal.uint) :
  span_digits (DecimalString.NilEmpty.string_of_uint d)
  = (DecimalString.NilEmpty.string_of_uint d, EmptyString).
Proof.
  induction d as [|d IH|d IH|d IH|d IH|d IH|d IH|d IH|d IH|d IH|d IH];
    cbn [DecimalString.NilEmpty.string_of_uint]; [reflexivity | | | | | | | | | | ];
    cbn [span_digits]; rewrite IH; reflexivity.
Qed.

Lemma span_digits_number (n : N) (tail : string) :
  span_digits (to_string n ++ String " " tail) = (to_string n, String " " tail).
Proof. apply span_digits_uint. reflexivity. Qed.

Lemma number_of_to_string (n : N) : number_of (to_string n) = n.
Proof.
  unfold number_of, to_string. rewrite DecimalString.NilEmpty.usu.
  apply DecimalN.Unsigned.of_to.
Qed.

(** [read_time] reads back the hours and the minutes [GetFormattedTime]
    wrote. *)
Lemma read_time_GetFormattedTime (seconds : N) :
  read_time (GetFormattedTime seconds)
  = ((seconds / 3600)%N, ((seconds / 60) mod 60)%N).
Proof.
  unfold GetFormattedTime.
  set (hours := (seconds / 3600)%N). set (minutes := ((seconds / 60) mod 60)%N).
  cbv zeta.
  destruct (0 <? hours)%N eqn:Hh; destruct (0 <? minutes)%N eqn:Hm;
    destruct (hours =? 1)%N; destruct (minutes =? 1)%N;
    rewrite ?append_assoc; cbn [append]; unfold read_time;
    rewrite ?span_digits_number; cbn [starts_with drop fst Ascii.eqb Bool.eqb andb];
    rewrite ?span_digits_number, ?number_of_to_string;
    try (apply N.ltb_ge in Hh; apply N.le_0_r in Hh; rewrite Hh);
    try (apply N.ltb_ge in Hm; apply N.le_0_r in Hm; rewrite Hm);
    cbn [fst]; rewrite ?number_of_to_string; reflexivity.
Qed.

Lemma minutes_split (seconds : N) :
  (seconds / 60 = 60 * (seconds / 3600) + (seconds / 60) mod 60)%N.
Proof.
  change 3600%N with (60 * 60)%N. rewrite <- N.Div0.div_div.
  apply N.Div0.div_mod.
Qed.

(** The text [GetFormattedTime] writes tells the time to the minute and
    nothing more: two times are written alike exactly when they agree in
    their whole minutes. *)
Theorem GetFormattedTime_to_the_minute (a b : N) :
  GetFormattedTime a = GetFormattedTime b <-> (a / 60 = b / 60)%N.
Proof.
  split.
  - intros H. apply (f_equal read_time) in H.
    rewrite !read_time_GetFormattedTime in H. injection H as Hh Hm.
    rewrite (minutes_split a), (minutes_split b). congruence.
  - intros H. unfold GetFormattedTime.
    change 3600%N with (60 * 60)%N. rewrite <- !N.Div0.div_div, H. reflexivity.
Qed.

(** A time under a minute, and only such a time, is written as the empty
    text: the seconds are dropped. *)
Theorem GetFormattedTime_empty (seconds : N) :
  GetFormattedTime seconds = "" <-> (seconds < 60)%N.
Proof.
  split.
  - intros H. apply (f_equal read_time) in H.
    rewrite read_time_GetFormattedTime in H.
    change (read_time "") with (0%N, 0%N) in H. injection H as Hh Hm.
    pose proof (minutes_split seconds) as Hsplit. rewrite Hh, Hm in Hsplit.
    apply N.div_small_iff in Hsplit; [exact Hsplit | discriminate].
  - intros H. unfold GetFormattedTime.
    change 3600%N with (60 * 60)%N.
    rewrite <- N.Div0.div_div, (N.div_small seconds 60 H). reflexivity.
Qed.

(** *** The text of a location *)

Lemma fold_address_from (fields : list string) :
  forall acc : string,
    fold_left (fun s address => ((s ++ address) ++ ",")%string) fields acc
    = (acc ++ fold_left (fun s address => ((s ++ address) ++ ",")%string) fields "")%string.
Proof.
  induction fields as [|f rest IH]; intros acc; cbn [fold_left].
  - now rewrite append_empty_r.
  - rewrite IH, (IH (("" ++ f) ++ ",")%string). cbn [append].
    now rewrite !append_assoc.
Qed.

Lemma erase_last_append (a b : string) :
  b <> "" -> erase_last (a ++ b) = (a ++ erase_last b)%string.
Proof.
  intros Hb. induction a as [|c a IH]; cbn [append]; [reflexivity|].
  cbn [erase_last]. rewrite IH.
  destruct (a ++ b)%string eqn:Hab; [|reflexivity].
  destruct a; [cbn in Hab; congruence | discriminate Hab].
Qed.

Lemma join_address_one (f : string) : join_address [f] = f.
Proof.
  unfold join_address. cbn [fold_left append].
  rewrite erase_last_append by discriminate. apply append_empty_r.
Qed.

Lemma join_address_more (f f' : string) (rest : list string) :
  join_address (f :: f' :: rest) = (f ++ String "," (join_address (f' :: rest)))%string.
Proof.
  unfold join_address. cbn [fold_left append].
  rewrite fold_address_from, (fold_address_from rest ((f' ++ ",")%string)).
  rewrite !append_assoc. cbn [append].
  rewrite erase_last_append by discriminate.
  cbn [erase_last].
  destruct f'; reflexivity.
Qed.

Lemma split_on_plain (sep : ascii) (s : string) :
  has_char sep s = false -> split_on sep s = [s].
Proof.
  induction s as [|c rest IH]; cbn [has_char split_on]; [reflexivity|].
  intros H. apply orb_false_iff in H. destruct H as [Hc Hrest].
  rewrite Hc, (IH Hrest). reflexivity.
Qed.

Lemma split_on_field (sep : ascii) (s tail : string) :
  has_char sep s = false ->
  split_on sep (s ++ String sep tail) = s :: split_on sep tail.
Proof.
  induction s as [|c rest IH]; cbn [has_char split_on append].
  - intros _. now rewrite Ascii.eqb_refl.
  - intros H. apply orb_false_iff in H. destruct H as [Hc Hrest].
    rewrite Hc, (IH Hrest). reflexivity.
Qed.

(** The fields of an address are read back from the joined text when
    none of them holds a comma. *)
Lemma join_address_split (fields : list string) :
  fields <> [] ->
  Forall (fun f => has_char "," f = false) fields ->
  split_on "," (join_address fields) = fields.
Proof.
  intros Hne Hplain. induction Hplain as [|f rest Hf Hrest IH]; [congruence|].
  destruct rest as [|f' rest].
  - rewrite join_address_one. now apply split_on_plain.
  - rewrite join_address_more, split_on_field by exact Hf.
    f_equal. apply IH. discriminate.
Qed.

(** The text [std::to_string] makes of a location is its six address
    fields, name first, separated by single commas with none at the end:
    when no field holds a comma, splitting the text at the commas gives
    the six fields back, empty ones included. *)
Theorem Location_to_string_round_trip
  (street_ city_ state_ zip_ country_ : Location -> string) (l : Location) :
  Forall (fun f => has_char "," f = false)
         [name_ l; street_ l; city_ l; state_ l; zip_ l; country_ l] ->
  split_on "," (Location_to_string street_ city_ state_ zip_ country_ l)
  = [name_ l; street_ l; city_ l; state_ l; zip_ l; country_ l].
Proof.
  intros Hplain. unfold Location_to_string.
  apply join_address_split; [discriminate | exact Hplain].
Qed.

Lemma Location_to_string_round_trip_witness :
  let l := {| latlng_ := {| lat := float_of_Z 0; lng := float_of_Z 0 |};
              name_ := "Empire State Building" |} in
  Location_to_string (fun _ => "350 5th Avenue") (fun _ => "New York") (fun _ => "NY")
    (fun _ => "") (fun _ => "US") l
  = "Empire State Building,350 5th Avenue,New York,NY,,US" /\
  split_on "," (Location_to_string (fun _ => "350 5th Avenue") (fun _ => "New York")
                  (fun _ => "NY") (fun _ => "") (fun _ => "US") l)
  = ["Empire State Building"; "350 5th Avenue"; "New York"; "NY"; ""; "US"].
Proof.
  intros l. split; [reflexivity|].
  apply (Location_to_string_round_trip (fun _ => "350 5th Avenue") (fun _ => "New York")
           (fun _ => "NY") (fun _ => "") (fun _ => "US") l).
  repeat constructor.
Defined.

(** *** The lines of the narrative *)

Lemma instruction_numbers_app (a b : list Line) :
  instruction_numbers (a ++ b) = instruction_numbers a ++ instruction_numbers b.
Proof.
  induction a as [|line a IH]; [reflexivity|].
  destruct line as [s|fmt [|[x|s|m] args]]; cbn [app instruction_numbers];
    try exact IH.
  destruct (String.eqb fmt instruction_format); cbn [app]; now rewrite IH.
Qed.

Lemma instruction_numbers_optional (fmt : string) (instruction : option string) :
  instruction_numbers (optional_line fmt instruction) = [].
Proof. destruct instruction; reflexivity. Qed.

Lemma filter_separator_optional (fmt : string) (instruction : option string) :
  filter is_separator (optional_line fmt instruction) = [].
Proof. destruct instruction; reflexivity. Qed.

Section NarrativeLines.
Variables street_ city_ state_ zip_ country_ : Location -> string.
Variables depart_instruction verbal_depart_instruction
          verbal_transition_alert_instruction verbal_pre_transition_instruction
          verbal_post_transition_instruction arrive_instruction
          verbal_arrive_instruction : Maneuver -> option string.

Local Abbreviation narrate_ :=
  (narrate depart_instruction verbal_depart_instruction
     verbal_transition_alert_instruction verbal_pre_transition_instruction
     verbal_post_transition_instruction arrive_instruction verbal_arrive_instruction).

Local Abbreviation narrative_ :=
  (narrative street_ city_ state_ zip_ country_
     depart_instruction verbal_depart_instruction
     verbal_transition_alert_instruction verbal_pre_transition_instruction
     verbal_post_transition_instruction arrive_instruction verbal_arrive_instruction).

Lemma narrate_numbers (units_text : string) (size : Z) (maneuvers : list Maneuver) :
  forall (i : Z) (m : N),
    instruction_numbers (narrate_ units_text size i m maneuvers)
    = map (fun k => (m + N.of_nat k)%N) (seq 0 (List.length maneuvers)).
Proof.
  induction maneuvers as [|maneuver rest IH]; intros i m; [reflexivity|].
  cbn [narrate].
  rewrite !instruction_numbers_app, !instruction_numbers_optional, IH.
  cbn [app List.length seq map].
  change (instruction_numbers
            [Format instruction_format
               [ArgUInt m; ArgString (text_instruction maneuver);
                ArgFloat (maneuver_length maneuver); ArgString units_text]])
    with [m].
  replace (instruction_numbers (if (i <? size - 1)%Z then [separator_line] else []))
    with (@nil N) by (destruct (i <? size - 1)%Z; reflexivity).
  cbn [app]. f_equal; [f_equal; lia|].
  rewrite <- seq_shift, map_map. apply map_ext. intros k. lia.
Qed.

Lemma narrate_separators (units_text : string) (size : Z) (maneuvers : list Maneuver) :
  forall (i : Z) (m : N),
    (i + Z.of_nat (List.length maneuvers) = size)%Z ->
    List.length (filter is_separator (narrate_ units_text size i m maneuvers))
    = pred (List.length maneuvers).
Proof.
  induction maneuvers as [|maneuver rest IH]; intros i m Hsize; [reflexivity|].
  cbn [narrate].
  rewrite !filter_app, !filter_separator_optional. cbn [app filter is_separator].
  rewrite length_app, IH by (cbn [List.length] in Hsize; lia).
  cbn [List.length] in *.
  destruct (i <? size - 1)%Z eqn:Hi.
  - apply Z.ltb_lt in Hi. destruct rest; cbn [List.length] in *; [lia | reflexivity].
  - apply Z.ltb_ge in Hi. destruct rest; cbn [List.length] in *; [reflexivity | lia].
Qed.

(** The instruction lines of the narrative are numbered 1, 2, ... in the
    order of the maneuvers, one line a maneuver, whichever optional
    instructions the maneuvers carry. *)
Theorem narrative_numbers_the_maneuvers (directions_options : DirectionsOptions)
  (trip_directions : TripDirections) (origin destination : Location) :
  instruction_numbers (narrative_ directions_options trip_directions origin destination)
  = map N.of_nat (seq 1 (List.length (maneuver trip_directions))).
Proof.
  unfold narrative. cbv zeta.
  rewrite !instruction_numbers_app, narrate_numbers.
  cbn [instruction_numbers app]. rewrite app_nil_r.
  rewrite <- seq_shift, map_map. apply map_ext. intros k. lia.
Qed.

(** The narrative holds a separator line between the blocks of two
    successive maneuvers and none after the last: one less than there
    are maneuvers, and none for a trip without maneuvers. *)
Theorem narrative_separates_the_maneuvers (directions_options : DirectionsOptions)
  (trip_directions : TripDirections) (origin destination : Location) :
  List.length (filter is_separator
                 (narrative_ directions_options trip_directions origin destination))
  = pred (List.length (maneuver trip_directions)).
Proof.
  unfold narrative. cbv zeta.
  rewrite !filter_app, !length_app, narrate_separators by lia.
  cbn. lia.
Qed.

End NarrativeLines.

(** ** The choice of the algorithm and the connectivity check, further *)

Lemma share_an_edge_sym (origin dest : PathLocation) :
  share_an_edge origin dest -> share_an_edge dest origin.
Proof.
  intros (edge1 & edge2 & H1 & H2 & H). exists edge2, edge1. auto.
Qed.

(** The algorithm chosen for a leg does not depend on its direction: the
    leg from [dest] to [origin] is routed with the algorithm of the leg
    from [origin] to [dest]. *)
Theorem choose_pathalgorithm_symmetric (routetype : string)
  (origin dest : PathLocation) :
  choose_pathalgorithm routetype origin dest
  = choose_pathalgorithm routetype dest origin.
Proof.
  rewrite !choose_pathalgorithm_rule.
  destruct (String.eqb routetype "multimodal"); [reflexivity|].
  destruct (String.eqb routetype "pedestrian"); [reflexivity|].
  destruct (share_an_edgeb origin dest) eqn:Hod;
    destruct (share_an_edgeb dest origin) eqn:Hdo; try reflexivity.
  - apply share_an_edgeb_spec, share_an_edge_sym, share_an_edgeb_spec in Hod. congruence.
  - apply share_an_edgeb_spec, share_an_edge_sym, share_an_edgeb_spec in Hdo. congruence.
Qed.

Lemma count_of_count_color (color_counts : list (N * N)) (color c : N) :
  count_of (count_color color_counts color) c
  = if N.eqb color c then (count_of color_counts c + 1)%N else count_of color_counts c.
Proof.
  induction color_counts as [|[c0 k0] rest IH]; cbn [count_color count_of].
  - destruct (N.eqb color c); reflexivity.
  - destruct (N.eqb c0 color) eqn:H0; cbn [count_of].
    + apply N.eqb_eq in H0. subst c0. destruct (N.eqb color c); reflexivity.
    + rewrite IH. destruct (N.eqb c0 c) eqn:H1; [|reflexivity].
      apply N.eqb_eq in H1. subst c0. now rewrite N.eqb_sym, H0.
Qed.

Lemma keys_count_color (color_counts : list (N * N)) (color c : N) :
  In c (map fst (count_color color_counts color))
  <-> In c (map fst color_counts) \/ c = color.
Proof.
  induction color_counts as [|[c0 k0] rest IH]; cbn [count_color map fst In].
  - intuition congruence.
  - destruct (N.eqb c0 color) eqn:H0; cbn [map fst In].
    + apply N.eqb_eq in H0. intuition congruence.
    + rewrite IH. tauto.
Qed.

Lemma NoDup_count_color (color_counts : list (N * N)) (color : N) :
  NoDup (map fst color_counts) -> NoDup (map fst (count_color color_counts color)).
Proof.
  induction color_counts as [|[c0 k0] rest IH]; cbn [count_color map fst]; intros Hnd.
  - repeat constructor. intros [].
  - inversion Hnd as [|x l Hnotin Hrest]; subst.
    destruct (N.eqb c0 color) eqn:H0; cbn [map fst]; [now constructor|].
    constructor; [|now apply IH].
    rewrite keys_count_color. intros [Hin| ->]; [contradiction|].
    rewrite N.eqb_refl in H0. discriminate.
Qed.

Lemma counted_colors (colors : list N) :
  forall color_counts : list (N * N),
    NoDup (map fst color_counts) ->
    NoDup (map fst (fold_left count_color colors color_counts)) /\
    (forall c, In c (map fst (fold_left count_color colors color_counts))
               <-> In c (map fst color_counts) \/ In c colors) /\
    (forall c, count_of (fold_left count_color colors color_counts) c
               = (count_of color_counts c + N.of_nat (count_occ N.eq_dec colors c))%N).
Proof.
  induction colors as [|color rest IH]; intros cc Hnd; cbn [fold_left].
  - split; [exact Hnd|]. split; [intros c; cbn; tauto|].
    intros c. cbn. lia.
  - destruct (IH _ (NoDup_count_color cc color Hnd)) as (Hnd' & Hkeys & Hcount).
    split; [exact Hnd'|]. split.
    + intros c. rewrite Hkeys, keys_count_color. cbn [In]. intuition congruence.
    + intros c. rewrite Hcount, count_of_count_color. cbn [count_occ].
      destruct (N.eq_dec color c) as [-> |Hne].
      * rewrite N.eqb_refl. lia.
      * apply N.eqb_neq in Hne. rewrite Hne. reflexivity.
Qed.

Lemma count_of_In (color_counts : list (N * N)) (c k : N) :
  NoDup (map fst color_counts) -> In (c, k) color_counts -> count_of color_counts c = k.
Proof.
  induction color_counts as [|[c0 k0] rest IH]; cbn [map fst In count_of]; [tauto|].
  intros Hnd [Heq|Hin].
  - injection Heq as -> ->. now rewrite N.eqb_refl.
  - inversion Hnd as [|x l Hnotin Hrest]; subst.
    destruct (N.eqb c0 c) eqn:H0; [|now apply IH].
    apply N.eqb_eq in H0. subst c0. exfalso. apply Hnotin.
    apply in_map_iff. now exists (c, k).
Qed.

Lemma In_count_of (color_counts : list (N * N)) (c : N) :
  In c (map fst color_counts) -> In (c, count_of color_counts c) color_counts.
Proof.
  induction color_counts as [|[c0 k0] rest IH]; cbn [map fst In count_of]; [tauto|].
  destruct (N.eqb c0 c) eqn:H0.
  - apply N.eqb_eq in H0. subst c0. now left.
  - intros [-> |Hin]; [rewrite N.eqb_refl in H0; discriminate|]. right. now apply IH.
Qed.

Section Connectivity.
Context {DC : DynamicCost} {E : Externals}.

(** The connectivity check of [main] passes exactly when some color
    occurs, among the colors of the last location, as many times as the
    request has locations; the colors of the other locations play no
    part. *)
Theorem connected_counts_last_location (front : list PathLocation)
  (back : PathLocation) (nlocations : nat) (w : world) :
  connected (front ++ [back]) nlocations w = Some true
  <-> exists color,
        In color (get_colors back w) /\
        count_occ N.eq_dec (get_colors back w) color = nlocations.
Proof.
  rewrite connected_reads_last_only.
  destruct (counted_colors (get_colors back w) [] (NoDup_nil N))
    as (Hnd & Hkeys & Hcount).
  split.
  - intros H. injection H as H. apply existsb_exists in H.
    destruct H as ([c k] & Hin & Hk). cbn [snd] in Hk. apply N.eqb_eq in Hk. subst k.
    exists c. split.
    + apply (in_map fst) in Hin. apply Hkeys in Hin. cbn in Hin. tauto.
    + apply (count_of_In _ _ _ Hnd) in Hin. rewrite Hcount in Hin. cbn in Hin. lia.
  - intros (c & Hin & Hocc). f_equal. apply existsb_exists.
    exists (c, count_of (fold_left count_color (get_colors back w) []) c). split.
    + apply In_count_of, Hkeys. now right.
    + cbn [snd]. rewrite Hcount, Hocc. cbn. apply N.eqb_refl.
Qed.

End Connectivity.

(** ** The search attempts and the costing *)

Section Escalations.
Context {DC : DynamicCost} {E : Externals}.

Ltac simpl_state :=
  cbn [reader mode_costing data trip_path events set_reader set_mode_costing set_data
       set_trip_path emit
       fst snd] in *.

Ltac norm :=
  cbn [reader mode_costing data trip_path events set_reader set_mode_costing set_data
       set_trip_path emit
       fst snd empty ret negb] in *.

Ltac count_passes :=
  simpl_state;
  match goal with
  | |- context [incPasses (data ?s)] => rewrite (incPasses_set_passes (data s))
  end;
  rewrite ?incPasses_again; reflexivity.

(** A first search that finds a path: one pass, the costing not looked
    at, the trip path built from the path found and the algorithm
    cleared.  A multi-run adds its rounds and the average; with no
    iterations the average is a division by zero. *)
Theorem found_at_first_search (origin dest : PathLocation)
  (pathalgorithm : PathAlgorithm) (mode : TravelMode) (multi_run : bool)
  (iterations : N) (using_astar : bool) (s : State)
  (pathedges : list PathInfo) (w1 : world) :
  GetBestPath pathalgorithm origin dest (mode_costing s) mode (reader s)
  = (pathedges, w1) ->
  pathedges <> [] ->
  let run := PathTest origin dest pathalgorithm mode multi_run iterations using_astar s in
  data (snd run) = set_passes (wrap32 (passes (data s) + 1)) (data s) /\
  mode_costing (snd run) = mode_costing s /\
  (exists extra,
      events (snd run)
      = events s ++ CallGetBestPath pathalgorithm :: CallBuild
                 :: CallClear pathalgorithm :: extra /\
      (multi_run = false -> extra = []) /\
      (multi_run = true -> iterations = 0%N -> extra = []) /\
      (multi_run = true -> iterations <> 0%N ->
       exists msecs,
         extra = rounds pathalgorithm (N.to_nat iterations) ++ [LogAverage msecs])) /\
  (multi_run = true /\ iterations = 0%N -> fst run = Undefined) /\
  (multi_run = false \/ iterations <> 0%N ->
   fst run = Value (fst (Build pathedges origin dest w1))).
Proof.
  intros Hfirst Hfound run. subst run.
  destruct pathedges as [|e pathedges]; [congruence|].
  unfold PathTest, PathTest_with, bind, do_GetBestPath, on_data. rewrite Hfirst. norm.
  match goal with
  | |- context [form_trip_path_with ?g ?c ?b ?a ?o ?d ?m ?mr ?it ?p ?st] =>
      change (form_trip_path_with g c b a o d m mr it p st)
        with (form_trip_path a o d m mr it p st);
      pose proof (form_trip_path_ok a o d m mr it p st) as Hf;
      unfold wp in Hf;
      destruct (form_trip_path a o d m mr it p st) as [rf sf]
  end.
  norm. destruct Hf as (Hd & Hmc & _ & extra & Hev & Hextra). norm.
  split; [rewrite Hd; count_passes|]. split; [exact Hmc|]. split.
  - exists extra. rewrite Hev, <- !app_assoc. split; [reflexivity|].
    destruct multi_run.
    + destruct (N.eqb iterations 0) eqn:Hz.
      * split; [discriminate|]. split; [intros _ _; apply Hextra|].
        apply N.eqb_eq in Hz. intros _ Hn. contradiction.
      * split; [discriminate|]. split.
        -- apply N.eqb_neq in Hz. intros _ Hn. contradiction.
        -- intros _ _. destruct Hextra as (msecs & He & _). eauto.
    + split; [intros _; apply Hextra|]. split; discriminate.
  - split.
    + intros [-> ->]. apply Hextra.
    + intros [-> |Hn].
      * apply Hextra.
      * destruct multi_run; [|apply Hextra].
        apply N.eqb_neq in Hn. rewrite Hn in Hextra.
        destruct Hextra as (msecs & _ & Hr). exact Hr.
Qed.

Lemma TravelMode_eqb_eq (m mode : TravelMode) :
  TravelMode_eqb m mode = true -> m = mode.
Proof. destruct m, mode; intros H; (reflexivity || discriminate H). Qed.

Lemma TravelMode_eqb_neq (m mode : TravelMode) :
  m <> mode -> TravelMode_eqb m mode = false.
Proof. destruct m, mode; intros H; try reflexivity; congruence. Qed.

(** The calls the legs make on a costing are on the costing in use. *)
Lemma replay_other_mode (routetype : string) (mode : TravelMode) (evs : list Event) :
  forallb (event_of_legs routetype mode) evs = true ->
  forall (mc : TravelMode -> option cost_t) (m : TravelMode),
    m <> mode -> replay evs mc m = mc m.
Proof.
  induction evs as [|ev rest IH]; intros Hall mc m Hm; [reflexivity|].
  cbn [forallb] in Hall. apply andb_true_iff in Hall. destruct Hall as [Hev Hrest].
  cbn [replay fold_left]. fold (replay rest (replay_event mc ev)).
  rewrite (IH Hrest _ _ Hm).
  unfold event_of_legs in Hev. apply andb_true_iff in Hev. destruct Hev as [_ Hev].
  destruct ev as [alg|alg|changed ua x|changed| | |]; try reflexivity;
    cbn [replay_event]; unfold update_costing;
    apply TravelMode_eqb_eq in Hev; subst changed;
    now rewrite (TravelMode_eqb_neq _ _ Hm).
Qed.

(** Over the legs of a request the costing is only changed by the
    escalations of [PathTest], each made on what the earlier ones left:
    the costing array after the legs is the array before them with the
    calls of [RelaxHierarchyLimits] and [DisableHighwayTransitions] that
    are among the events of the legs made on it again, every one of them
    and in their order.  So the costing is never replaced or set back,
    neither between two legs nor after a call of [PathTest] that threw:
    what a leg relaxed or disabled is what every later leg starts from.
    The costing of the modes that are not in use is never touched. *)
Theorem legs_escalate_costing (routetype : string)
  (directions_options : DirectionsOptions) (multi_run : bool) (iterations : N)
  (mode : TravelMode) (path_location : list PathLocation) (n : N) (s : State) :
  let s' := snd (route_legs routetype directions_options multi_run iterations mode
                   path_location n s) in
  exists new,
    events s' = events s ++ new /\
    (forall m, mode_costing s' m = replay new (mode_costing s) m) /\
    (forall m, m <> mode -> mode_costing s' m = mode_costing s m).
Proof.
  intros s'. subst s'. unfold route_legs.
  pose proof (legs_ok routetype directions_options multi_run iterations mode
                path_location (seq 0 (N.to_nat n)) s) as Hlegs.
  unfold wp in Hlegs.
  destruct Hlegs as (K & new & _ & _ & Hev & Hfit & Hreplay & _).
  exists new. split; [exact Hev|]. split; [exact Hreplay|].
  intros m Hm. rewrite Hreplay. now apply (replay_other_mode routetype mode).
Qed.

(** With a costing that allows multiple passes and searches that find
    nothing, [PathTest] escalates in a fixed order.  After the first
    search the algorithm is cleared, the hierarchy limits are relaxed
    (the call passes [using_astar] and the expansion factor, 4 with the
    direct algorithm and 2 without) and a second search is made.
    Without the direct algorithm the leg fails there, after two passes.
    With it the highway transitions are disabled on the relaxed costing,
    the algorithm is cleared again and a third search is made; the leg
    fails after three passes when that finds nothing either. *)
Theorem multipass_escalation (origin dest : PathLocation)
  (pathalgorithm : PathAlgorithm) (mode : TravelMode) (multi_run : bool)
  (iterations : N) (using_astar : bool) (s : State) (cost : cost_t)
  (w1 w2 : world) :
  mode_costing s mode = Some cost ->
  AllowMultiPass cost = true ->
  let relaxed :=
    RelaxHierarchyLimits using_astar
      (if using_astar then float_of_Z 4 else float_of_Z 2) cost in
  let mode_costing1 := fun m => if TravelMode_eqb m mode then Some relaxed
                                else mode_costing s m in
  let mode_costing2 := fun m => if TravelMode_eqb m mode
                                then Some (DisableHighwayTransitions relaxed)
                                else mode_costing1 m in
  let run := PathTest origin dest pathalgorithm mode multi_run iterations using_astar s in
  GetBestPath pathalgorithm origin dest (mode_costing s) mode (reader s) = ([], w1) ->
  GetBestPath pathalgorithm origin dest mode_costing1 mode (Clear pathalgorithm w1)
  = ([], w2) ->
  (using_astar = false ->
   fst run = Value TripPath_default /\
   data (snd run) = set_passes (wrap32 (passes (data s) + 2)) (data s) /\
   events (snd run)
   = events s ++ [CallGetBestPath pathalgorithm; CallClear pathalgorithm;
                  CallRelaxHierarchyLimits mode false (float_of_Z 2);
                  CallGetBestPath pathalgorithm] /\
   mode_costing (snd run) mode = Some relaxed) /\
  (using_astar = true ->
   forall w3,
     GetBestPath pathalgorithm origin dest mode_costing2 mode (Clear pathalgorithm w2)
     = ([], w3) ->
     fst run = Value TripPath_default /\
     data (snd run) = set_passes (wrap32 (passes (data s) + 3)) (data s) /\
     events (snd run)
     = events s ++ [CallGetBestPath pathalgorithm; CallClear pathalgorithm;
                    CallRelaxHierarchyLimits mode true (float_of_Z 4);
                    CallGetBestPath pathalgorithm;
                    CallDisableHighwayTransitions mode; CallClear pathalgorithm;
                    CallGetBestPath pathalgorithm] /\
     mode_costing (snd run) mode = Some (DisableHighwayTransitions relaxed)).
Proof.
  intros Hcost Hallow relaxed mode_costing1 mode_costing2 run Hfirst Hsecond.
  subst run mode_costing2 mode_costing1 relaxed. cbv beta in *.
  unfold PathTest, PathTest_with, bind, do_GetBestPath, on_data, cost_query,
    cost_update, do_Clear.
  rewrite Hfirst. norm. rewrite Hcost, Hallow. norm. rewrite Hcost. norm.
  match goal with
  | |- context [GetBestPath ?a ?o ?d ?mc ?m ?w] =>
      match type of Hsecond with
      | ?search = _ => change (GetBestPath a o d mc m w) with search
      end
  end.
  rewrite Hsecond. norm.
  split.
  - intros ->. norm. rewrite TravelMode_eqb_refl.
    split; [reflexivity|]. split; [count_passes|]. split; [|reflexivity].
    rewrite <- !app_assoc. reflexivity.
  - intros -> w3 Hthird. norm. rewrite TravelMode_eqb_refl. norm.
    match goal with
    | |- context [GetBestPath ?a ?o ?d ?mc ?m ?w] =>
        match type of Hthird with
        | ?search = _ => change (GetBestPath a o d mc m w) with search
        end
    end.
    rewrite Hthird. norm. rewrite TravelMode_eqb_refl.
    split; [reflexivity|]. split; [count_passes|]. split; [|reflexivity].
    rewrite <- !app_assoc. reflexivity.
Qed.

End Escalations.

Lemma found_at_first_search_witness :
  let s := start one_trip auto_cost in
  let run := PathTest (E := scripted one_trip) (found "A" [1%N]) (found "B" [2%N]) bd
               kDrive false 0 false s in
  data (snd run) = set_passes (wrap32 (passes (data s) + 1)) (data s) /\
  mode_costing (snd run) = mode_costing s /\
  fst run = Value {| node := [{| node_edge := 1%N |}; {| node_edge := 2%N |}] |}.
Proof.
  intros s run.
  destruct (found_at_first_search (E := scripted one_trip) (found "A" [1%N])
              (found "B" [2%N]) bd kDrive false 0 false s [hop 1; hop 2]
              {| time := 10; pending := [] |})
    as (Hd & Hmc & _ & _ & Hr); [reflexivity | discriminate |].
  split; [exact Hd|]. split; [exact Hmc|]. apply Hr. now left.
Defined.

Lemma multipass_escalation_witness :
  let s := start dead_end auto_cost in
  let run := PathTest (E := scripted dead_end) (found "A" [1%N]) (found "B" [1%N]) astar
               kDrive false 0 true s in
  fst run = Value TripPath_default /\
  passes (data (snd run)) = 3%N /\
  mode_costing (snd run) kDrive
  = Some {| allow_multi_pass := true; cost_mode := kDrive;
            relaxed := [(true, float_of_Z 4)]; highway_transitions := false |}.
Proof.
  intros s run.
  destruct (multipass_escalation (E := scripted dead_end) (found "A" [1%N])
              (found "B" [1%N]) astar kDrive false 0 true s auto_cost
              {| time := 10; pending := [] |} {| time := 21; pending := [] |})
    as [_ Hdirect]; try reflexivity.
  destruct (Hdirect eq_refl {| time := 32; pending := [] |} eq_refl)
    as (Hr & Hd & _ & Hmc).
  split; [exact Hr|]. split; [|exact Hmc].
  fold run in Hd. rewrite Hd. reflexivity.
Defined.

(** ** The route type and the costing of a run *)

Lemma tolower_idempotent (c : ascii) : tolower (tolower c) = tolower c.
Proof.
  destruct c as [[] [] [] [] [] [] [] []]; vm_compute; reflexivity.
Qed.

Lemma lowercase_idempotent (s : string) : lowercase (lowercase s) = lowercase s.
Proof.
  induction s as [|c rest IH]; cbn [lowercase]; [reflexivity|].
  now rewrite tolower_idempotent, IH.
Qed.

Lemma method_options_fragments (costing : string) :
  simple_name costing = true ->
  fragments ("costing_options." ++ costing) = ["costing_options"; costing].
Proof.
  intros Hs. destruct (simple_name_fragments costing Hs) as [Hf _].
  unfold fragments in *.
  change ("costing_options." ++ costing)%string
    with ("costing_options" ++ String separator costing)%string.
  rewrite split_on_field by reflexivity. now rewrite Hf.
Qed.

Lemma get_child_optional_method (t : ptree) (costing : string) :
  simple_name costing = true ->
  get_child_optional t ("costing_options." ++ costing)
  = match find "costing_options" (children t) with
    | None => None
    | Some options => find costing (children options)
    end.
Proof.
  intros Hs. unfold get_child_optional. rewrite (method_options_fragments _ Hs).
  destruct (simple_name_fragments costing Hs) as [_ Hne].
  cbn [walk_path]. destruct (find "costing_options" (children t)) as [options|];
    [|reflexivity].
  destruct costing as [|c rest]; [congruence|].
  destruct (find (String c rest) (children options)); reflexivity.
Qed.

(** Writing the merged options of one costing back leaves the options of
    every other costing as they were. *)
Lemma assign_method_other (t merged : ptree) (costing other : string) :
  simple_name costing = true -> simple_name other = true -> other <> costing ->
  get_child_optional
    (assign_at (fragments ("costing_options." ++ costing)) merged t)
    ("costing_options." ++ other)
  = get_child_optional t ("costing_options." ++ other).
Proof.
  intros Hc Ho Hne. rewrite (method_options_fragments _ Hc).
  rewrite !(get_child_optional_method _ _ Ho).
  destruct (simple_name_fragments costing Hc) as [_ Hnonempty].
  cbn [assign_at].
  destruct (find "costing_options" (children t)) as [options|] eqn:Hfind.
  2:{ now rewrite Hfind. }
  cbn [children]. rewrite find_replace_first_same by congruence.
  destruct costing as [|c rest]; [congruence|].
  destruct (find (String c rest) (children options)); [|reflexivity].
  cbn [children]. now apply find_replace_first_other.
Qed.

Lemma get_costing_config_other {R : Type} (Create : string -> ptree -> R)
  (pt json_ptree : ptree) (costing other : string) :
  simple_name costing = true -> simple_name other = true -> other <> costing ->
  get_child_optional (snd (get_costing Create pt json_ptree costing))
    ("costing_options." ++ other)
  = get_child_optional pt ("costing_options." ++ other).
Proof.
  intros Hc Ho Hne. unfold get_costing.
  destruct (get_child_optional pt ("costing_options." ++ costing)) as [base|];
    [|reflexivity].
  destruct (get_child_optional json_ptree ("costing_options." ++ costing))
    as [overrides|]; [|reflexivity].
  destruct (merge_options (children overrides) base); [|reflexivity].
  cbn [snd]. now apply assign_method_other.
Qed.

Lemma get_costing_same_options {R : Type} (Create : string -> ptree -> R)
  (pt pt' json_ptree : ptree) (costing : string) :
  get_child_optional pt' ("costing_options." ++ costing)
  = get_child_optional pt ("costing_options." ++ costing) ->
  fst (get_costing Create pt' json_ptree costing)
  = fst (get_costing Create pt json_ptree costing).
Proof.
  intros H. unfold get_costing. rewrite H.
  destruct (get_child_optional pt ("costing_options." ++ costing)) as [base|];
    [|reflexivity].
  destruct (get_child_optional json_ptree ("costing_options." ++ costing))
    as [overrides|]; [|reflexivity].
  destruct (merge_options (children overrides) base); reflexivity.
Qed.

Section Costing.
Context {DC : DynamicCost} {E : Externals}.

Lemma costing_of_created (pt json_ptree : ptree) (costing : string)
  (cost : option cost_t) (pt' : ptree) :
  costing_of pt json_ptree costing = inr (cost, pt') ->
  fst (get_costing Create pt json_ptree costing) = Created (inr cost) /\
  pt' = snd (get_costing Create pt json_ptree costing).
Proof.
  unfold costing_of.
  destruct (get_costing Create pt json_ptree costing) as [[e| |[e|c]] p];
    intros H; try discriminate.
  injection H as -> ->. now split.
Qed.

(** For the route type multimodal the four costings are resolved one
    after the other on a configuration that each resolution writes its
    merged options into.  All the same each of the four is what
    [get_costing] makes of the configuration as it was read: auto for
    driving, pedestrian, bicycle and transit, each the pointer the
    factory returned; the mode the run starts in is the pedestrian one. *)
Theorem multimodal_costing_from_base_config (pt json_ptree : ptree)
  (mode : TravelMode) (mode_costing : TravelMode -> option cost_t) :
  construct_costing "multimodal" pt json_ptree = inr (mode, mode_costing) ->
  mode = kPedestrian /\
  exists c0 c1 c2 c3,
    fst (get_costing Create pt json_ptree "auto") = Created (inr c0) /\
    fst (get_costing Create pt json_ptree "pedestrian") = Created (inr c1) /\
    fst (get_costing Create pt json_ptree "bicycle") = Created (inr c2) /\
    fst (get_costing Create pt json_ptree "transit") = Created (inr c3) /\
    mode_costing kDrive = c0 /\ mode_costing kPedestrian = c1 /\
    mode_costing kBicycle = c2 /\ mode_costing kPublicTransit = c3.
Proof.
  unfold construct_costing. change (String.eqb "multimodal" "multimodal") with true.
  cbv iota.
  destruct (costing_of pt json_ptree "auto") as [x|[c0 pt0]] eqn:H0; [discriminate|].
  destruct (costing_of pt0 json_ptree "pedestrian") as [x|[c1 pt1]] eqn:H1;
    [discriminate|].
  destruct (costing_of pt1 json_ptree "bicycle") as [x|[c2 pt2]] eqn:H2;
    [discriminate|].
  destruct (costing_of pt2 json_ptree "transit") as [x|[c3 pt3]] eqn:H3;
    [discriminate|].
  intros H. injection H as <- <-.
  apply costing_of_created in H0, H1, H2, H3.
  destruct H0 as [H0 ->], H1 as [H1 ->], H2 as [H2 ->], H3 as [H3 _].
  split; [reflexivity|]. exists c0, c1, c2, c3.
  split; [exact H0|].
  split.
  { rewrite <- H1. symmetry. apply get_costing_same_options.
    now apply get_costing_config_other. }
  split.
  { rewrite <- H2. symmetry. apply get_costing_same_options.
    rewrite get_costing_config_other by (reflexivity || discriminate).
    now apply get_costing_config_other. }
  split.
  { rewrite <- H3. symmetry. apply get_costing_same_options.
    rewrite get_costing_config_other by (reflexivity || discriminate).
    rewrite get_costing_config_other by (reflexivity || discriminate).
    now apply get_costing_config_other. }
  repeat split.
Qed.

(** The route type is taken in lower case and nothing else of it is
    used: a run started with a route type is the run started with the
    same text in lower case. *)
Theorem routetype_case_insensitive (locations : list Location) (routetype : string)
  (connectivity multi_run : bool) (iterations : N)
  (directions_options : DirectionsOptions) (pt json_ptree : ptree) :
  main locations routetype connectivity multi_run iterations directions_options
    pt json_ptree
  = main locations (lowercase routetype) connectivity multi_run iterations
      directions_options pt json_ptree.
Proof.
  unfold main, setup. now rewrite lowercase_idempotent.
Qed.

(** A route type other than multimodal for which the configuration has
    no costing options ends the run by the exception of [get_costing]:
    nothing is searched and no statistics line is written. *)
Theorem missing_costing_ends_the_run (locations : list Location) (routetype : string)
  (connectivity multi_run : bool) (iterations : N)
  (directions_options : DirectionsOptions) (pt json_ptree : ptree) :
  lowercase routetype <> "multimodal" ->
  get_child_optional pt ("costing_options." ++ lowercase routetype) = None ->
  main locations routetype connectivity multi_run iterations directions_options
    pt json_ptree
  = (Terminated, []).
Proof.
  intros Hmm Hnone. unfold main, setup.
  destruct locations as [|first [|second more]]; try reflexivity.
  destruct (get_child_optional pt "mjolnir"); [|reflexivity].
  unfold construct_costing. apply String.eqb_neq in Hmm. rewrite Hmm.
  unfold costing_of, get_costing. rewrite Hnone. reflexivity.
Qed.

End Costing.

(** ** The ways a run ends, further *)

Section Endings.
Context {DC : DynamicCost} {E : Externals}.

Lemma find_locations_fails (loc : Location) (cost : cost_t)
  (locations : list Location) :
  In loc locations ->
  (forall w, fst (loki_Search loc cost w) = None) ->
  forall (w : world) (path_location : list PathLocation),
    fst (find_locations locations cost w path_location) = None.
Proof.
  intros Hin Hfails.
  induction locations as [|l rest IH]; intros w path_location; [destruct Hin|].
  cbn [find_locations].
  destruct (loki_Search l cost w) as [[found|] w'] eqn:Hs; [|reflexivity].
  destruct Hin as [-> |Hin].
  - specialize (Hfails w). rewrite Hs in Hfails. discriminate Hfails.
  - now apply IH.
Qed.

(** A location the search finds no candidate for, whichever of the
    locations it is (the destination as well as the origin), ends the
    run with a failure: the outcome written is fail_invalid_origin, with
    a pass count of 0 and zero times and distances, and no search for a
    path is attempted. *)
Theorem unresolved_location_exits (locations : list Location) (routetype : string)
  (connectivity multi_run : bool) (iterations : N)
  (directions_options : DirectionsOptions) (pt json_ptree : ptree)
  (su : Setup) (loc : Location) :
  setup locations routetype pt json_ptree = inr su ->
  In loc locations ->
  (forall w, fst (loki_Search loc (cost0 su) w) = None) ->
  exists p1 p2,
    main locations routetype connectivity multi_run iterations directions_options
      pt json_ptree
    = (EXIT_FAILURE,
       [LogStatistics "%f,%f,%f,%f,%s,%d,%d,%d,%f,%f,%d"
          [ArgFloat (fst p1); ArgFloat (snd p1); ArgFloat (fst p2); ArgFloat (snd p2);
           ArgString "fail_invalid_origin"; ArgUInt 0; ArgUInt 0; ArgUInt 0;
           ArgFloat (float_of_Z 0); ArgFloat (float_of_Z 0); ArgUInt 0]]).
Proof.
  intros Hsetup Hin Hfails.
  destruct (setup_initial _ _ _ _ _ Hsetup) as ((p1 & p2 & Hdata) & _).
  exists p1, p2. unfold main. rewrite Hsetup.
  pose proof (find_locations_fails loc (cost0 su) locations Hin Hfails (reader0 su) [])
    as Hnone.
  destruct (find_locations locations (cost0 su) (reader0 su) []) as [found w].
  cbn [fst] in Hnone. subst found.
  unfold fail_with, bind, on_data, log, write, initial. cbn. rewrite Hdata. reflexivity.
Qed.

Lemma leg_outcome (routetype : string) (directions_options : DirectionsOptions)
  (multi_run : bool) (iterations : N) (mode : TravelMode)
  (path_location : list PathLocation) (i : nat) (s s' : State) :
  leg routetype directions_options multi_run iterations mode path_location i s
  = (Value tt, s') ->
  In (success (data s')) leg_outcomes.
Proof.
  intros Hleg.
  destruct (nth_error path_location i) as [origin|] eqn:Ho.
  2:{ unfold leg in Hleg. rewrite Ho in Hleg. discriminate Hleg. }
  destruct (nth_error path_location (S i)) as [dest|] eqn:Hd.
  2:{ unfold leg in Hleg. rewrite Ho, Hd in Hleg. discriminate Hleg. }
  pose proof (leg_ok routetype directions_options multi_run iterations mode
                path_location i origin dest s Ho Hd) as H.
  unfold wp in H. rewrite Hleg in H. cbn [fst snd] in H.
  destruct H as (_ & _ & Hout). now apply Hout.
Qed.

Lemma legs_outcome (routetype : string) (directions_options : DirectionsOptions)
  (multi_run : bool) (iterations : N) (mode : TravelMode)
  (path_location : list PathLocation) (legs : list nat) :
  legs <> [] ->
  forall s s' : State,
    for_each legs
      (leg routetype directions_options multi_run iterations mode path_location) s
    = (Value tt, s') ->
    In (success (data s')) leg_outcomes.
Proof.
  induction legs as [|i rest IH]; intros Hne s s' Hrun; [congruence|].
  cbn [for_each] in Hrun. unfold bind in Hrun.
  destruct (leg routetype directions_options multi_run iterations mode path_location
              i s) as [[[]| |e] s1] eqn:Hleg; try discriminate Hrun.
  destruct rest as [|j rest].
  - cbn [for_each ret] in Hrun. injection Hrun as <-. eapply leg_outcome, Hleg.
  - eapply IH; [discriminate | exact Hrun].
Qed.

(** A run that exits with success has routed at least one leg, and the
    outcome in its statistics line is that of a leg: success or one of
    the four failures of a search.  The exit status does not tell them
    apart; and the initial outcome is never written.  (The count of legs
    is a 32-bit number: the request is taken to have at most 2^32
    locations.) *)
Theorem success_exit_outcomes (locations : list Location) (routetype : string)
  (connectivity multi_run : bool) (iterations : N)
  (directions_options : DirectionsOptions) (pt json_ptree : ptree) :
  (Z.of_nat (List.length locations) <= 2 ^ 32)%Z ->
  let run := main locations routetype connectivity multi_run iterations
               directions_options pt json_ptree in
  fst run = EXIT_SUCCESS ->
  exists quiet d,
    snd run = quiet ++ [LogStatistics statistics_format (log_args d)] /\
    statistics_lines quiet = [] /\
    In (success d) leg_outcomes.
Proof.
  intros Hmany run Hexit.
  pose proof (main_cases locations routetype connectivity multi_run iterations
                directions_options pt json_ptree) as Hcases.
  fold run in Hcases. cbv zeta in Hcases.
  destruct Hcases as [[[Hx|Hx] _]|[[Hx _]|[_ Hdone]]]; try congruence.
  destruct Hdone as (su & path_location & w & s1 & Hsetup & Hfind & Hlegs & _ & Hq
                     & Hev).
  eexists (events s1), _.
  split; [exact Hev|]. split; [exact Hq|].
  cbn [success addRuntime setArcDist].
  destruct (setup_initial _ _ _ _ _ Hsetup) as (_ & _ & Hn & Htwo).
  destruct (legs_at_least_one _ Htwo Hmany) as [Hn' Hone].
  unfold route_legs in Hlegs. rewrite Hn, Hn', Nat2N.id in Hlegs.
  eapply legs_outcome; [|exact Hlegs].
  destruct (List.length locations - 1)%nat; [lia | discriminate].
Qed.

End Endings.

(** ** Defined behaviour *)

Section DefinedBehaviour.
Context {DC : DynamicCost} {E : Externals}.

Lemma costing_of_defined (pt json_ptree : ptree) (costing : string) :
  plain_request json_ptree costing ->
  costing_of pt json_ptree costing <> inl NoDefinedBehaviour.
Proof.
  intros Hplain. unfold costing_of, get_costing.
  destruct (get_child_optional pt ("costing_options." ++ costing)) as [base|];
    [|discriminate].
  destruct (get_child_optional json_ptree ("costing_options." ++ costing))
    as [overrides|] eqn:Hrequest.
  - destruct (merge_options_simple (children overrides) (Hplain overrides Hrequest) base)
      as (merged & -> & _).
    destruct (Create costing merged); discriminate.
  - destruct (Create costing base); discriminate.
Qed.

(** What [get_costing] hands back is what the factory answered. *)
Lemma costing_of_factory (pt json_ptree : ptree) (costing : string)
  (cost : option cost_t) (pt' : ptree) :
  costing_of pt json_ptree costing = inr (cost, pt') ->
  exists options, Create costing options = inr cost.
Proof.
  unfold costing_of, get_costing.
  destruct (get_child_optional pt ("costing_options." ++ costing)) as [base|];
    [|discriminate].
  destruct (get_child_optional json_ptree ("costing_options." ++ costing))
    as [overrides|].
  - destruct (merge_options (children overrides) base) as [merged|]; [|discriminate].
    destruct (Create costing merged) as [e|c] eqn:Hc; [discriminate|].
    intros H. injection H as <- _. now exists merged.
  - destruct (Create costing base) as [e|c] eqn:Hc; [discriminate|].
    intros H. injection H as <- _. now exists base.
Qed.

Lemma construct_costing_defined (routetype : string) (pt json_ptree : ptree) :
  Forall (plain_request json_ptree) (costings_resolved routetype) ->
  (forall costing options,
      In costing (costings_resolved routetype) -> Create costing options <> inr None) ->
  construct_costing routetype pt json_ptree <> inl NoDefinedBehaviour.
Proof.
  unfold costings_resolved, construct_costing. intros Hplain Hcreate.
  destruct (String.eqb routetype "multimodal").
  - inversion Hplain as [|? ? H0 Hrest0]; subst.
    inversion Hrest0 as [|? ? H1 Hrest1]; subst.
    inversion Hrest1 as [|? ? H2 Hrest2]; subst.
    inversion Hrest2 as [|? ? H3 _]; subst.
    destruct (costing_of pt json_ptree "auto") as [x|[c0 pt0]] eqn:G0.
    { intros H; injection H as ->. revert G0. now apply costing_of_defined. }
    destruct (costing_of pt0 json_ptree "pedestrian") as [x|[c1 pt1]] eqn:G1.
    { intros H; injection H as ->. revert G1. now apply costing_of_defined. }
    destruct (costing_of pt1 json_ptree "bicycle") as [x|[c2 pt2]] eqn:G2.
    { intros H; injection H as ->. revert G2. now apply costing_of_defined. }
    destruct (costing_of pt2 json_ptree "transit") as [x|[c3 pt3]] eqn:G3.
    { intros H; injection H as ->. revert G3. now apply costing_of_defined. }
    discriminate.
  - inversion Hplain as [|? ? H0 _]; subst.
    destruct (costing_of pt json_ptree routetype) as [x|[[c0|] pt0]] eqn:G0.
    + intros H; injection H as ->. revert G0. now apply costing_of_defined.
    + discriminate.
    + destruct (costing_of_factory _ _ _ _ _ G0) as (options & Hnull).
      exfalso. apply (Hcreate routetype options); [now left | exact Hnull].
Qed.

(** The costing of the mode a run starts in is there when the factory
    gave objects. *)
Lemma construct_costing_mode (routetype : string) (pt json_ptree : ptree)
  (mode : TravelMode) (mode_costing : TravelMode -> option cost_t) :
  (forall costing options,
      In costing (costings_resolved routetype) -> Create costing options <> inr None) ->
  construct_costing routetype pt json_ptree = inr (mode, mode_costing) ->
  mode_costing mode <> None.
Proof.
  unfold costings_resolved, construct_costing. intros Hcreate.
  destruct (String.eqb routetype "multimodal").
  - destruct (costing_of pt json_ptree "auto") as [x|[c0 pt0]]; [discriminate|].
    destruct (costing_of pt0 json_ptree "pedestrian") as [x|[c1 pt1]] eqn:G1;
      [discriminate|].
    destruct (costing_of pt1 json_ptree "bicycle") as [x|[c2 pt2]]; [discriminate|].
    destruct (costing_of pt2 json_ptree "transit") as [x|[c3 pt3]]; [discriminate|].
    intros H. injection H as <- <-.
    destruct (costing_of_factory _ _ _ _ _ G1) as (options & Hc). intros ->.
    apply (Hcreate "pedestrian" options); [right; now left | exact Hc].
  - destruct (costing_of pt json_ptree routetype) as [x|[[c0|] pt0]]; try discriminate.
    intros H. injection H as <- <-. rewrite TravelMode_eqb_refl. discriminate.
Qed.

Lemma setup_defined (locations : list Location) (routetype : string)
  (pt json_ptree : ptree) :
  Forall (plain_request json_ptree) (costings_resolved (lowercase routetype)) ->
  (forall costing options,
      In costing (costings_resolved (lowercase routetype)) ->
      Create costing options <> inr None) ->
  setup locations routetype pt json_ptree <> inl NoDefinedBehaviour.
Proof.
  intros Hplain Hcreate. unfold setup.
  destruct locations as [|first [|second more]]; try discriminate.
  destruct (get_child_optional pt "mjolnir"); [|discriminate].
  destruct (construct_costing (lowercase routetype) pt json_ptree)
    as [x|[mode mc]] eqn:Hc.
  - intros H. injection H as ->.
    now apply (construct_costing_defined _ pt json_ptree Hplain Hcreate).
  - pose proof (construct_costing_mode _ _ _ _ _ Hcreate Hc) as Hmode.
    destruct (mc mode); [discriminate | congruence].
Qed.

(** A leg between two locations whose tiles the reader has. *)
Lemma leg_defined (routetype : string) (directions_options : DirectionsOptions)
  (multi_run : bool) (iterations : N) (mode : TravelMode)
  (path_location : list PathLocation) (i : nat) (origin dest : PathLocation)
  (s : State) :
  nth_error path_location i = Some origin ->
  nth_error path_location (S i) = Some dest ->
  mode_costing s mode <> None ->
  (multi_run = true -> iterations <> 0%N) ->
  tiles_loaded origin -> tiles_loaded dest ->
  fst (leg routetype directions_options multi_run iterations mode path_location i s)
  <> Undefined.
Proof.
  intros Ho Hd Hm Hit Hlo Hld.
  rewrite (leg_eq _ _ _ _ _ _ _ origin dest s Ho Hd).
  set (pathalgorithm := choose_pathalgorithm routetype origin dest).
  pose proof (try_PathTest_ok origin dest pathalgorithm mode multi_run iterations
                (PathAlgorithm_eqb pathalgorithm astar) s) as Hp.
  unfold wp in Hp.
  destruct (try_PathTest origin dest pathalgorithm mode multi_run iterations
              (PathAlgorithm_eqb pathalgorithm astar) s) as [r1 s1].
  cbn [fst snd] in Hp.
  destruct Hp as (k & new & _ & _ & _ & _ & _ & _ & _ & _ & Hdef & _).
  destruct r1 as [found| |[what|]].
  - destruct (record_leg_ok directions_options origin dest found
                (set_trip_path found s1)) as (_ & _ & _ & _ & _ & _ & _ & Hret).
    rewrite (Hret Hlo Hld). discriminate.
  - exfalso. now apply (Hdef Hm Hit).
  - destruct (record_leg_ok directions_options origin dest (trip_path s1) s1)
      as (_ & _ & _ & _ & _ & _ & _ & Hret).
    rewrite (Hret Hlo Hld). discriminate.
  - discriminate.
Qed.

Lemma legs_defined (routetype : string) (directions_options : DirectionsOptions)
  (multi_run : bool) (iterations : N) (mode : TravelMode)
  (path_location : list PathLocation) (legs : list nat) :
  (multi_run = true -> iterations <> 0%N) ->
  Forall tiles_loaded path_location ->
  forall s : State,
    (forall i, In i legs -> (S i < List.length path_location)%nat) ->
    mode_costing s mode <> None ->
    fst (for_each legs
           (leg routetype directions_options multi_run iterations mode path_location) s)
    <> Undefined.
Proof.
  intros Hit Hall.
  induction legs as [|i rest IH]; intros s Hin Hm; [discriminate|].
  assert (Hi : (S i < List.length path_location)%nat) by (apply Hin; now left).
  destruct (nth_error path_location i) as [origin|] eqn:Ho.
  2:{ apply nth_error_None in Ho. lia. }
  destruct (nth_error path_location (S i)) as [dest|] eqn:Hd.
  2:{ apply nth_error_None in Hd. lia. }
  assert (Hlo : tiles_loaded origin).
  { rewrite Forall_forall in Hall. eapply Hall, nth_error_In, Ho. }
  assert (Hld : tiles_loaded dest).
  { rewrite Forall_forall in Hall. eapply Hall, nth_error_In, Hd. }
  pose proof (leg_defined routetype directions_options multi_run iterations mode
                path_location i origin dest s Ho Hd Hm Hit Hlo Hld) as Hleg.
  pose proof (leg_ok routetype directions_options multi_run iterations mode
                path_location i origin dest s Ho Hd) as Hpost.
  unfold wp in Hpost. cbn [for_each]. unfold bind.
  destruct (leg routetype directions_options multi_run iterations mode path_location
              i s) as [[[]| |e] s1]; cbn [fst snd] in *.
  - destruct Hpost as ((k & new & _ & _ & _ & _ & Hreplay & _) & _).
    apply IH.
    + intros j Hj. apply Hin. now right.
    + rewrite Hreplay. now apply replay_there.
  - exact Hleg.
  - discriminate.
Qed.

(** A run has defined behaviour when four things are ruled out: a field
    name in the costing options of the request that is empty or holds the
    path separator (the assertion of [put_child]); a multi-run of no
    iterations (the division of the average); a factory that answers a
    null pointer for a costing the run resolves (the pointer is
    dereferenced unchecked); and a candidate edge whose tile the reader
    does not have (the tile pointer is dereferenced unchecked after a
    failed search).  Then whatever the libraries answer or throw, no null
    pointer is dereferenced and no location is indexed out of range. *)
Theorem run_is_defined (locations : list Location) (routetype : string)
  (connectivity multi_run : bool) (iterations : N)
  (directions_options : DirectionsOptions) (pt json_ptree : ptree) :
  Forall (plain_request json_ptree) (costings_resolved (lowercase routetype)) ->
  (multi_run = true -> iterations <> 0%N) ->
  (forall costing options,
      In costing (costings_resolved (lowercase routetype)) ->
      Create costing options <> inr None) ->
  (forall edge, GetGraphTile edge <> None) ->
  fst (main locations routetype connectivity multi_run iterations directions_options
         pt json_ptree)
  <> NoDefinedBehaviour.
Proof.
  intros Hplain Hit Hcreate Htiles. unfold main.
  destruct (setup locations routetype pt json_ptree) as [x|su] eqn:Hsetup.
  { cbn [fst]. intros ->. revert Hsetup. now apply setup_defined. }
  destruct (setup_initial _ _ _ _ _ Hsetup) as (_ & Hcost & Hn & Htwo).
  destruct (find_locations locations (cost0 su) (reader0 su) [])
    as [[path_location|] w] eqn:Hfind; [|discriminate].
  pose proof (find_locations_length _ _ _ _ _ _ Hfind) as Hlen. cbn [List.length] in Hlen.
  assert (Hrun : fst (finish su directions_options multi_run iterations path_location w)
                 <> NoDefinedBehaviour).
  { unfold finish. rewrite route_and_report_eq. unfold route_legs.
    pose proof (legs_defined (routetype_lower su) directions_options multi_run
                  iterations (mode0 su) path_location (seq 0 (N.to_nat (n_legs su)))
                  Hit) as Hdef.
    specialize (Hdef (proj2 (Forall_forall tiles_loaded path_location)
                        (fun pl _ edge _ => Htiles (id edge)))
                     (initial su w)).
    destruct (for_each (seq 0 (N.to_nat (n_legs su))) _ (initial su w))
      as [[[]| |e] s1]; cbn [fst snd] in *; try discriminate.
    exfalso. apply Hdef; [| |reflexivity].
    - intros i Hi. rewrite Hn in Hi. rewrite Hlen. now apply legs_in_range.
    - cbn [mode_costing initial]. rewrite Hcost. discriminate. }
  destruct connectivity; [|exact Hrun].
  unfold connected.
  destruct (rev path_location) as [|back front] eqn:Hrev.
  { apply (f_equal (@List.length PathLocation)) in Hrev.
    rewrite length_rev, Hlen in Hrev. cbn in Hrev. lia. }
  cbv zeta.
  destruct (negb (existsb _ _)); [discriminate | exact Hrun].
Qed.

End DefinedBehaviour.

(** ** Further scenarios *)

Lemma multimodal_costing_from_base_config_witness :
  let options := Node "" [ ("auto", Node "" [("maneuver_penalty", Node "5" [])]);
                           ("pedestrian", Node "" []);
                           ("bicycle", Node "" []);
                           ("transit", Node "" []) ] in
  let pt := Node "" [("costing_options", options)] in
  let request :=
    Node "" [("costing_options",
              Node "" [("auto", Node "" [("maneuver_penalty", Node "9" [])])])] in
  exists c1,
    fst (get_costing (Create (Externals := scripted dead_end)) pt request "pedestrian")
    = Created (inr c1).
Proof.
  intros options pt request.
  edestruct (multimodal_costing_from_base_config (E := scripted dead_end) pt request)
    as (_ & c0 & c1 & c2 & c3 & _ & H1 & _).
  - reflexivity.
  - exists c1. exact H1.
Defined.

Lemma missing_costing_ends_the_run_witness :
  main (E := scripted dead_end) [place "A"; place "B"] "Truck" false false 0 miles
    config no_request
  = (Terminated, []).
Proof.
  apply (missing_costing_ends_the_run (E := scripted dead_end));
    [discriminate | reflexivity].
Defined.

Lemma unresolved_location_exits_witness :
  exists p1 p2,
    main (E := scripted dead_end) [place "A"; place "Z"] "auto" false false 0 miles
      config no_request
    = (EXIT_FAILURE,
       [LogStatistics "%f,%f,%f,%f,%s,%d,%d,%d,%f,%f,%d"
          [ArgFloat (fst p1); ArgFloat (snd p1); ArgFloat (fst p2); ArgFloat (snd p2);
           ArgString "fail_invalid_origin"; ArgUInt 0; ArgUInt 0; ArgUInt 0;
           ArgFloat (float_of_Z 0); ArgFloat (float_of_Z 0); ArgUInt 0]]).
Proof.
  eapply (unresolved_location_exits (E := scripted dead_end) _ _ _ _ _ _ _ _ _
            (place "Z")).
  - reflexivity.
  - right. left. reflexivity.
  - intros w. reflexivity.
Defined.

Lemma success_exit_outcomes_witness :
  let run := main (E := scripted dead_end) [place "A"; place "B"] "pedestrian" false
               false 0 miles config no_request in
  exists quiet d,
    snd run = quiet ++ [LogStatistics statistics_format (log_args d)] /\
    statistics_lines quiet = [] /\
    In (success d) leg_outcomes.
Proof.
  intros run.
  apply (success_exit_outcomes (E := scripted dead_end) [place "A"; place "B"]
           "pedestrian" false false 0 miles config no_request).
  - cbn. lia.
  - reflexivity.
Defined.

Lemma run_is_defined_witness :
  let request :=
    Node "" [("costing_options",
              Node "" [("auto", Node "" [("maneuver_penalty", Node "9" [])])])] in
  fst (main (E := scripted one_trip) [place "A"; place "B"; place "C"] "Auto" false true
         2 miles config request)
  <> NoDefinedBehaviour.
Proof.
  intros request.
  apply (run_is_defined (E := scripted one_trip)).
  - constructor; [|constructor].
    intros overrides H. injection H as <-. repeat constructor.
  - discriminate.
  - intros costing options [<-|[]]. discriminate.
  - intros edge. discriminate.
Defined.

(** ** The algorithms of a run *)

Section Algorithms.
Context {DC : DynamicCost} {E : Externals}.

(** Whatever the libraries answer, a run only calls the path algorithm
    its route type allows: for multimodal every search and every clear
    is of the multimodal algorithm, for pedestrian of the bidirectional
    one, and for every other route type never of the multimodal one.
    The highway transitions are never disabled in a multimodal or
    pedestrian run. *)
Theorem run_algorithms (locations : list Location) (routetype : string)
  (connectivity multi_run : bool) (iterations : N)
  (directions_options : DirectionsOptions) (pt json_ptree : ptree) :
  forallb (event_of_routetype (lowercase routetype))
    (snd (main locations routetype connectivity multi_run iterations
            directions_options pt json_ptree))
  = true.
Proof.
  destruct (main_finish locations routetype connectivity multi_run iterations
              directions_options pt json_ptree)
    as [[_ Hnone]|[[_ (p1 & p2 & outcome & _ & Hev)]
                  |(su & path_location & w & Hsetup & Hfind & Hrun)]].
  - rewrite Hnone. reflexivity.
  - rewrite Hev. reflexivity.
  - rewrite Hrun.
    destruct (finish_cases locations routetype pt json_ptree su path_location w
                directions_options multi_run iterations Hsetup Hfind)
      as (r & s1 & _ & Hpost & Hend).
    cbv zeta in Hend.
    destruct Hpost as (K & new & _ & _ & Hev & Hfit & _).
    cbn [events initial app] in Hev.
    assert (Hall : forallb (event_of_routetype (lowercase routetype)) (events s1)
                   = true).
    { rewrite Hev, <- (setup_routetype _ _ _ _ _ Hsetup).
      rewrite forallb_forall in *. intros ev Hin. specialize (Hfit ev Hin).
      unfold event_of_legs in Hfit. apply andb_prop in Hfit. apply Hfit. }
    destruct r as [[]| |e]; destruct Hend as [_ ->];
      [rewrite forallb_app, Hall; reflexivity | exact Hall | exact Hall].
Qed.

End Algorithms.

(** ** The configuration after a costing is resolved *)

Lemma walk_assign_same (fs : list string) (v : ptree) :
  forall t base : ptree,
    walk_path fs t = Some base -> walk_path fs (assign_at fs v t) = Some v.
Proof.
  induction fs as [|f rest IH]; intros t base Hwalk; [reflexivity|].
  cbn [walk_path assign_at] in *.
  destruct rest as [|f' rest'].
  - destruct f as [|c f0]; [reflexivity|].
    destruct (find (String c f0) (children t)) as [child|] eqn:Hfind; [|discriminate].
    cbn [children]. rewrite find_replace_first_same by congruence. reflexivity.
  - assert (Hstep : match find f (children t) with
                    | Some c => walk_path (f' :: rest') c
                    | None => None
                    end = Some base).
    { destruct f; exact Hwalk. }
    assert (Hgoal : match find f (children
                                    match find f (children t) with
                                    | Some c =>
                                        Node (Ptree.data t)
                                          (replace_first f
                                             (assign_at (f' :: rest') v c)
                                             (children t))
                                    | None => t
                                    end) with
                    | Some c => walk_path (f' :: rest') c
                    | None => None
                    end = Some v).
    { destruct (find f (children t)) as [child|] eqn:Hfind; [|discriminate].
      cbn [children]. rewrite find_replace_first_same by congruence.
      eapply IH, Hstep. }
    destruct f; exact Hgoal.
Qed.

(** [get_costing] changes the configuration it is given.  With no
    options for the costing in the request the configuration stays as it
    was.  With some, the merged options the costing is created from are
    written over the ones the configuration had for it, so that reading
    the configuration again gives the merged ones; the options of every
    other costing stay as they were. *)
Theorem get_costing_writes_back {R : Type} (Create : string -> ptree -> R)
  (pt json_ptree : ptree) (costing : string) (base : ptree) :
  get_child_optional pt ("costing_options." ++ costing) = Some base ->
  let run := get_costing Create pt json_ptree costing in
  match get_child_optional json_ptree ("costing_options." ++ costing) with
  | None => snd run = pt
  | Some overrides =>
      forall merged,
        merge_options (children overrides) base = Some merged ->
        fst run = Created (Create costing merged) /\
        get_child_optional (snd run) ("costing_options." ++ costing) = Some merged /\
        (simple_name costing = true ->
         forall other, simple_name other = true -> other <> costing ->
           get_child_optional (snd run) ("costing_options." ++ other)
           = get_child_optional pt ("costing_options." ++ other))
  end.
Proof.
  intros Hbase run. subst run. unfold get_costing. rewrite Hbase.
  destruct (get_child_optional json_ptree ("costing_options." ++ costing))
    as [overrides|]; [|reflexivity].
  intros merged Hmerged. rewrite Hmerged. cbn [fst snd].
  split; [reflexivity|]. split.
  - unfold get_child_optional in *. eapply walk_assign_same, Hbase.
  - intros Hc other Ho Hne. now apply assign_method_other.
Qed.

Lemma get_costing_writes_back_witness :
  let request :=
    Node "" [("costing_options",
              Node "" [("auto", Node "" [("maneuver_penalty", Node "9" []);
                                         ("use_tolls", Node "0" [])])])] in
  let merged := Node "" [("maneuver_penalty", Node "9" []); ("use_tolls", Node "0" [])] in
  let pt' := snd (get_costing (fun _ options => options) config request "auto") in
  get_child_optional config "costing_options.auto"
  = Some (Node "" [("maneuver_penalty", Node "5" [])]) /\
  get_child_optional pt' "costing_options.auto" = Some merged /\
  get_child_optional pt' "costing_options.bicycle"
  = get_child_optional config "costing_options.bicycle".
Proof.
  intros request merged pt'.
  pose proof (get_costing_writes_back (fun _ options => options) config request "auto"
                (Node "" [("maneuver_penalty", Node "5" [])]) eq_refl) as H.
  cbv zeta in H.
  change (get_child_optional request ("costing_options." ++ "auto"))
    with (Some (Node "" [("maneuver_penalty", Node "9" []);
                         ("use_tolls", Node "0" [])])) in H.
  cbv beta iota in H.
  destruct (H merged eq_refl) as (_ & Hsame & Hother).
  split; [reflexivity|]. split; [exact Hsame|].
  apply (Hother eq_refl "bicycle" eq_refl). discriminate.
Defined.

(** ** The request in the statistics line *)

Section RequestFields.
Context {DC : DynamicCost} {E : Externals}.

(** The statistics line of a run that exits with success describes the
    request as it was given, whatever the legs did: the origin is the
    first location and the destination the last one, and the straight
    line distance is the sum of the distances between successive
    locations, in kilometers, converted to miles when the directions
    options ask for miles.  (The request is taken to have at most 2^32
    locations.) *)
Theorem statistics_line_of_the_request (locations : list Location)
  (routetype : string) (connectivity multi_run : bool) (iterations : N)
  (directions_options : DirectionsOptions) (pt json_ptree : ptree) :
  (Z.of_nat (List.length locations) <= 2 ^ 32)%Z ->
  let run := main locations routetype connectivity multi_run iterations
               directions_options pt json_ptree in
  fst run = EXIT_SUCCESS ->
  exists quiet d first,
    snd run = quiet ++ [LogStatistics statistics_format (log_args d)] /\
    hd_error locations = Some first /\
    origin d = (lat (latlng_ first), lng (latlng_ first)) /\
    destination d = (lat (latlng_ (last locations first)),
                     lng (latlng_ (last locations first))) /\
    let km := fold_left
                (fun d1 p =>
                   (d1 + Distance (latlng_ (fst p)) (latlng_ (snd p)) * kKmPerMeter)%f32)
                (combine locations (tl locations)) (float_of_Z 0) in
    arc_dist d = match units directions_options with
                 | kMiles => (km * kMilePerKm)%f32
                 | kKilometers => km
                 end.
Proof.
  intros Hmany run Hexit.
  pose proof (main_cases locations routetype connectivity multi_run iterations
                directions_options pt json_ptree) as Hcases.
  fold run in Hcases. cbv zeta in Hcases.
  destruct Hcases as [[[Hx|Hx] _]|[[Hx _]|[_ Hdone]]]; try congruence.
  destruct Hdone as (su & path_location & w & s1 & Hsetup & _ & _ & Hpost & _ & Hev).
  destruct (setup_initial _ _ _ _ _ Hsetup) as (_ & _ & Hn & Htwo).
  destruct (setup_request _ _ _ _ _ Hsetup) as (first & Hfirst & Hdata & Hkm).
  destruct (legs_at_least_one _ Htwo Hmany) as [Hn' _].
  rewrite Hn' in Hn. rewrite Hn, Nat2N.id in Hdata. rewrite Hn, crow_flies_pairs in Hkm.
  destruct Hpost as (K & new & _ & _ & _ & _ & _ & _ & (Ho & Hd & _ & _) & _).
  cbn [data initial] in Ho, Hd.
  eexists (events s1), _, first.
  split; [exact Hev|]. split; [exact Hfirst|].
  cbn [origin destination arc_dist addRuntime setArcDist].
  rewrite Ho, Hd, Hdata, Hkm. cbn [origin destination PathStatistics_new pair_of].
  split; [reflexivity|]. split; [|destruct (units directions_options); reflexivity].
  now rewrite nth_length_last.
Qed.

End RequestFields.

Lemma statistics_line_of_the_request_witness :
  let run := main (E := scripted one_trip) [place "A"; place "B"; place "C"] "auto" false
               false 0 miles config no_request in
  exists quiet d,
    snd run = quiet ++ [LogStatistics statistics_format (log_args d)] /\
    arc_dist d = ((float_of_Z 0 + float_of_Z 5000 * kKmPerMeter + float_of_Z 5000 * kKmPerMeter)
                  * kMilePerKm)%f32.
Proof.
  intros run.
  destruct (statistics_line_of_the_request (E := scripted one_trip)
              [place "A"; place "B"; place "C"] "auto" false false 0 miles config
              no_request)
    as (quiet & d & first & Hev & _ & _ & _ & Harc).
  - cbn. lia.
  - reflexivity.
  - exists quiet, d. split; [exact Hev | exact Harc].
Defined.

(** ** The command line *)

Section CommandLineFacts.
Variable FromCsv : string -> option Location.
Variable FromPtree : ptree -> option Location.
Variable read_json : string -> option ptree.
Variable GetDirectionsOptions : ptree -> DirectionsOptions.
Variable get_int : string -> option Z.
Variable set_date_time : option string -> Location -> Location.

Local Abbreviation command_line_ :=
  (command_line FromCsv FromPtree read_json GetDirectionsOptions get_int set_date_time).

(** Without the option json the four arguments origin, destination, type
    and config are mandatory: the front exits with a failure that names
    an argument exactly when one of the four was not given, and the one
    it names is the first of them, in that order, that was not given. *)
Theorem mandatory_arguments (indeterminate : N) (vm : variables_map) :
  help_flag vm = false -> version_flag vm = false -> json_option vm = None ->
  ((exists arg, command_line_ indeterminate (Some vm)
                = Exits EXIT_FAILURE [NotProvided arg; Usage])
   <-> origin_option vm = None \/ destination_option vm = None \/
       type_option vm = None \/ config_option vm = None) /\
  (forall arg,
      command_line_ indeterminate (Some vm) = Exits EXIT_FAILURE [NotProvided arg; Usage] ->
      exists before after,
        ["origin"; "destination"; "type"; "config"] = before ++ arg :: after /\
        count vm arg = 0%nat /\
        Forall (fun given => count vm given <> 0%nat) before).
Proof.
  intros Hhelp Hversion Hjson.
  unfold command_line, count. rewrite Hhelp, Hversion, Hjson.
  cbn [String.eqb Ascii.eqb Bool.eqb andb times Nat.eqb negb first_missing count].
  unfold count.
  cbn [String.eqb Ascii.eqb Bool.eqb andb times Nat.eqb negb].
  destruct (origin_option vm) as [o|]; cbn [times Nat.eqb].
  2:{ split; [split; [auto | intros _; eexists; reflexivity]|].
      intros arg H. injection H as <-. exists [], ["destination"; "type"; "config"].
      repeat split. constructor. }
  destruct (destination_option vm) as [d|]; cbn [times Nat.eqb].
  2:{ split; [split; [auto | intros _; eexists; reflexivity]|].
      intros arg H. injection H as <-. exists ["origin"], ["type"; "config"].
      repeat split. repeat constructor. discriminate. }
  destruct (type_option vm) as [t|]; cbn [times Nat.eqb].
  2:{ split; [split; [auto | intros _; eexists; reflexivity]|].
      intros arg H. injection H as <-. exists ["origin"; "destination"], ["config"].
      repeat split. repeat constructor; discriminate. }
  destruct (config_option vm) as [c|]; cbn [times Nat.eqb].
  2:{ split; [split; [auto 6 | intros _; eexists; reflexivity]|].
      intros arg H. injection H as <-. exists ["origin"; "destination"; "type"], [].
      repeat split. repeat constructor; discriminate. }
  cbn [bound].
  split.
  - split.
    + intros [arg H]. destruct (FromCsv o); [destruct (FromCsv d)|]; discriminate.
    + intros [H|[H|[H|H]]]; discriminate.
  - intros arg H. destruct (FromCsv o); [destruct (FromCsv d)|]; discriminate.
Qed.

(** With the option json the locations and the route type are those of
    the request: what the options origin, destination and type were
    given, if anything, plays no part, and none of the four arguments is
    asked for, the configuration file included. *)
Theorem json_overrides_arguments (indeterminate : N) (vm : variables_map)
  (json : string) (origin destination type : option string) :
  json_option vm = Some json ->
  let vm' := {| help_flag := help_flag vm; version_flag := version_flag vm;
                connectivity_flag := connectivity_flag vm;
                multi_run_option := multi_run_option vm;
                origin_option := origin; destination_option := destination;
                type_option := type;
                json_option := json_option vm; config_option := config_option vm |} in
  command_line_ indeterminate (Some vm') = command_line_ indeterminate (Some vm) /\
  (forall arg said,
      command_line_ indeterminate (Some vm) <> Exits EXIT_FAILURE (NotProvided arg :: said)).
Proof.
  intros Hjson vm'. subst vm'. unfold command_line, count.
  cbn [String.eqb Ascii.eqb Bool.eqb andb help_flag version_flag connectivity_flag
       multi_run_option json_option config_option].
  rewrite Hjson. cbn [times Nat.eqb negb bound].
  split; [reflexivity|].
  intros arg said.
  destruct (help_flag vm); [discriminate|].
  destruct (version_flag vm); [discriminate|]. cbn [Nat.eqb negb].
  destruct (process_json _ _ _ _ _ _ _) as [[[[locations routetype] options] tree]|];
    discriminate.
Qed.

Lemma update_front_length {A : Type} (f : A -> A) (l : list A) :
  List.length (update_front f l) = List.length l.
Proof. destruct l; reflexivity. Qed.

Lemma update_back_length {A : Type} (f : A -> A) (l : list A) :
  List.length (update_back f l) = List.length l.
Proof. unfold update_back. now rewrite length_rev, update_front_length, length_rev. Qed.

Lemma with_date_time_length (json_ptree : ptree) (locations locations' : list Location) :
  with_date_time get_int set_date_time json_ptree locations = Some locations' ->
  List.length locations' = List.length locations.
Proof.
  unfold with_date_time.
  destruct (get_child_optional json_ptree "date_time") as [date_time|].
  2:{ intros H. now injection H as <-. }
  destruct (get_child_optional date_time "type") as [type|]; [|discriminate].
  destruct (get_int (Ptree.data type)) as [date_time_type|]; [|discriminate].
  intros H. injection H as <-.
  destruct (Z.eqb date_time_type 0); [apply update_front_length|].
  destruct (Z.eqb date_time_type 1); [apply update_front_length|].
  destruct (Z.eqb date_time_type 2); [apply update_back_length | reflexivity].
Qed.

(** Whenever the front hands over to the routing there are at least two
    locations, whatever the date and time of the request.  Without the
    option json they are exactly two, the directions options are the
    defaults (miles, en-US) and the request tree is empty, so that the
    costing takes its options from the configuration alone. *)
Theorem hands_over_two_locations (indeterminate : N) (parsed : option variables_map)
  (request : Request) :
  command_line_ indeterminate parsed = Proceeds request ->
  (2 <= List.length (request_locations request))%nat /\
  (forall vm, parsed = Some vm -> json_option vm = None ->
     List.length (request_locations request) = 2%nat /\
     request_directions_options request = {| units := kMiles; language := "en-US" |} /\
     request_json_ptree request = empty_ptree).
Proof.
  unfold command_line. destruct parsed as [vm|]; [|discriminate].
  destruct (negb (Nat.eqb (count vm "help") 0)); [discriminate|].
  destruct (negb (Nat.eqb (count vm "version") 0)); [discriminate|].
  cbv zeta.
  destruct (Nat.eqb (count vm "json") 0) eqn:Hjson.
  - destruct (first_missing vm _); [discriminate|].
    destruct (FromCsv (bound (origin_option vm))); [|discriminate].
    destruct (FromCsv (bound (destination_option vm))); [|discriminate].
    intros H. injection H as <-. cbn. split; [lia|]. intros vm' _ _. repeat split.
  - unfold process_json.
    destruct (read_json (bound (json_option vm))) as [json_ptree|]; [|discriminate].
    destruct (get_child_optional json_ptree "locations") as [given|]; [|discriminate].
    destruct (from_ptrees FromPtree (children given)) as [locations|]; [|discriminate].
    destruct (List.length locations <? 2)%nat eqn:Htwo; [discriminate|].
    destruct (get_child_optional json_ptree "costing") as [costing|]; [|discriminate].
    cbv zeta.
    destruct (with_date_time get_int set_date_time json_ptree locations)
      as [locations'|] eqn:Hdate; [|discriminate].
    intros H. injection H as <-. cbn [request_locations].
    apply with_date_time_length in Hdate. apply Nat.ltb_ge in Htwo.
    split; [lia|].
    intros vm' Hvm Hnone. injection Hvm as <-.
    unfold count in Hjson. cbn in Hjson. rewrite Hnone in Hjson. discriminate.
Qed.

End CommandLineFacts.

Section Iterations.
Context {DC : DynamicCost} {E : Externals}.

Lemma for_each_ext {A : Type} (l : list A) (body body' : A -> M unit) :
  (forall x s, body x s = body' x s) ->
  forall s, for_each l body s = for_each l body' s.
Proof.
  intros Hbody. induction l as [|x rest IH]; intros s; cbn [for_each]; [reflexivity|].
  unfold bind. rewrite Hbody.
  destruct (body' x s) as [[[]| |e] s1]; [apply IH | reflexivity | reflexivity].
Qed.

Lemma main_without_multi_run (locations : list Location) (routetype : string)
  (connectivity : bool) (iterations iterations' : N)
  (directions_options : DirectionsOptions) (pt json_ptree : ptree) :
  main locations routetype connectivity false iterations directions_options
    pt json_ptree
  = main locations routetype connectivity false iterations' directions_options
      pt json_ptree.
Proof.
  unfold main.
  destruct (setup locations routetype pt json_ptree) as [x|su]; [reflexivity|].
  destruct (find_locations locations (cost0 su) (reader0 su) [])
    as [[path_location|] w]; [|reflexivity].
  assert (Hroute : forall s,
             route_and_report su directions_options false iterations path_location s
             = route_and_report su directions_options false iterations' path_location s).
  { intros s. rewrite !route_and_report_eq. unfold route_legs.
    rewrite (for_each_ext _ _
               (leg (routetype_lower su) directions_options false iterations'
                  (mode0 su) path_location)); [reflexivity|].
    intros i s1. reflexivity. }
  unfold finish. rewrite Hroute. reflexivity.
Qed.

Section Program.
Variable FromCsv : string -> option Location.
Variable FromPtree : ptree -> option Location.
Variable read_json : string -> option ptree.
Variable GetDirectionsOptions : ptree -> DirectionsOptions.
Variable get_int : string -> option Z.
Variable set_date_time : option string -> Location -> Location.
Variable read_config : string -> option ptree.

(** The variable [iterations] is not initialized when the option
    multi-run is not given.  Whatever value it then holds, the program
    does the same: it exits the same way, says the same and leaves the
    same calls and lines. *)
Theorem program_ignores_indeterminate (indeterminate indeterminate' : N)
  (parsed : option variables_map) :
  program FromCsv FromPtree read_json GetDirectionsOptions get_int set_date_time
    indeterminate read_config parsed
  = program FromCsv FromPtree read_json GetDirectionsOptions get_int set_date_time
      indeterminate' read_config parsed.
Proof.
  unfold program, command_line.
  destruct parsed as [vm|]; [|reflexivity].
  destruct (negb (Nat.eqb (count vm "help") 0)); [reflexivity|].
  destruct (negb (Nat.eqb (count vm "version") 0)); [reflexivity|].
  cbv zeta.
  assert (Hmain : forall locations routetype directions_options pt json_ptree,
             main locations routetype (negb (Nat.eqb (count vm "connectivity") 0))
               (negb (Nat.eqb (count vm "multi-run") 0))
               match multi_run_option vm with
               | Some n => n
               | None => indeterminate
               end directions_options pt json_ptree
             = main locations routetype (negb (Nat.eqb (count vm "connectivity") 0))
                 (negb (Nat.eqb (count vm "multi-run") 0))
                 match multi_run_option vm with
                 | Some n => n
                 | None => indeterminate'
                 end directions_options pt json_ptree).
  { intros. unfold count. cbn [String.eqb Ascii.eqb Bool.eqb andb].
    destruct (multi_run_option vm); [reflexivity|].
    cbn [times Nat.eqb negb]. apply main_without_multi_run. }
  destruct (Nat.eqb (count vm "json") 0).
  - destruct (first_missing vm _); [reflexivity|].
    destruct (FromCsv (bound (origin_option vm))); [|reflexivity].
    destruct (FromCsv (bound (destination_option vm))); [|reflexivity].
    cbn [request_config request_locations request_routetype request_connectivity
         request_multi_run request_iterations request_directions_options
         request_json_ptree].
    destruct (read_config (bound (config_option vm))); [|reflexivity].
    now rewrite Hmain.
  - destruct (process_json _ _ _ _ _ _ _) as [[[[locations routetype] options] tree]|];
      [|reflexivity].
    cbn [request_config request_locations request_routetype request_connectivity
         request_multi_run request_iterations request_directions_options
         request_json_ptree].
    destruct (read_config (bound (config_option vm))); [|reflexivity].
    now rewrite Hmain.
Qed.

End Program.
End Iterations.

Lemma mandatory_arguments_witness :
  let vm := {| help_flag := false; version_flag := false; connectivity_flag := false;
               multi_run_option := None; origin_option := Some "A";
               destination_option := None; type_option := Some "auto";
               json_option := None; config_option := None |} in
  exists before after,
    ["origin"; "destination"; "type"; "config"] = before ++ "destination" :: after /\
    count vm "destination" = 0%nat /\
    Forall (fun given => count vm given <> 0%nat) before.
Proof.
  intros vm.
  destruct (mandatory_arguments (fun s => Some (place s)) (fun _ => None)
              (fun _ => None) (fun _ => miles) (fun _ => None) (fun _ l => l) 0 vm
              eq_refl eq_refl eq_refl) as [_ H].
  apply H. reflexivity.
Defined.

Lemma json_overrides_arguments_witness :
  let request := Node "" [("locations", Node "" [("", Node "A" []); ("", Node "B" [])]);
                          ("costing", Node "auto" [])] in
  let vm := {| help_flag := false; version_flag := false; connectivity_flag := true;
               multi_run_option := None; origin_option := None;
               destination_option := None; type_option := None;
               json_option := Some "{}"; config_option := Some "valhalla.json" |} in
  let vm' := {| help_flag := false; version_flag := false; connectivity_flag := true;
                multi_run_option := None; origin_option := Some "X";
                destination_option := Some "Y"; type_option := Some "bicycle";
                json_option := Some "{}"; config_option := Some "valhalla.json" |} in
  command_line (fun s => Some (place s)) (fun t => Some (place (Ptree.data t)))
    (fun _ => Some request) (fun _ => miles) (fun _ => None) (fun _ l => l) 0 (Some vm')
  = command_line (fun s => Some (place s)) (fun t => Some (place (Ptree.data t)))
      (fun _ => Some request) (fun _ => miles) (fun _ => None) (fun _ l => l) 0 (Some vm).
Proof.
  intros request vm vm'.
  apply (json_overrides_arguments (fun s => Some (place s))
           (fun t => Some (place (Ptree.data t))) (fun _ => Some request)
           (fun _ => miles) (fun _ => None) (fun _ l => l) 0 vm "{}"
           (Some "X") (Some "Y") (Some "bicycle") eq_refl).
Defined.

Lemma hands_over_two_locations_witness :
  let vm := {| help_flag := false; version_flag := false; connectivity_flag := false;
               multi_run_option := None; origin_option := Some "A";
               destination_option := Some "B"; type_option := Some "auto";
               json_option := None; config_option := Some "valhalla.json" |} in
  exists request,
    command_line (fun s => Some (place s)) (fun _ => None) (fun _ => None)
      (fun _ => miles) (fun _ => None) (fun _ l => l) 0 (Some vm)
    = Proceeds request /\
    List.length (request_locations request) = 2%nat /\
    request_json_ptree request = empty_ptree.
Proof.
  intros vm. eexists. split; [reflexivity|].
  edestruct (hands_over_two_locations (fun s => Some (place s)) (fun _ => None)
               (fun _ => None) (fun _ => miles) (fun _ => None) (fun _ l => l) 0
               (Some vm)) as [_ H]; [reflexivity|].
  destruct (H vm eq_refl eq_refl) as (Hlen & _ & Htree).
  split; [exact Hlen | exact Htree].
Defined.

(** ** The locations of a request *)

Lemma update_back_last {A : Type} (f : A -> A) (front : list A) (x : A) :
  update_back f (front ++ [x]) = front ++ [f x].
Proof.
  unfold update_back. rewrite rev_unit. cbn [update_front rev].
  now rewrite rev_involutive.
Qed.

(** The date and time of a request is only ever assigned to the first or
    to the last location: the locations in between are handed over as
    they were read, whatever the type of the date and time is. *)
Theorem date_time_on_first_or_last (get_int : string -> option Z)
  (set_date_time : option string -> Location -> Location) (json_ptree : ptree)
  (first last : Location) (between locations : list Location) :
  with_date_time get_int set_date_time json_ptree (first :: between ++ [last])
  = Some locations ->
  exists first' last', locations = first' :: between ++ [last'].
Proof.
  unfold with_date_time.
  destruct (get_child_optional json_ptree "date_time") as [date_time|].
  2:{ intros H. injection H as <-. eauto. }
  destruct (get_child_optional date_time "type") as [type|]; [|discriminate].
  destruct (get_int (Ptree.data type)) as [date_time_type|]; [|discriminate].
  intros H. injection H as <-.
  destruct (Z.eqb date_time_type 0); [cbn [update_front]; eauto|].
  destruct (Z.eqb date_time_type 1); [cbn [update_front]; eauto|].
  destruct (Z.eqb date_time_type 2); [|eauto].
  change (first :: between ++ [last]) with ((first :: between) ++ [last]).
  rewrite update_back_last. cbn [app]. eauto.
Qed.

Lemma date_time_on_first_or_last_witness :
  let json_ptree :=
    Node "" [("date_time", Node "" [("type", Node "2" []);
                                    ("value", Node "2016-07-03T08:06" [])])] in
  let stamp := fun (value : option string) (l : Location) =>
                 {| latlng_ := latlng_ l;
                    name_ := (name_ l ++ "@" ++ bound value)%string |} in
  exists first' last',
    with_date_time (fun _ => Some 2%Z) stamp json_ptree [place "A"; place "B"; place "C"]
    = Some [first'; place "B"; last'].
Proof.
  intros json_ptree stamp.
  destruct (date_time_on_first_or_last (fun _ => Some 2%Z) stamp json_ptree
              (place "A") (place "C") [place "B"]
              [place "A"; place "B"; stamp (Some "2016-07-03T08:06") (place "C")]
              eq_refl) as (first' & last' & H).
  exists first', last'. cbn [app] in H. rewrite <- H. reflexivity.
Defined.

Section Resolution.
Context {DC : DynamicCost} {E : Externals}.

Lemma find_locations_in_order (locations : list Location) (cost : cost_t) :
  forall (w : world) (found path_location : list PathLocation) (w' : world),
    find_locations locations cost w found = (Some path_location, w') ->
    exists resolved,
      path_location = found ++ resolved /\
      Forall2 (fun loc pl => exists w0, fst (loki_Search loc cost w0) = Some pl)
              locations resolved.
Proof.
  induction locations as [|loc rest IH]; intros w found path_location w' H;
    cbn [find_locations] in H.
  - injection H as <- _. exists []. rewrite app_nil_r. split; [reflexivity | constructor].
  - destruct (loki_Search loc cost w) as [[pl|] w1] eqn:Hs; [|discriminate].
    destruct (IH _ _ _ _ H) as (resolved & -> & Hall).
    exists (pl :: resolved). rewrite <- app_assoc. split; [reflexivity|].
    constructor; [|exact Hall]. exists w. now rewrite Hs.
Qed.

(** When every location is resolved, the path locations the legs are
    routed between are the results of the location search, one for each
    location and in the order of the request; the search is made with
    the costing of the mode the run starts in. *)
Theorem locations_resolved_in_order (locations : list Location) (cost : cost_t)
  (w w' : world) (path_location : list PathLocation) :
  find_locations locations cost w [] = (Some path_location, w') ->
  Forall2 (fun loc pl => exists w0, fst (loki_Search loc cost w0) = Some pl)
          locations path_location.
Proof.
  intros H. destruct (find_locations_in_order _ _ _ _ _ _ H) as (resolved & -> & Hall).
  exact Hall.
Qed.

End Resolution.

Lemma locations_resolved_in_order_witness :
  Forall2 (fun loc pl =>
             exists w0, fst (loki_Search (Externals := scripted one_trip) loc auto_cost w0)
                        = Some pl)
          [place "A"; place "B"; place "C"]
          [found "A" [1%N]; found "B" [2%N]; found "C" [3%N]].
Proof.
  apply (locations_resolved_in_order (E := scripted one_trip)
           [place "A"; place "B"; place "C"] auto_cost
           {| time := 0; pending := [] |} {| time := 0; pending := [] |}).
  reflexivity.
Defined.
